(** * Verification of tools/extract_video_vae_latents.py

    A shallow embedding of the latent-extraction tool: the frame sampler
    [load_video_and_transform], the transform builder [get_transform], the
    dataset methods, the rank partition made by the distributed sampler,
    the persistence task [save_tensor] and the driver loop of [main].

    Conventions.
    - Python [int] is [Z]; [//] on a positive divisor is [Z.div].
    - A Python call either returns or raises: [result].
    - Python [float] and torch [float32] arithmetic is the exact rational
      operation followed by a rounding operator, see [faithful] and
      [monotone_rounding]; the same arithmetic is also run bit for bit in
      binary64 and binary32 on concrete values.
    - cv2, torch and torchvision are library code: [VideoCapture],
      [cvtColor], [stack], [Resize], [CenterCrop], [Normalize],
      [DistributedSampler] and the thread pool follow the libraries'
      documented behaviour. *)

From stdpp Require Import base list gmap strings sorting.
From Stdlib Require Import ZArith QArith Qround Qabs Lia Lqa Permutation.
From Stdlib Require Import Floats.SpecFloat.

Local Open Scope Z_scope.

(** ** Python values and control flow *)

(** The exception classes the tool can meet; all derive from [Exception]. *)
Inductive exn : Type :=
  | IndexError
  | TypeError
  | ZeroDivisionError
  | RuntimeError
  | ValueError
  | OSError
  | CvError
  | KeyError.

(** Outcome of a Python call. *)
Inductive result (A : Type) : Type :=
  | Ret (a : A)
  | Raise (e : exn).
Arguments Ret {A} a.
Arguments Raise {A} e.

Definition bind {A B} (r : result A) (k : A → result B) : result B :=
  match r with
  | Ret a => k a
  | Raise e => Raise e
  end.

Notation "'let!' x ':=' r 'in' k" := (bind r (fun x => k))
  (at level 10, x name, r at level 100, k at level 200).

(** Code that also changes a state [S]: the state survives a raise, so an
    [except] clause sees what the [try] body did. *)
Definition ST (S A : Type) : Type := S → result A * S.

Definition mret {S A} (a : A) : ST S A := fun s => (Ret a, s).

Definition mraise {S A} (e : exn) : ST S A := fun s => (Raise e, s).

Definition mbind {S A B} (m : ST S A) (k : A → ST S B) : ST S B :=
  fun s =>
    match m s with
    | (Ret a, s') => k a s'
    | (Raise e, s') => (Raise e, s')
    end.

Notation "'do!' x ':=' m 'in' k" := (mbind m (fun x => k))
  (at level 10, x name, m at level 100, k at level 200).
Notation "m ';;;' k" := (mbind m (fun _ => k))
  (at level 100, k at level 200, right associativity).

(** [try: body except Exception as e: handler e] on stateful code. *)
Definition mtry {S A} (body : ST S A) (handler : exn → ST S A) : ST S A :=
  fun s =>
    match body s with
    | (Ret a, s') => (Ret a, s')
    | (Raise e, s') => handler e s'
    end.

Definition lift {S A} (r : result A) : ST S A := fun s => (r, s).

(** [l[:n]] for a Python int [n]: a negative bound counts from the end. *)
Definition py_take {A} (n : Z) (l : list A) : list A :=
  if 0 <=? n then take (Z.to_nat n) l
  else take (Z.to_nat (Z.of_nat (length l) + n)) l.

(** [l[-1]]: the last element, [IndexError] on the empty list. *)
Definition py_last {A} (l : list A) : result A :=
  match last l with
  | Some a => Ret a
  | None => Raise IndexError
  end.

(** ** Frame-count alignment (line 97) *)

(** [duration = ((len(frames) - 1) // 8) * 8 + 1]. *)
Definition duration (len_frames : Z) : Z := ((len_frames - 1) / 8) * 8 + 1.

(** ** Tensors

    A tensor is its shape and its entries; entries outside the shape are
    never looked at. *)

Record tensor3 (A : Type) : Type := Tensor3 {
  shape3 : nat * nat * nat;
  at3 : nat → nat → nat → A
}.
Arguments Tensor3 {A} shape3 at3.
Arguments shape3 {A} t.
Arguments at3 {A} t _ _ _.

Record tensor4 (A : Type) : Type := Tensor4 {
  shape4 : nat * nat * nat * nat;
  at4 : nat → nat → nat → nat → A
}.
Arguments Tensor4 {A} shape4 at4.
Arguments shape4 {A} t.
Arguments at4 {A} t _ _ _ _.

(** [t.permute(2, 0, 1)]: result axis i is source axis (2,0,1)[i]. *)
Definition permute_201 {A} (t : tensor3 A) : tensor3 A :=
  let '(d0, d1, d2) := shape3 t in
  Tensor3 (d2, d0, d1) (fun i j k => at3 t j k i).

(** [t.permute(1, 0, 2, 3)]. *)
Definition permute_1023 {A} (t : tensor4 A) : tensor4 A :=
  let '(d0, d1, d2, d3) := shape4 t in
  Tensor4 (d1, d0, d2, d3) (fun i j k l => at4 t j i k l).

Definition map4 {A B} (f : A → B) (t : tensor4 A) : tensor4 B :=
  Tensor4 (shape4 t) (fun i j k l => f (at4 t i j k l)).

Definition shape3_eqb (s1 s2 : nat * nat * nat) : bool :=
  bool_decide (s1 = s2).

(** [torch.stack(frames)]: a new leading axis; the list must be non-empty
    and all its tensors must have one shape. *)
Definition torch_stack {A} (dflt : A) (frames : list (tensor3 A)) : result (tensor4 A) :=
  match frames with
  | [] => Raise RuntimeError
  | f0 :: _ =>
      if forallb (fun f => shape3_eqb (shape3 f) (shape3 f0)) frames then
        let '(c, h, w) := shape3 f0 in
        Ret (Tensor4 (length frames, c, h, w)
               (fun t i j k =>
                  match frames !! t with
                  | Some f => at3 f i j k
                  | None => dflt
                  end))
      else Raise RuntimeError
  end.

(** ** Floating point

    A floating-point operation is the exact operation on rationals followed
    by the format's rounding. [fl64] rounds to a Python float, [fl32] to a
    torch float32. The identity is exact arithmetic. *)

Definition exact (q : Q) : Q := q.

(** The standard model of a rounding with unit roundoff [u]. *)
Record faithful (u : Q) (fl : Q → Q) : Prop := {
  fl_error : ∀ x, (Qabs (fl x - x) <= u * Qabs x)%Q;
}.

(** What the pixel arithmetic needs of float32: rounding is monotone and
    keeps 0, ±1/2 and ±1. *)
Record monotone_rounding (fl : Q → Q) : Prop := {
  fl_mono : ∀ x y, (x <= y)%Q → (fl x <= fl y)%Q;
  fl_zero : (fl 0 == 0)%Q;
  fl_one : (fl 1 == 1)%Q;
  fl_half : (fl (1 # 2) == 1 # 2)%Q;
  fl_neg_half : (fl (- (1 # 2)) == - (1 # 2))%Q;
  fl_neg_one : (fl (- 1) == - 1)%Q;
}.

(** Python [round(x)] with no digits: to the nearest integer, ties to even. *)
Definition py_round (x : Q) : Z :=
  let f := Qfloor x in
  match (x - inject_Z f ?= 1 # 2)%Q with
  | Lt => f
  | Gt => f + 1
  | Eq => if Z.even f then f else f + 1
  end.

(** Python [max(a, b)]: [b] only when it is strictly greater. *)
Definition py_max (a b : Q) : Q := if Qle_bool b a then a else b.

(** ** The libraries behind the tool

    What the tool takes from its numeric libraries: the two roundings and
    the resampling kernel of [torchvision]'s [Resize]
    ([interpolate mode antialias in_size out_size plane y x]). *)

Inductive InterpolationMode : Type := NEAREST | BILINEAR | BICUBIC.

Class Backend : Type := {
  fl64 : Q → Q;
  fl32 : Q → Q;
  interpolate : InterpolationMode → bool → nat * nat → nat * nat →
                (nat → nat → Q) → nat → nat → Q;
}.

(** Exact arithmetic and nearest-neighbour resampling. *)
Definition exact_backend : Backend := {|
  fl64 := exact;
  fl32 := exact;
  interpolate := fun _ _ '(h, w) '(rh, rw) plane y x =>
    plane (y * h / rh)%nat (x * w / rw)%nat;
|}.

(** ** torchvision transforms *)

Inductive transform : Type :=
  | Resize (size : Z * Z) (interpolation : InterpolationMode) (antialias : bool)
  | CenterCrop (size : Z * Z)
  | Normalize (mean std : Q * Q * Q).

Definition channel (m : Q * Q * Q) (c : nat) : Q :=
  match c with
  | O => m.1.1
  | S O => m.1.2
  | _ => m.2
  end.

(** [pad(img, [left, top, right, bottom], fill=0)]. *)
Definition pad (left top right bottom : nat) (img : tensor4 Q) : tensor4 Q :=
  let '(t, c, h, w) := shape4 img in
  Tensor4 (t, c, (top + h + bottom)%nat, (left + w + right)%nat)
    (fun i j y x =>
       if (top <=? y)%nat && (y <? top + h)%nat
          && (left <=? x)%nat && (x <? left + w)%nat
       then at4 img i j (y - top)%nat (x - left)%nat
       else 0%Q).

(** [crop(img, top, left, height, width)] for a window inside the image. *)
Definition crop (top left height width : nat) (img : tensor4 Q) : tensor4 Q :=
  let '(t, c, _, _) := shape4 img in
  Tensor4 (t, c, height, width)
    (fun i j y x => at4 img i j (top + y)%nat (left + x)%nat).

(** The tail of [center_crop]: the window is centred with Python's [round]. *)
Definition crop_centered (crop_height crop_width : Z) (img : tensor4 Q) : tensor4 Q :=
  let '(_, _, h, w) := shape4 img in
  let crop_top := py_round (inject_Z (Z.of_nat h - crop_height) / 2) in
  let crop_left := py_round (inject_Z (Z.of_nat w - crop_width) / 2) in
  crop (Z.to_nat crop_top) (Z.to_nat crop_left)
       (Z.to_nat crop_height) (Z.to_nat crop_width) img.

(** [torchvision.transforms.functional.center_crop]: an image smaller than
    the window is first padded with zeros. *)
Definition center_crop (crop_height crop_width : Z) (img : tensor4 Q) : tensor4 Q :=
  let '(_, _, h, w) := shape4 img in
  let image_height := Z.of_nat h in
  let image_width := Z.of_nat w in
  if (image_width <? crop_width) || (image_height <? crop_height) then
    let pl := if image_width <? crop_width then (crop_width - image_width) / 2 else 0 in
    let pt := if image_height <? crop_height then (crop_height - image_height) / 2 else 0 in
    let pr := if image_width <? crop_width then (crop_width - image_width + 1) / 2 else 0 in
    let pb := if image_height <? crop_height then (crop_height - image_height + 1) / 2 else 0 in
    let img' := pad (Z.to_nat pl) (Z.to_nat pt) (Z.to_nat pr) (Z.to_nat pb) img in
    let '(_, _, h', w') := shape4 img' in
    if (crop_width =? Z.of_nat w') && (crop_height =? Z.of_nat h') then img'
    else crop_centered crop_height crop_width img'
  else crop_centered crop_height crop_width img.

Section Transforms.
Context `{Backend}.

(** One entry of [x.sub_(mean).div_(std)] in float32. *)
Definition normalize_value (mean std x : Q) : Q := fl32 (fl32 (x - mean) / std)%Q.

(** One transform applied to a (..., C, H, W) float tensor. [Resize] needs
    positive sizes; [Normalize] with three means needs three channels and
    computes [x.sub_(mean).div_(std)]. *)
Definition apply_transform (tr : transform) (img : tensor4 Q) : result (tensor4 Q) :=
  let '(t, c, h, w) := shape4 img in
  match tr with
  | Resize (rh, rw) mode aa =>
      if (rh <=? 0) || (rw <=? 0) || (h =? 0)%nat || (w =? 0)%nat
      then Raise RuntimeError
      else
        Ret (Tensor4 (t, c, Z.to_nat rh, Z.to_nat rw)
               (fun i j y x =>
                  interpolate mode aa (h, w) (Z.to_nat rh, Z.to_nat rw)
                    (fun a b => at4 img i j a b) y x))
  | CenterCrop (ch, cw) => Ret (center_crop ch cw img)
  | Normalize mean std =>
      if (c =? 3)%nat then
        Ret (Tensor4 (shape4 img)
               (fun i j y x =>
                  normalize_value (channel mean j) (channel std j) (at4 img i j y x)))
      else Raise RuntimeError
  end.

(** [Compose(transform_list)(img)]. *)
Fixpoint compose (transform_list : list transform) (img : tensor4 Q) : result (tensor4 Q) :=
  match transform_list with
  | [] => Ret img
  | tr :: rest => let! img' := apply_transform tr img in compose rest img'
  end.

(** ** get_transform (lines 24-53)

    [width] and [height] come from a tensor shape; the target sizes are
    pixel counts, or [None] when the caller leaves them out. *)
Definition get_transform (width height : Z) (new_width new_height : option N)
    (resize : bool) : result (list transform) :=
  let! resize_steps :=
    if resize then
      let! nw := match new_width with Some n => Ret (Z.of_N n) | None => Raise TypeError end in
      if width =? 0 then Raise ZeroDivisionError else
      let! nh := match new_height with Some n => Ret (Z.of_N n) | None => Raise TypeError end in
      if height =? 0 then Raise ZeroDivisionError else
      let scale := py_max (fl64 (inject_Z nw / inject_Z width))
                          (fl64 (inject_Z nh / inject_Z height)) in
      let resized_width := py_round (fl64 (inject_Z width * scale)) in
      let resized_height := py_round (fl64 (inject_Z height * scale)) in
      Ret [Resize (resized_height, resized_width) BICUBIC true;
           CenterCrop (nh, nw)]
    else Ret [] in
  Ret (resize_steps ++ [Normalize (1 # 2, 1 # 2, 1 # 2)%Q (1 # 2, 1 # 2, 1 # 2)%Q]).

End Transforms.

(** ** Video files as cv2 sees them *)

(** One call of [VideoCapture.read]: a decoded H x W x C frame of bytes in
    BGR order, or an exception. When the list is used up [read] returns
    [(False, None)]. *)
Inductive read_outcome : Type :=
  | ReadFrame (frame : tensor3 Byte.byte)
  | ReadRaises (e : exn).

(** A file on disk: whether opening it raises, and what its reads give. A
    path with no file gives a capture whose first read already fails. *)
Record video_file : Type := {
  open_raises : option exn;
  stream : list read_outcome;
}.

Definition missing_file : video_file := {| open_raises := None; stream := [] |}.

(** [cv2.cvtColor(frame, cv2.COLOR_BGR2RGB)]: three or four input channels,
    three output channels with the first and third swapped. *)
Definition decodable (frame : tensor3 Byte.byte) : bool :=
  let '(_, _, c) := shape3 frame in (c =? 3)%nat || (c =? 4)%nat.

Definition swap_red_blue (frame : tensor3 Byte.byte) : tensor3 Byte.byte :=
  let '(h, w, _) := shape3 frame in
  Tensor3 (h, w, 3%nat) (fun y x k => at3 frame y x (2 - k)%nat).

Definition cvtColor_BGR2RGB (frame : tensor3 Byte.byte) : result (tensor3 Byte.byte) :=
  if decodable frame then Ret (swap_red_blue frame) else Raise CvError.

(** Lines 82-84: colour conversion, [torch.from_numpy], [permute(2, 0, 1)]. *)
Definition to_chw (frame : tensor3 Byte.byte) : result (tensor3 Byte.byte) :=
  let! frame := cvtColor_BGR2RGB frame in
  Ret (permute_201 frame).

(** ** Effects of the sampler: the capture and the console *)

Inductive message : Type :=
  | EmptyVideo (video_path : string)
  | LoadingVideoException (video_path : string) (e : exn)
  | LoadVideoTensorError (e : exn)
  | ErrorWith (e : exn)
  | TotalVideos (n : nat).

Inductive event : Type :=
  | EvOpen (video_path : string)
  | EvRead
  | EvRelease
  | EvPrint (m : message).

(** The local variable [video_capture] ([None], or the capture with what it
    has not read yet) and everything done so far, oldest first. *)
Record sampler_state : Type := {
  video_capture : option (list read_outcome);
  events : list event;
}.

Definition M (A : Type) : Type := ST sampler_state A.

Definition emit (ev : event) : M unit :=
  fun s => (Ret tt, {| video_capture := video_capture s; events := events s ++ [ev] |}).

Definition print (m : message) : M unit := emit (EvPrint m).

Definition set_video_capture (c : option (list read_outcome)) : M unit :=
  fun s => (Ret tt, {| video_capture := c; events := events s |}).

Definition get_video_capture : M (option (list read_outcome)) :=
  fun s => (Ret (video_capture s), s).

(** [video_capture = cv2.VideoCapture(video_path)]. *)
Definition cv2_VideoCapture (disk : gmap string video_file) (video_path : string) : M unit :=
  let file := default missing_file (disk !! video_path) in
  match open_raises file with
  | Some e => mraise e
  | None => emit (EvOpen video_path) ;;; set_video_capture (Some (stream file))
  end.

(** [video_capture.release()]. *)
Definition release : M unit := emit EvRelease.

(** ** load_video_and_transform (lines 57-117) *)

(** The [while True] loop of lines 73-87, by recursion on what the capture
    has not read yet. Gives the frames kept (or the exception), the unread
    rest and the number of [read] calls. *)
Fixpoint read_loop (frame_indexs : list Z) (frame_indexes_set : gset Z)
    (unread : list read_outcome) (frame_index : Z) (frames : list (tensor3 Byte.byte))
  : result (list (tensor3 Byte.byte)) * list read_outcome * nat :=
  match unread with
  | [] => (Ret frames, [], 1%nat)
  | ReadRaises e :: rest => (Raise e, rest, 1%nat)
  | ReadFrame frame :: rest =>
      match py_last frame_indexs with
      | Raise e => (Raise e, rest, 1%nat)
      | Ret last_index =>
          if last_index <? frame_index then (Ret frames, rest, 1%nat)
          else
            let appended :=
              if bool_decide (frame_index ∈ frame_indexes_set) then
                let! frame := to_chw frame in Ret (frames ++ [frame])
              else Ret frames in
            match appended with
            | Raise e => (Raise e, rest, 1%nat)
            | Ret frames =>
                let '(r, rest', n) :=
                  read_loop frame_indexs frame_indexes_set rest (frame_index + 1) frames in
                (r, rest', S n)
            end
      end
  end.

(** The loop as an action on the capture; it runs only after the capture
    has been assigned. *)
Definition read_frames (frame_indexs : list Z) (frame_indexes_set : gset Z)
  : M (list (tensor3 Byte.byte)) :=
  fun s =>
    let '(r, rest, n) :=
      read_loop frame_indexs frame_indexes_set (default [] (video_capture s)) 0 [] in
    (r, {| video_capture := Some rest; events := events s ++ replicate n EvRead |}).

Definition byte_to_Q (b : Byte.byte) : Q := inject_Z (Z.of_N (Byte.to_N b)).

Section Sampler.
Context `{Backend}.

(** [x.float() / 255] on one entry. *)
Definition to_unit (b : Byte.byte) : Q := fl32 (byte_to_Q b / 255)%Q.

(** Lines 99-107 on the frames that are kept: stack, scale, transform,
    permute. *)
Definition stack_and_transform (frames : list (tensor3 Byte.byte))
    (new_width new_height : option N) (resize : bool) : result (tensor4 Q) :=
  let! stacked := torch_stack Byte.x00 frames in
  let frames := map4 to_unit stacked in
  let '(_, _, h, w) := shape4 frames in
  let! video_transform :=
    get_transform (Z.of_nat w) (Z.of_nat h) new_width new_height resize in
  let! frames := compose video_transform frames in
  Ret (permute_1023 frames).

(** Lines 96-107: the frame budget, the alignment, then the tensor. *)
Definition truncate_and_transform (frames : list (tensor3 Byte.byte)) (frame_number : Z)
    (new_width new_height : option N) (resize : bool) : result (tensor4 Q) :=
  let frames := py_take frame_number frames in
  let duration := duration (Z.of_nat (length frames)) in
  let frames := py_take duration frames in
  stack_and_transform frames new_width new_height resize.

Definition load_video_and_transform (disk : gmap string video_file)
    (video_path : string) (frame_indexs : list Z) (frame_number : Z)
    (new_width new_height : option N) (resize : bool) : M (option (tensor4 Q)) :=
  set_video_capture None ;;;
  let frame_indexes_set : gset Z := list_to_set frame_indexs in
  mtry
    (cv2_VideoCapture disk video_path ;;;
     do! frames := read_frames frame_indexs frame_indexes_set in
     release ;;;
     if (length frames =? 0)%nat then
       print (EmptyVideo video_path) ;;;
       mret None
     else
       do! frames := lift (truncate_and_transform frames frame_number
                             new_width new_height resize) in
       mret (Some frames))
    (fun e =>
       print (LoadingVideoException video_path e) ;;;
       do! capture := get_video_capture in
       (if capture is Some _ then release else mret tt) ;;;
       mret None).

(** ** VideoDataset (lines 121-198) *)

(** A manifest line: [video], [latent] and the optional [frames]. *)
Record video_item : Type := {
  item_video : string;
  item_latent : string;
  item_frames : option (list Z);
}.

(** [width] and [height] are the target size in pixels, [num_frames] the
    frame budget as parsed from the command line. *)
Record VideoDataset : Type := {
  annotation : list video_item;
  width : N;
  height : N;
  num_frames : Z;
}.

(** [t.unsqueeze(0)]: the tensor behind a new leading axis of length 1. *)
Record batched : Type := Unsqueeze0 { unbatch : tensor4 Q }.

Record work_item : Type := {
  wi_video : string;
  wi_input : batched;
  wi_output : string;
}.

Definition process_one_video (disk : gmap string video_file) (self : VideoDataset)
    (item : video_item) : M (list work_item) :=
  let video_per_task : list work_item := [] in
  let video_path := item_video item in
  let output_latent_path := item_latent item in
  let frame_indexs :=
    match item_frames item with
    | Some l => l
    | None => seqZ 0 (num_frames self)
    end in
  mtry
    (do! video_frames_tensors :=
       load_video_and_transform disk video_path frame_indexs (num_frames self)
         (Some (width self)) (Some (height self)) true in
     match video_frames_tensors with
     | None => mret video_per_task
     | Some t =>
         mret (video_per_task ++
               [{| wi_video := video_path;
                   wi_input := Unsqueeze0 t;
                   wi_output := output_latent_path |}])
     end)
    (fun e => print (LoadVideoTensorError e) ;;; mret video_per_task).

(** [__getitem__]: an index outside the manifest raises inside the [try]. *)
Definition getitem (disk : gmap string video_file) (self : VideoDataset)
    (index : nat) : M (list work_item) :=
  mtry
    (do! item := lift (match annotation self !! index with
                       | Some it => Ret it
                       | None => Raise IndexError
                       end) in
     process_one_video disk self item)
    (fun e => print (ErrorWith e) ;;; mret []).

Definition len (self : VideoDataset) : nat := length (annotation self).

End Sampler.

Definition initial_state : sampler_state := {| video_capture := None; events := [] |}.

(** Specification of the frame selection: the frames of a video whose index
    is requested, in the order of the video, as the loop stores them. *)
Definition keep_requested (frame_indexs : list Z) (p : nat * tensor3 Byte.byte)
  : option (tensor3 Byte.byte) :=
  let '(i, frame) := p in
  if bool_decide (Z.of_nat i ∈ frame_indexs)
  then Some (permute_201 (swap_red_blue frame)) else None.

Definition frames_at_requested (frame_indexs : list Z) (video : list (tensor3 Byte.byte))
  : list (tensor3 Byte.byte) :=
  omap (keep_requested frame_indexs) (imap pair video).

(** ** The rank partition (lines 254-257)

    [build_data_loader] hands the dataset to torch's [DistributedSampler]
    with [shuffle=False] and the default [drop_last=False]. The sampler is
    library code; this is its constructor and [__iter__] on that path. *)

Definition ceil_div (a b : nat) : nat := ((a + b - 1) / b)%nat.

(** [range(start, stop, step)] for a positive step. *)
Definition py_range (start stop step : nat) : list nat :=
  map (fun j => (start + j * step)%nat) (seq 0 (ceil_div (stop - start) step)).

(** [l[start:stop:step]] for a positive step. *)
Definition py_slice {A} (l : list A) (start stop step : nat) : list A :=
  omap (fun p => l !! p) (py_range start (min stop (length l)) step).

Record DistributedSampler : Type := {
  dataset_len : nat;
  num_replicas : nat;
  rank : nat;
  num_samples : nat;
  total_size : nat;
}.

(** [DistributedSampler(dataset, num_replicas, rank, shuffle=False)]. *)
Definition DistributedSampler_init (dataset_len num_replicas rank : nat)
  : result DistributedSampler :=
  if (num_replicas <=? rank)%nat then Raise ValueError
  else
    let num_samples := ceil_div dataset_len num_replicas in
    Ret {| dataset_len := dataset_len;
           num_replicas := num_replicas;
           rank := rank;
           num_samples := num_samples;
           total_size := (num_samples * num_replicas)%nat |}.

(** The padding step of [__iter__]: the list is made [total_size] long by
    repeating it from its start. *)
Definition pad_indices (indices : list nat) (total_size : nat) : list nat :=
  let padding_size := (total_size - length indices)%nat in
  if (padding_size <=? length indices)%nat then
    indices ++ take padding_size indices
  else
    indices ++
    take padding_size
      (mjoin (replicate (ceil_div padding_size (length indices)) indices)).

(** [__iter__] without shuffling: the indices in order, padded, then every
    [num_replicas]-th one from [rank]. *)
Definition sampler_iter (self : DistributedSampler) : list nat :=
  let indices := seq 0 (dataset_len self) in
  let indices := pad_indices indices (total_size self) in
  py_slice indices (rank self) (total_size self) (num_replicas self).

(** The manifest indices rank [rank] of [world_size] works on. *)
Definition shard (manifest_size world_size rank : nat) : result (list nat) :=
  let! sampler := DistributedSampler_init manifest_size world_size rank in
  Ret (sampler_iter sampler).

(** The indices of all ranks of a world, rank after rank. *)
Definition world_indices (manifest_size world_size : nat) : list nat :=
  rank ← seq 0 world_size;
  match shard manifest_size world_size rank with
  | Ret indices => indices
  | Raise _ => []
  end.

(** ** collate_fn (lines 235-246) *)

Record sample : Type := {
  sample_input : list batched;
  sample_output : list string;
}.

Definition collate_fn (batch : list (list work_item)) : sample :=
  foldl
    (fun return_batch videos_ =>
       foldl
         (fun return_batch video_input =>
            {| sample_input := sample_input return_batch ++ [wi_input video_input];
               sample_output := sample_output return_batch ++ [wi_output video_input] |})
         return_batch videos_)
    {| sample_input := []; sample_output := [] |} batch.

(** ** save_tensor (lines 275-282) and the driver (lines 306-343) *)

(** How a write can go wrong: [tensor.clone()] raises, or [torch.save]
    raises and leaves [left_behind] at the path. *)
Inductive save_fault (L : Type) : Type :=
  | CloneRaises (e : exn)
  | SaveRaises (e : exn) (left_behind : option L).
Arguments CloneRaises {L} e.
Arguments SaveRaises {L} e left_behind.

(** The encoder, the storage and the thread pool as the driver meets them:
    [encode_latent k x] is the k-th encode call (it samples, so equal inputs
    may give different latents), [save_fault_of i] is what happens to the
    write of future [i], [as_completed] is the order in which the pool
    finishes its tasks. *)
Class Runtime : Type := {
  latent : Type;
  encode_latent : nat → batched → result latent;
  to_storage : latent → latent;
  save_fault_of : nat → option (save_fault latent);
  as_completed : ∀ A : Type, list A → list A;
}.

Section Driver.
Context `{Runtime}.

(** [torch.save(tensor.clone(), output_path)] on the output files. *)
Definition torch_save_clone (fault : option (save_fault latent)) (tensor : latent)
    (output_path : string) : ST (gmap string latent) unit :=
  fun files =>
    match fault with
    | None => (Ret tt, <[output_path := tensor]> files)
    | Some (CloneRaises e) => (Raise e, files)
    | Some (SaveRaises e (Some junk)) => (Raise e, <[output_path := junk]> files)
    | Some (SaveRaises e None) => (Raise e, delete output_path files)
    end.

Definition save_tensor (fault : option (save_fault latent)) (tensor : latent)
    (output_path : string) : ST (gmap string latent) unit :=
  mtry (torch_save_clone fault tensor output_path)
       (fun e => mret tt).

(** A task handed to the pool. *)
Record future : Type := {
  fut_id : nat;
  fut_tensor : latent;
  fut_path : string;
}.

Inductive main_event : Type :=
  | EvBarrier
  | EvEncoded (video_latent : latent) (output_path : string)
  | EvSubmitted (f : future)
  | EvCollected (f : future).

Record main_state : Type := {
  task_queue : list future;
  files : gmap string latent;
  encode_calls : nat;
  log : list main_event;
}.

Definition record (ev : main_event) : ST main_state unit :=
  fun s =>
    (Ret tt, {| task_queue := task_queue s; files := files s;
                encode_calls := encode_calls s; log := log s ++ [ev] |}).

Definition barrier : ST main_state unit := record EvBarrier.

(** [model.encode_latent(...)] then [.to(torch_dtype).cpu()]. *)
Definition encode (video_input : batched) (output_path : string) : ST main_state latent :=
  fun s =>
    let s' := {| task_queue := task_queue s; files := files s;
                 encode_calls := S (encode_calls s); log := log s |} in
    match encode_latent (encode_calls s) video_input with
    | Raise e => (Raise e, s')
    | Ret video_latent =>
        let video_latent := to_storage video_latent in
        (record (EvEncoded video_latent output_path) ;;; mret video_latent) s'
    end.

(** [task_queue.append(executor.submit(save_tensor, video_latent, output_path))]. *)
Definition submit (video_latent : latent) (output_path : string) : ST main_state unit :=
  fun s =>
    let f := {| fut_id := length (task_queue s);
                fut_tensor := video_latent;
                fut_path := output_path |} in
    (Ret tt, {| task_queue := task_queue s ++ [f]; files := files s;
                encode_calls := encode_calls s;
                log := log s ++ [EvSubmitted f] |}).

(** The inner [for ... in zip(input_video_list, output_path_list)]. *)
Fixpoint encode_items (items : list (batched * string)) : ST main_state unit :=
  match items with
  | [] => mret tt
  | (video_input, output_path) :: rest =>
      do! video_latent := encode video_input output_path in
      submit video_latent output_path ;;;
      encode_items rest
  end.

(** The outer [for sample in tqdm(data_loader)]. *)
Fixpoint encode_loop (data_loader : list sample) : ST main_state unit :=
  match data_loader with
  | [] => mret tt
  | sample :: rest =>
      encode_items (zip (sample_input sample) (sample_output sample)) ;;;
      encode_loop rest
  end.

(** The pool runs its tasks: each is [save_tensor] on the files, taken in
    the order the tasks finish; a task's outcome is kept in its future. *)
Fixpoint run_tasks (tasks : list future) (files : gmap string latent)
  : list (future * result unit) * gmap string latent :=
  match tasks with
  | [] => ([], files)
  | f :: rest =>
      let '(r, files) := save_tensor (save_fault_of (fut_id f)) (fut_tensor f) (fut_path f) files in
      let '(done, files) := run_tasks rest files in
      ((f, r) :: done, files)
  end.

Definition join_pool : ST main_state (list (future * result unit)) :=
  fun s =>
    let '(done, files') := run_tasks (as_completed future (task_queue s)) (files s) in
    (Ret done, {| task_queue := task_queue s; files := files';
                  encode_calls := encode_calls s; log := log s |}).

(** [for future in futures.as_completed(task_queue): res = future.result()];
    [result()] raises what the task raised. *)
Fixpoint collect (done : list (future * result unit)) : ST main_state unit :=
  match done with
  | [] => mret tt
  | (f, r) :: rest =>
      do! res := lift r in
      record (EvCollected f) ;;;
      collect rest
  end.

(** The [with futures.ThreadPoolExecutor(...)] block: leaving it, also by
    an exception, waits for the submitted tasks. *)
Definition with_executor (data_loader : list sample) : ST main_state unit :=
  fun s =>
    match encode_loop data_loader s with
    | (Raise e, s') => (join_pool ;;; mraise e) s'
    | (Ret _, s') => (do! done := join_pool in collect done) s'
    end.

Definition main (data_loader : list sample) : ST main_state unit :=
  barrier ;;;
  with_executor data_loader ;;;
  barrier.

Definition start (files : gmap string latent) : main_state :=
  {| task_queue := []; files := files; encode_calls := 0%nat; log := [] |}.

(** What a log says was encoded, submitted and collected. *)
Definition encoded_of (l : list main_event) : list (latent * string) :=
  omap (fun ev => match ev with EvEncoded x p => Some (x, p) | _ => None end) l.

Definition submitted_of (l : list main_event) : list future :=
  omap (fun ev => match ev with EvSubmitted f => Some f | _ => None end) l.

Definition collected_of (l : list main_event) : list future :=
  omap (fun ev => match ev with EvCollected f => Some f | _ => None end) l.

(** Events of the encode loop. *)
Definition is_work (ev : main_event) : Prop :=
  match ev with
  | EvEncoded _ _ | EvSubmitted _ => True
  | _ => False
  end.

(** What holds between two items of the encode loop: after the first
    barrier only encodes and submissions happened, the queue is what was
    submitted, one future per encoded latent in order, and the futures are
    numbered by position. *)
Record encoding_invariant (s : main_state) : Prop := {
  inv_log : ∃ work, log s = EvBarrier :: work ∧ Forall is_work work;
  inv_submitted : submitted_of (log s) = task_queue s;
  inv_encoded :
    encoded_of (log s) = map (fun f => (fut_tensor f, fut_path f)) (task_queue s);
  inv_ids : map fut_id (task_queue s) = seq 0 (length (task_queue s));
}.

End Driver.

(** ** The data loader (lines 249-271)

    [build_data_loader] gives the dataset and the sampler to torch's
    [DataLoader] with [drop_last=False] and [collate_fn]. *)

(** torch's [BatchSampler] without [drop_last]: an index is appended to the
    current batch, a batch of [batch_size] indices is yielded, and what is
    left at the end is yielded as a shorter batch. *)
Fixpoint batch_sampler (batch_size : nat) (sampler : list nat) (batch : list nat)
  : list (list nat) :=
  match sampler with
  | [] => if (0 <? length batch)%nat then [batch] else []
  | idx :: rest =>
      let batch := batch ++ [idx] in
      if (length batch =? batch_size)%nat
      then batch :: batch_sampler batch_size rest []
      else batch_sampler batch_size rest batch
  end.

Section DataLoader.
Context `{Backend}.

(** [[dataset[i] for i in batch]]. *)
Fixpoint fetch (disk : gmap string video_file) (self : VideoDataset)
    (batch : list nat) : M (list (list work_item)) :=
  match batch with
  | [] => mret []
  | index :: rest =>
      do! videos_ := getitem disk self index in
      do! others := fetch disk self rest in
      mret (videos_ :: others)
  end.

(** [for sample in data_loader]: the batches in order, each fetched and
    collated. The workers' console output is taken in index order. *)
Fixpoint iterate (disk : gmap string video_file) (self : VideoDataset)
    (batches : list (list nat)) : M (list sample) :=
  match batches with
  | [] => mret []
  | batch :: rest =>
      do! fetched := fetch disk self batch in
      do! samples := iterate disk self rest in
      mret (collate_fn fetched :: samples)
  end.

(** The sampler for this rank, then the loader; a rank outside the world
    and a batch size below 1 are refused by the constructors. *)
Definition build_data_loader (disk : gmap string video_file) (self : VideoDataset)
    (world_size rank : nat) (batch_size : Z) : M (list sample) :=
  do! sampler := lift (DistributedSampler_init (len self) world_size rank) in
  if batch_size <=? 0 then mraise ValueError
  else iterate disk self (batch_sampler (Z.to_nat batch_size) (sampler_iter sampler) []).

(** The work items of one manifest index. *)
Definition items_of (disk : gmap string video_file) (self : VideoDataset)
    (index : nat) : list work_item :=
  match (getitem disk self index initial_state).1 with
  | Ret videos_ => videos_
  | Raise _ => []
  end.

(** The (input, output path) pairs of one manifest index. *)
Definition pairs_at (disk : gmap string video_file) (self : VideoDataset) (index : nat)
  : list (batched * string) :=
  map (fun item => (wi_input item, wi_output item)) (items_of disk self index).

End DataLoader.

(** What a list of events printed. *)
Definition messages_of (l : list event) : list message :=
  omap (fun ev => match ev with EvPrint m => Some m | _ => None end) l.

(** How often a list of events released the capture. *)
Definition is_release (ev : event) : bool :=
  match ev with EvRelease => true | _ => false end.

Definition releases_of (l : list event) : nat := length (List.filter is_release l).

(** The pairs the driver iterates over, across all samples. *)
Definition pairs_of (data_loader : list sample) : list (batched * string) :=
  concat (map (fun smp => zip (sample_input smp) (sample_output smp)) data_loader).

(** ** Manifest values as Python meets them

    [jsonlines] turns a manifest line into Python values, and the tool uses
    them unchecked. The definitions above take a line whose [frames] value,
    when present, is a list of ints; the ones in [Py] take any value.
    Numbers are finite. *)

#[local] Unset Elimination Schemes.
Inductive json : Type :=
  | JNull
  | JBool (b : bool)
  | JNum (q : Q)
  | JStr (s : string)
  | JList (l : list json)
  | JDict (d : list (string * json)).
#[local] Set Elimination Schemes.

(** A Python list of ints. *)
Definition ints (l : list Z) : json := JList (map (fun z => JNum (inject_Z z)) l).

(** Lists and dicts are unhashable. *)
Definition hashable (x : json) : bool :=
  match x with
  | JList _ | JDict _ => false
  | _ => true
  end.

(** [set(x)], as the list of its elements: [TypeError] when [x] is not
    iterable or one of its elements is unhashable. A string iterates over
    its characters and a dict over its keys. *)
Definition py_set (x : json) : result (list json) :=
  match x with
  | JNull | JBool _ | JNum _ => Raise TypeError
  | JStr s => Ret (map (fun c => JStr (String c EmptyString)) (String.list_ascii_of_string s))
  | JList l => if forallb hashable l then Ret l else Raise TypeError
  | JDict d => Ret (map (fun kv => JStr kv.1) d)
  end.

(** The number a value compares as: [True] and [False] are 1 and 0. *)
Definition as_number (x : json) : option Q :=
  match x with
  | JNum q => Some q
  | JBool b => Some (if b then 1%Q else 0%Q)
  | _ => None
  end.

(** [frame_index in s] for an int [frame_index] and a set [s]. *)
Definition int_in (frame_index : Z) (s : list json) : bool :=
  existsb (fun x => match as_number x with
                    | Some q => Qeq_bool (inject_Z frame_index) q
                    | None => false
                    end) s.

(** [x[-1]] on a value that [set] accepted: the last character, the last
    element, or a lookup of the key -1 in a dict whose keys are strings. *)
Definition py_last_item (x : json) : result json :=
  match x with
  | JStr s =>
      match last (String.list_ascii_of_string s) with
      | Some c => Ret (JStr (String c EmptyString))
      | None => Raise IndexError
      end
  | JList l => py_last l
  | JDict _ => Raise KeyError
  | _ => Raise TypeError
  end.

(** [frame_index > x] for an int [frame_index]. *)
Definition int_gt (frame_index : Z) (x : json) : result bool :=
  match as_number x with
  | Some q => Ret (negb (Qle_bool (inject_Z frame_index) q))
  | None => Raise TypeError
  end.

Module Py.

(** The loop of lines 73-87 on any value of [frame_indexs]. *)
Fixpoint read_loop (frame_indexs : json) (frame_indexes_set : list json)
    (unread : list read_outcome) (frame_index : Z) (frames : list (tensor3 Byte.byte))
  : result (list (tensor3 Byte.byte)) * list read_outcome * nat :=
  match unread with
  | [] => (Ret frames, [], 1%nat)
  | ReadRaises e :: rest => (Raise e, rest, 1%nat)
  | ReadFrame frame :: rest =>
      match (let! last_index := py_last_item frame_indexs in
             int_gt frame_index last_index) with
      | Raise e => (Raise e, rest, 1%nat)
      | Ret true => (Ret frames, rest, 1%nat)
      | Ret false =>
          let appended :=
            if int_in frame_index frame_indexes_set then
              let! frame := to_chw frame in Ret (frames ++ [frame])
            else Ret frames in
          match appended with
          | Raise e => (Raise e, rest, 1%nat)
          | Ret frames =>
              let '(r, rest', n) :=
                read_loop frame_indexs frame_indexes_set rest (frame_index + 1) frames in
              (r, rest', S n)
          end
      end
  end.

Definition read_frames (frame_indexs : json) (frame_indexes_set : list json)
  : M (list (tensor3 Byte.byte)) :=
  fun s =>
    let '(r, rest, n) :=
      read_loop frame_indexs frame_indexes_set (default [] (video_capture s)) 0 [] in
    (r, {| video_capture := Some rest; events := events s ++ replicate n EvRead |}).

(** A manifest line: a JSON object whose [video] and [latent], when
    present, are strings, and whose [frames], when present, is any value. *)
Record video_item : Type := {
  item_video : option string;
  item_latent : option string;
  item_frames : option json;
}.

Record VideoDataset : Type := {
  annotation : list video_item;
  width : N;
  height : N;
  num_frames : Z;
}.

Definition len (self : VideoDataset) : nat := length (annotation self).

(** [video_item[key]]. *)
Definition item_get {A} (value : option A) : result A :=
  match value with
  | Some v => Ret v
  | None => Raise KeyError
  end.

Section Sampler.
Context `{Backend}.

(** Lines 57-117: [set(frame_indexs)] of line 65 runs before the [try]. *)
Definition load_video_and_transform (disk : gmap string video_file)
    (video_path : string) (frame_indexs : json) (frame_number : Z)
    (new_width new_height : option N) (resize : bool) : M (option (tensor4 Q)) :=
  set_video_capture None ;;;
  do! frame_indexes_set := lift (py_set frame_indexs) in
  mtry
    (cv2_VideoCapture disk video_path ;;;
     do! frames := read_frames frame_indexs frame_indexes_set in
     release ;;;
     if (length frames =? 0)%nat then
       print (EmptyVideo video_path) ;;;
       mret None
     else
       do! frames := lift (truncate_and_transform frames frame_number
                             new_width new_height resize) in
       mret (Some frames))
    (fun e =>
       print (LoadingVideoException video_path e) ;;;
       do! capture := get_video_capture in
       (if capture is Some _ then release else mret tt) ;;;
       mret None).

(** Lines 144-179: the two key lookups are outside the [try]. *)
Definition process_one_video (disk : gmap string video_file) (self : VideoDataset)
    (video_item : video_item) : M (list work_item) :=
  let video_per_task : list work_item := [] in
  do! video_path := lift (item_get (item_video video_item)) in
  do! output_latent_path := lift (item_get (item_latent video_item)) in
  let frame_indexs :=
    match item_frames video_item with
    | Some value => value
    | None => ints (seqZ 0 (num_frames self))
    end in
  mtry
    (do! video_frames_tensors :=
       load_video_and_transform disk video_path frame_indexs (num_frames self)
         (Some (width self)) (Some (height self)) true in
     match video_frames_tensors with
     | None => mret video_per_task
     | Some t =>
         mret (video_per_task ++
               [{| wi_video := video_path;
                   wi_input := Unsqueeze0 t;
                   wi_output := output_latent_path |}])
     end)
    (fun e => print (LoadVideoTensorError e) ;;; mret video_per_task).

(** Lines 184-194. *)
Definition getitem (disk : gmap string video_file) (self : VideoDataset)
    (index : nat) : M (list work_item) :=
  mtry
    (do! video_item := lift (match annotation self !! index with
                             | Some it => Ret it
                             | None => Raise IndexError
                             end) in
     process_one_video disk self video_item)
    (fun e => print (ErrorWith e) ;;; mret []).

(** Lines 123-141: the constructor reads the whole manifest and prints its
    size. [anno_file] is what reading gives: the lines, or the exception of
    [jsonlines] (no such file, a line that is not JSON). *)
Definition VideoDataset_init (anno_file : result (list video_item))
    (width height : N) (num_frames : Z) : M VideoDataset :=
  do! lines := lift anno_file in
  print (TotalVideos (length lines)) ;;;
  mret {| annotation := lines; width := width; height := height;
          num_frames := num_frames |}.

Fixpoint fetch (disk : gmap string video_file) (self : VideoDataset)
    (batch : list nat) : M (list (list work_item)) :=
  match batch with
  | [] => mret []
  | index :: rest =>
      do! videos_ := getitem disk self index in
      do! others := fetch disk self rest in
      mret (videos_ :: others)
  end.

Fixpoint iterate (disk : gmap string video_file) (self : VideoDataset)
    (batches : list (list nat)) : M (list sample) :=
  match batches with
  | [] => mret []
  | batch :: rest =>
      do! fetched := fetch disk self batch in
      do! samples := iterate disk self rest in
      mret (collate_fn fetched :: samples)
  end.

(** Lines 233-271, with the samples the loader then yields: the dataset is
    built first, then the sampler, then the loader. *)
Definition build_data_loader (disk : gmap string video_file)
    (anno_file : result (list video_item)) (width height : N) (num_frames : Z)
    (world_size rank : nat) (batch_size : Z) : M (list sample) :=
  do! dataset := VideoDataset_init anno_file width height num_frames in
  do! sampler := lift (DistributedSampler_init (len dataset) world_size rank) in
  if batch_size <=? 0 then mraise ValueError
  else iterate disk dataset (batch_sampler (Z.to_nat batch_size) (sampler_iter sampler) []).

End Sampler.

End Py.

(** A line and a dataset of the typed kind, as [Py] sees them. *)
Definition line_of (item : video_item) : Py.video_item :=
  {| Py.item_video := Some (item_video item);
     Py.item_latent := Some (item_latent item);
     Py.item_frames := option_map ints (item_frames item) |}.

Definition dataset_of (self : VideoDataset) : Py.VideoDataset :=
  {| Py.annotation := map line_of (annotation self);
     Py.width := width self;
     Py.height := height self;
     Py.num_frames := num_frames self |}.

(** ** The bicubic kernel of torch

    [interpolate(..., mode='bicubic', antialias=True)] on the CPU is
    separable: along one axis an output position takes the input positions
    in its support, weighted by Keys' cubic with a = -1/2 and normalised
    to sum 1. Here in exact arithmetic. *)

Definition cubic_filter (x : Q) : Q :=
  let x := Qabs x in
  if Qle_bool 2 x then 0
  else if Qle_bool 1 x then (((-1 # 2) * x + (5 # 2)) * x - 4) * x + 2
  else ((3 # 2) * x - (5 # 2)) * x * x + 1.

Definition Qsum (l : list Q) : Q := foldr Qplus 0%Q l.

(** The first input position and the weights of output position [i]. *)
Definition aa_weights (input_size output_size i : nat) : nat * list Q :=
  let scale := (inject_Z (Z.of_nat input_size) / inject_Z (Z.of_nat output_size))%Q in
  let support := if Qle_bool 1 scale then (2 * scale)%Q else 2%Q in
  let invscale := if Qle_bool 1 scale then (/ scale)%Q else 1%Q in
  let center := (scale * (inject_Z (Z.of_nat i) + (1 # 2)))%Q in
  let xmin := Z.max (Qfloor (center - support + (1 # 2))) 0 in
  let xsize := Z.min (Qfloor (center + support + (1 # 2))) (Z.of_nat input_size) - xmin in
  let weights :=
    map (fun j => cubic_filter ((inject_Z (j + xmin) - center + (1 # 2)) * invscale)%Q)
        (seqZ 0 xsize) in
  let total_w := Qsum weights in
  (Z.to_nat xmin,
   if Qeq_bool total_w 0 then weights else map (fun w => (w / total_w)%Q) weights).

Definition resample (input_size output_size : nat) (line : nat → Q) (i : nat) : Q :=
  let '(xmin, weights) := aa_weights input_size output_size i in
  Qsum (imap (fun j w => (w * line (xmin + j)%nat)%Q) weights).

Definition bicubic_aa (in_size out_size : nat * nat) (plane : nat → nat → Q)
    (y x : nat) : Q :=
  let '(h, w) := in_size in
  let '(rh, rw) := out_size in
  resample h rh (fun a => resample w rw (plane a) x) y.

(** Exact arithmetic with torch's bicubic kernel. *)
Definition bicubic_backend : Backend := {|
  fl64 := exact;
  fl32 := exact;
  interpolate := fun mode antialias in_size out_size plane y x =>
    match mode, antialias with
    | BICUBIC, true => bicubic_aa in_size out_size plane y x
    | _, _ => plane (y * in_size.1 / out_size.1)%nat (x * in_size.2 / out_size.2)%nat
    end;
|}.

(** A frame of one row with a dark left half and a bright right half. *)
Definition edge_frame : tensor3 Byte.byte :=
  Tensor3 (1, 6, 3)%nat (fun _ x _ => if (x <? 3)%nat then Byte.x00 else Byte.xff).

(** ** IEEE arithmetic, bit for bit

    The pixel arithmetic in binary32 and the size arithmetic of
    [get_transform] in binary64, with the operations of [SpecFloat]. *)

(** The rational a finite float stands for. *)
Definition SF2Q (x : spec_float) : Q :=
  match x with
  | S754_finite s m e =>
      let v := (inject_Z (Zpos m) * (2 ^ e))%Q in if s then (- v)%Q else v
  | _ => 0%Q
  end.

Definition sf32_of_Z (z : Z) : spec_float := binary_normalize 24 128 z 0 false.

Definition sf32_half : spec_float := binary_normalize 24 128 1 (-1) false.

(** [x.float() / 255] in binary32. *)
Definition sf32_to_unit (b : Byte.byte) : spec_float :=
  SFdiv 24 128 (sf32_of_Z (Z.of_N (Byte.to_N b))) (sf32_of_Z 255).

(** [x.sub_(0.5).div_(0.5)] in binary32. *)
Definition sf32_normalize (x : spec_float) : spec_float :=
  SFdiv 24 128 (SFsub 24 128 x sf32_half) sf32_half.

(** Both values are in range and within 2^-24 and 2^-23 of the exact ones. *)
Definition sf32_pixel_ok (b : Byte.byte) : bool :=
  let x := sf32_to_unit b in
  let y := sf32_normalize x in
  SFleb (sf32_of_Z 0) x && SFleb x (sf32_of_Z 1)
  && SFleb (sf32_of_Z (-1)) y && SFleb y (sf32_of_Z 1)
  && Qle_bool (Qabs (SF2Q x - byte_to_Q b / 255)) (1 # 2 ^ 24)
  && Qle_bool (Qabs (SF2Q y - (byte_to_Q b / 255 - (1 # 2)) / (1 # 2))) (1 # 2 ^ 23).

Definition sf64_of_Z (z : Z) : spec_float := binary_normalize 53 1024 z 0 false.

Definition sf64_max (a b : spec_float) : spec_float := if SFltb a b then b else a.

(** Lines 35-39 in binary64: [(resized_height, resized_width)]. *)
Definition sf64_resized (width height new_width new_height : Z) : Z * Z :=
  let scale := sf64_max (SFdiv 53 1024 (sf64_of_Z new_width) (sf64_of_Z width))
                        (SFdiv 53 1024 (sf64_of_Z new_height) (sf64_of_Z height)) in
  let resized_width := py_round (SF2Q (SFmul 53 1024 (sf64_of_Z width) scale)) in
  let resized_height := py_round (SF2Q (SFmul 53 1024 (sf64_of_Z height) scale)) in
  (resized_height, resized_width).

(** The binary64 sizes cover the target and are the sizes of exact
    arithmetic. *)
Definition sf64_resized_ok (sizes : Z * Z * Z * Z) : bool :=
  let '(w, h, nw, nh) := sizes in
  let '(rh, rw) := sf64_resized w h nw nh in
  (nh <=? rh) && (nw <=? rw)
  && match @get_transform exact_backend w h (Some (Z.to_N nw)) (Some (Z.to_N nh)) true with
     | Ret (Resize (rh', rw') _ _ :: _) => (rh =? rh') && (rw =? rw')
     | _ => false
     end.

Definition sizes_up_to (a b c d : nat) : list (Z * Z * Z * Z) :=
  w ← seqZ 1 (Z.of_nat a); h ← seqZ 1 (Z.of_nat b);
  nw ← seqZ 1 (Z.of_nat c); nh ← seqZ 1 (Z.of_nat d);
  [(w, h, nw, nh)].

(** ** Sample inputs *)

(** A frame of one colour. *)
Definition solid_frame (h w : nat) (blue green red : Byte.byte) : tensor3 Byte.byte :=
  Tensor3 (h, w, 3%nat)
    (fun _ _ k => match k with O => blue | S O => green | _ => red end).

(** A clip of [n] equal 2 x 4 frames. *)
Definition sample_clip (n : nat) : video_file :=
  {| open_raises := None;
     stream := replicate n (ReadFrame (solid_frame 2 4 Byte.x80 Byte.x10 Byte.xff)) |}.

Definition sample_disk : gmap string video_file :=
  {[ "a.mp4"%string := sample_clip 30 ]}.

(** A runtime whose encoder keeps its input, whose second write fails and
    whose pool finishes the tasks in reverse order. *)
Definition sample_runtime : Runtime := {|
  latent := batched;
  encode_latent := fun _ x => Ret x;
  to_storage := fun x => x;
  save_fault_of := fun i =>
    match i with
    | S O => Some (SaveRaises OSError None)
    | _ => None
    end;
  as_completed := fun A l => rev l;
|}.

Definition sample_loader : list sample :=
  let x := Unsqueeze0 (Tensor4 (3, 1, 2, 4)%nat (fun _ _ _ _ => 0%Q)) in
  [ {| sample_input := [x; x]; sample_output := ["a.pt"; "b.pt"]%string |};
    {| sample_input := [x]; sample_output := ["c.pt"%string] |} ].

(** ** Theorems *)

(** C2. For a frame count F >= 1 the aligned count is ((F-1)//8)*8+1, it is
    at most F, it is congruent to 1 modulo 8, it has the form k*8+1 with
    k >= 0, and no larger number of that form is at most F. *)
Theorem duration_largest_aligned (F : Z) :
  1 <= F →
  duration F = ((F - 1) / 8) * 8 + 1
  ∧ duration F <= F
  ∧ duration F mod 8 = 1
  ∧ (∃ k, 0 <= k ∧ duration F = k * 8 + 1)
  ∧ (∀ k, 0 <= k → k * 8 + 1 <= F → k * 8 + 1 <= duration F).
Proof.
  intros HF. unfold duration.
  pose proof (Z.div_mod (F - 1) 8 ltac:(lia)) as Hdm.
  pose proof (Z.mod_pos_bound (F - 1) 8 ltac:(lia)) as Hb.
  assert (Hq : 0 <= (F - 1) / 8) by (apply Z.div_pos; lia).
  repeat split.
  - lia.
  - rewrite Z.add_comm, Z.mod_add by lia. reflexivity.
  - exists ((F - 1) / 8). split; [exact Hq | reflexivity].
  - intros k Hk Hle.
    assert (k <= (F - 1) / 8) by (apply Z.div_le_lower_bound; lia).
    lia.
Qed.

Lemma duration_largest_aligned_witness :
  1 <= 30
  ∧ duration 30 = 25
  ∧ duration 30 <= 30
  ∧ duration 30 mod 8 = 1.
Proof.
  split; [lia |].
  destruct (duration_largest_aligned 30 ltac:(lia)) as (H1 & H2 & H3 & _).
  split; [exact H1 | split; [exact H2 | exact H3]].
Defined.

(** *** The rank partition *)

Section ShardFacts.
Local Open Scope nat_scope.

Lemma ceil_div_spec a b : 0 < b → ceil_div a b * b < a + b ∧ a ≤ ceil_div a b * b.
Proof.
  intros Hb. unfold ceil_div.
  pose proof (Nat.div_mod (a + b - 1) b ltac:(lia)) as Hdm.
  pose proof (Nat.mod_upper_bound (a + b - 1) b ltac:(lia)) as Hm.
  nia.
Qed.

Lemma ceil_div_mul_sub n b r : 0 < b → r < b → ceil_div (n * b - r) b = n.
Proof.
  intros Hb Hr. unfold ceil_div.
  destruct n as [|n].
  - simpl. apply Nat.div_small. lia.
  - replace (S n * b - r + b - 1) with ((b - 1 - r) + S n * b) by nia.
    rewrite Nat.div_add by lia. rewrite Nat.div_small by lia. lia.
Qed.

Lemma ceil_div_exact M W : 0 < W → M mod W = 0 → ceil_div M W = M / W.
Proof.
  intros HW Hdiv. unfold ceil_div.
  pose proof (Nat.div_mod_eq M W) as HMW.
  replace (M + W - 1) with ((W - 1) + (M / W) * W) by lia.
  rewrite Nat.div_add by lia. rewrite Nat.div_small by lia. done.
Qed.

Lemma mod_sub_self p n : n ≤ p → p mod n = (p - n) mod n.
Proof.
  intros Hle. replace p with ((p - n) + 1 * n) at 1 by lia.
  by rewrite Nat.Div0.mod_add.
Qed.

(** [indices * k] read at position [q]. *)
Lemma lookup_mjoin_replicate k n q :
  q < k * n → mjoin (replicate k (seq 0 n)) !! q = Some (q mod n).
Proof.
  revert q. induction k as [|k IH]; intros q Hq; [lia|].
  simpl. destruct (decide (q < n)) as [Hlt|Hge].
  - rewrite lookup_app_l by (rewrite length_seq; lia).
    rewrite lookup_seq_lt by lia. rewrite Nat.mod_small by lia. done.
  - rewrite lookup_app_r by (rewrite length_seq; lia).
    rewrite length_seq. rewrite IH by nia.
    f_equal. symmetry. apply mod_sub_self. lia.
Qed.

(** The padded list repeats the manifest cyclically. *)
Lemma pad_indices_lookup n total p :
  0 < n → n ≤ total → p < total →
  pad_indices (seq 0 n) total !! p = Some (p mod n).
Proof.
  intros Hn Hle Hp. unfold pad_indices. rewrite length_seq.
  destruct (decide (p < n)) as [Hlt|Hge].
  - assert (Hl : ∀ l : list nat, (seq 0 n ++ l) !! p = Some (p mod n)).
    { intros l. rewrite lookup_app_l by (rewrite length_seq; lia).
      rewrite lookup_seq_lt by lia. by rewrite Nat.mod_small by lia. }
    destruct (total - n <=? n); apply Hl.
  - pose proof (mod_sub_self p n ltac:(lia)) as Hmod.
    destruct (total - n <=? n) eqn:Hpad.
    + apply Nat.leb_le in Hpad.
      rewrite lookup_app_r by (rewrite length_seq; lia).
      rewrite length_seq, lookup_take_lt by lia.
      rewrite lookup_seq_lt by lia.
      rewrite Hmod, Nat.mod_small by lia. done.
    + rewrite lookup_app_r by (rewrite length_seq; lia).
      rewrite length_seq, lookup_take_lt by lia.
      rewrite lookup_mjoin_replicate.
      * by rewrite Hmod.
      * pose proof (ceil_div_spec (total - n) n Hn). lia.
Qed.

Lemma pad_indices_length n total :
  n ≤ total → 0 < n ∨ total = 0 → length (pad_indices (seq 0 n) total) = total.
Proof.
  intros Hle Hn. unfold pad_indices. rewrite length_seq.
  destruct (total - n <=? n) eqn:Hpad.
  - apply Nat.leb_le in Hpad. rewrite length_app, length_take, length_seq. lia.
  - apply Nat.leb_gt in Hpad.
    rewrite length_app, length_take, length_seq.
    assert (Hlen : ∀ k, length (mjoin (replicate k (seq 0 n))) = k * n).
    { induction k as [|k IH]; simpl; [done|]. rewrite length_app, length_seq, IH. lia. }
    rewrite Hlen.
    pose proof (ceil_div_spec (total - n) n ltac:(lia)). lia.
Qed.

Lemma py_range_bound start stop step p :
  0 < step → p ∈ py_range start stop step → p < stop.
Proof.
  intros Hs. unfold py_range. rewrite list_elem_of_fmap.
  intros (j & -> & Hj). apply elem_of_seq in Hj.
  pose proof (ceil_div_spec (stop - start) step Hs). nia.
Qed.

(** Rank [r] gets the padded positions r, r+W, r+2W, ...: the manifest
    indices at those positions modulo M. *)
Lemma shard_eq M W r :
  r < W →
  shard M W r = Ret (map (λ j, (r + j * W) mod M) (seq 0 (ceil_div M W))).
Proof.
  intros Hr. unfold shard, DistributedSampler_init.
  destruct (W <=? r) eqn:HW; [apply Nat.leb_le in HW; lia|].
  cbn [bind]. f_equal. unfold sampler_iter.
  cbn [dataset_len total_size rank num_replicas].
  pose proof (ceil_div_spec M W ltac:(lia)) as [Hup Hlo].
  destruct (decide (M = 0)) as [->|HM].
  - assert (Hz : ceil_div 0 W = 0) by (unfold ceil_div; apply Nat.div_small; lia).
    rewrite Hz. unfold py_slice, py_range.
    cbn [pad_indices Nat.mul length Nat.min Nat.sub].
    rewrite Nat.sub_0_l, Hz. reflexivity.
  - unfold py_slice. rewrite pad_indices_length by lia. rewrite Nat.min_id.
    assert (Hall : ∀ l, (∀ p, p ∈ l → p < ceil_div M W * W) →
      omap (λ p, pad_indices (seq 0 M) (ceil_div M W * W) !! p) l
      = map (λ p, p mod M) l).
    { induction l as [|p l IH]; intros Hl; [done|].
      cbn. rewrite pad_indices_lookup; [|lia|lia|apply Hl; left].
      cbn. f_equal. apply IH. intros q Hq. apply Hl. by right. }
    rewrite Hall by (intros p Hp; eapply py_range_bound; [|exact Hp]; lia).
    unfold py_range. rewrite ceil_div_mul_sub by lia.
    rewrite <- list_fmap_compose. reflexivity.
Qed.

Lemma shard_cover M W i :
  0 < W → i < M → ∃ l, shard M W (i mod W) = Ret l ∧ i ∈ l.
Proof.
  intros HW Hi. eexists. split.
  - apply shard_eq. apply Nat.mod_upper_bound. lia.
  - apply list_elem_of_fmap. exists (i / W). split.
    + rewrite Nat.add_comm, (Nat.mul_comm (i / W)), <- Nat.div_mod_eq.
      by rewrite Nat.mod_small.
    + apply elem_of_seq. split; [lia|]. simpl.
      pose proof (ceil_div_spec M W HW) as [_ Hlo].
      apply Nat.Div0.div_lt_upper_bound. lia.
Qed.

Lemma shard_range M W r l i :
  r < W → shard M W r = Ret l → i ∈ l → i < M.
Proof.
  intros Hr. rewrite shard_eq by done. intros [= <-].
  rewrite list_elem_of_fmap. intros (j & -> & Hj). apply elem_of_seq in Hj.
  destruct (decide (M = 0)) as [->|HM].
  - exfalso.
    assert (ceil_div 0 W = 0) by (unfold ceil_div; apply Nat.div_small; lia). lia.
  - apply Nat.mod_upper_bound. done.
Qed.

(** When W divides M nothing is padded: rank [r] gets r, r+W, r+2W, ... *)
Lemma shard_exact M W r l :
  r < W → M mod W = 0 → shard M W r = Ret l →
  l = map (λ j, r + j * W) (seq 0 (M / W)).
Proof.
  intros Hr Hdiv. rewrite shard_eq by done. intros [= <-].
  rewrite ceil_div_exact by (done || lia).
  pose proof (Nat.div_mod_eq M W) as HMW.
  apply list_fmap_ext. intros k j Hj.
  apply lookup_seq in Hj as [-> Hj]. simpl.
  apply Nat.mod_small. nia.
Qed.

(** Two padded positions of one rank hold different entries. *)
Lemma strided_mod_inj M W r j1 j2 :
  0 < W → j1 < ceil_div M W → j2 < ceil_div M W →
  (r + j1 * W) mod M = (r + j2 * W) mod M → j1 = j2.
Proof.
  intros HW H1 H2 Heq.
  destruct (ceil_div_spec M W HW) as [Hhi Hlo].
  assert (HM : 0 < M).
  { destruct M; [|lia]. exfalso.
    assert (ceil_div 0 W = 0) by (unfold ceil_div; apply Nat.div_small; lia). lia. }
  pose proof (Nat.div_mod_eq (r + j1 * W) M) as Hd1.
  pose proof (Nat.div_mod_eq (r + j2 * W) M) as Hd2.
  rewrite Heq in Hd1.
  set (a1 := (r + j1 * W) / M) in *. set (a2 := (r + j2 * W) / M) in *.
  set (m := (r + j2 * W) mod M) in *.
  destruct (Nat.lt_trichotomy j1 j2) as [Hlt|[->|Hgt]]; [exfalso|done|exfalso].
  - assert (Hd : (j2 - j1) * W = M * (a2 - a1)) by nia.
    assert (Hsmall : (j2 - j1) * W < M) by nia.
    assert (Hpos : 0 < (j2 - j1) * W) by nia.
    destruct (a2 - a1); nia.
  - assert (Hd : (j1 - j2) * W = M * (a1 - a2)) by nia.
    assert (Hsmall : (j1 - j2) * W < M) by nia.
    assert (Hpos : 0 < (j1 - j2) * W) by nia.
    destruct (a1 - a2); nia.
Qed.

Lemma shard_NoDup M W r l : r < W → shard M W r = Ret l → NoDup l.
Proof.
  intros Hr. rewrite shard_eq by done. intros [= <-].
  apply NoDup_fmap_2_strong; [|apply NoDup_seq].
  intros j1 j2 Hj1 Hj2 Heq. apply elem_of_seq in Hj1, Hj2.
  apply (strided_mod_inj M W r); (lia || done).
Qed.

(** When W does not divide M, entry 0 is at position 0 and at position M
    of the padded list, on ranks 0 and M mod W. *)
Lemma shard_wraps_to_start M W :
  0 < W → M mod W ≠ 0 →
  0 < M mod W < W
  ∧ ∃ l1 l2, shard M W 0 = Ret l1 ∧ shard M W (M mod W) = Ret l2 ∧ 0 ∈ l1 ∧ 0 ∈ l2.
Proof.
  intros HW Hmod.
  pose proof (Nat.mod_upper_bound M W ltac:(lia)) as Hm.
  destruct (ceil_div_spec M W HW) as [Hhi Hlo].
  pose proof (Nat.div_mod_eq M W) as Hdm.
  assert (HM : 0 < M) by (destruct M; [by rewrite Nat.Div0.mod_0_l in Hmod|lia]).
  split; [lia|]. eexists _, _.
  split; [by apply shard_eq|]. split; [by apply shard_eq|]. split.
  - apply list_elem_of_fmap. exists 0. split.
    + cbn. by rewrite Nat.Div0.mod_0_l.
    + apply elem_of_seq. nia.
  - apply list_elem_of_fmap. exists (M / W). split.
    + replace (M mod W + M / W * W) with M by lia. by rewrite Nat.Div0.mod_same.
    + apply elem_of_seq. split; [lia|]. cbn. nia.
Qed.

(** With at least as many entries as ranks, the ranks that hold an entry. *)
Lemma shard_holders M W r i :
  0 < W → W ≤ M → r < W → i < M →
  i ∈ map (λ j, (r + j * W) mod M) (seq 0 (ceil_div M W))
  ↔ r = i mod W ∨ (i < ceil_div M W * W - M ∧ r = (i + M) mod W).
Proof.
  intros HW HWM Hr Hi.
  destruct (ceil_div_spec M W HW) as [Hhi Hlo].
  rewrite list_elem_of_fmap. split.
  - intros (j & Heq & Hj). apply elem_of_seq in Hj.
    pose proof (Nat.div_mod_eq (r + j * W) M) as Hd. rewrite <- Heq in Hd.
    assert (Hp : r + j * W < 2 * M) by nia.
    assert (Hq : (r + j * W) / M = 0 ∨ (r + j * W) / M = 1).
    { destruct ((r + j * W) / M) as [|[|q]]; [by left|by right|nia]. }
    destruct Hq as [Hq|Hq]; rewrite Hq in Hd.
    + left. replace i with (r + j * W) by lia.
      by rewrite Nat.Div0.mod_add, Nat.mod_small.
    + right. split; [nia|].
      replace (i + M) with (r + j * W) by lia.
      by rewrite Nat.Div0.mod_add, Nat.mod_small.
  - intros [->|[Hpad ->]].
    + exists (i / W). pose proof (Nat.div_mod_eq i W) as Hd. split.
      * replace (i mod W + i / W * W) with i by lia. by rewrite Nat.mod_small.
      * apply elem_of_seq. split; [lia|]. cbn.
        apply Nat.Div0.div_lt_upper_bound. lia.
    + exists ((i + M) / W). pose proof (Nat.div_mod_eq (i + M) W) as Hd. split.
      * replace ((i + M) mod W + (i + M) / W * W) with (i + 1 * M) by lia.
        by rewrite Nat.Div0.mod_add, Nat.mod_small.
      * apply elem_of_seq. split; [lia|]. cbn.
        apply Nat.Div0.div_lt_upper_bound. lia.
Qed.

Lemma shard_holders_differ M W i :
  0 < W → i < ceil_div M W * W - M → i mod W ≠ (i + M) mod W.
Proof.
  intros HW Hpad Heq.
  destruct (ceil_div_spec M W HW) as [Hhi Hlo].
  pose proof (Nat.div_mod_eq i W) as Hd1.
  pose proof (Nat.div_mod_eq (i + M) W) as Hd2.
  pose proof (Nat.mod_upper_bound i W ltac:(lia)) as Hm.
  rewrite <- Heq in Hd2.
  set (q1 := i / W) in *. set (q2 := (i + M) / W) in *. set (a := i mod W) in *.
  set (C := ceil_div M W) in *.
  assert (HMq : M = W * (q2 - q1)) by nia.
  assert (Hk : C * W - M = W * (C - (q2 - q1))) by nia.
  destruct (C - (q2 - q1)); nia.
Qed.

(** C1 (counterexample). Three entries on two ranks: the sampler pads the
    manifest to four positions by wrapping, and entry 0 goes to both
    ranks, so the shards are not pairwise disjoint. *)
Lemma shards_overlap_3_on_2 :
  shard 3 2 0 = Ret [0; 2]
  ∧ shard 3 2 1 = Ret [1; 0]
  ∧ ¬ (∀ r1 r2 l1 l2 i,
         shard 3 2 r1 = Ret l1 → shard 3 2 r2 = Ret l2 →
         i ∈ l1 → i ∈ l2 → r1 = r2).
Proof.
  split; [reflexivity|]. split; [reflexivity|].
  intros Hdisj.
  specialize (Hdisj 0 1 [0; 2] [1; 0] 0 eq_refl eq_refl).
  assert (0 = 1) as Heq; [|discriminate Heq].
  apply Hdisj; set_solver.
Qed.

(** C1 (amended). For a manifest of M entries and W >= 1 ranks the shard of
    a rank is a function of (M, W, rank): the entries (rank + j*W) mod M for
    j < ceil(M/W), none of them twice. The union of the shards over ranks
    0..W-1 is exactly the manifest. The index list is padded by
    pad = ceil(M/W)*W - M < W positions, and pad = 0 exactly when W divides
    M. When W divides M the shards are pairwise disjoint, so every entry is
    assigned to exactly one rank. When W does not divide M, entry 0 is
    assigned to rank 0 and to rank M mod W; with W <= M the first pad
    entries are assigned to exactly two ranks and every other entry to
    exactly one. *)
Theorem shards_cover_manifest (M W : nat) :
  1 ≤ W →
  (∀ r, r < W → ∃ l, shard M W r = Ret l ∧ length l = ceil_div M W)
  ∧ (∀ r l l', shard M W r = Ret l → shard M W r = Ret l' → l = l')
  ∧ (∀ i, i < M ↔ ∃ r l, r < W ∧ shard M W r = Ret l ∧ i ∈ l)
  ∧ (M mod W = 0 →
     (∀ r l, r < W → shard M W r = Ret l → NoDup l)
     ∧ (∀ r1 r2 l1 l2 i, r1 < W → r2 < W →
          shard M W r1 = Ret l1 → shard M W r2 = Ret l2 →
          i ∈ l1 → i ∈ l2 → r1 = r2))
  ∧ (∀ r l, r < W → shard M W r = Ret l →
       l = map (λ j, (r + j * W) mod M) (seq 0 (ceil_div M W)) ∧ NoDup l)
  ∧ ceil_div M W * W - M < W
  ∧ (ceil_div M W * W - M = 0 ↔ M mod W = 0)
  ∧ (M mod W ≠ 0 →
     0 < M mod W < W
     ∧ ∃ l1 l2, shard M W 0 = Ret l1 ∧ shard M W (M mod W) = Ret l2
         ∧ 0 ∈ l1 ∧ 0 ∈ l2)
  ∧ (W ≤ M →
     (∀ i, i < ceil_div M W * W - M →
        ∃ r1 r2, r1 < W ∧ r2 < W ∧ r1 ≠ r2
          ∧ ∀ r l, r < W → shard M W r = Ret l → (i ∈ l ↔ r = r1 ∨ r = r2))
     ∧ (∀ i, ceil_div M W * W - M ≤ i → i < M →
        ∃ r1, r1 < W
          ∧ ∀ r l, r < W → shard M W r = Ret l → (i ∈ l ↔ r = r1))).
Proof.
  intros HW.
  destruct (ceil_div_spec M W ltac:(lia)) as [Hhi Hlo].
  split; [|split; [|split; [|split; [|split; [|split; [|split; [|split]]]]]]].
  - intros r Hr. eexists. split; [by apply shard_eq|].
    by rewrite length_map, length_seq.
  - intros r l l' Hl Hl'. congruence.
  - intros i. split.
    + intros Hi. destruct (shard_cover M W i ltac:(lia) Hi) as (l & Hl & Hin).
      exists (i mod W), l. split; [apply Nat.mod_upper_bound; lia|done].
    + intros (r & l & Hr & Hl & Hin). eapply shard_range; eauto.
  - intros Hdiv. split.
    + intros r l Hr Hl. by apply (shard_NoDup M W r).
    + intros r1 r2 l1 l2 i Hr1 Hr2 Hl1 Hl2 Hi1 Hi2.
      rewrite (shard_exact M W r1 l1 Hr1 Hdiv Hl1) in Hi1.
      rewrite (shard_exact M W r2 l2 Hr2 Hdiv Hl2) in Hi2.
      apply list_elem_of_fmap in Hi1 as (j1 & -> & _).
      apply list_elem_of_fmap in Hi2 as (j2 & Heq & _).
      assert (Hm : (r1 + j1 * W) mod W = (r2 + j2 * W) mod W) by (by rewrite Heq).
      rewrite !Nat.Div0.mod_add, !Nat.mod_small in Hm by lia. done.
  - intros r l Hr Hl. split; [|by apply (shard_NoDup M W r)].
    rewrite shard_eq in Hl by done. by injection Hl as <-.
  - lia.
  - split.
    + intros Hpad. assert (Hm : (ceil_div M W * W) mod W = 0)
        by apply Nat.Div0.mod_mul.
      replace (ceil_div M W * W) with M in Hm by lia. exact Hm.
    + intros Hmod. rewrite (ceil_div_exact M W ltac:(lia) Hmod).
      pose proof (Nat.div_mod_eq M W) as Hdm. lia.
  - intros Hmod. apply shard_wraps_to_start; [lia|done].
  - intros HWM. split.
    + intros i Hi. exists (i mod W), ((i + M) mod W).
      split; [apply Nat.mod_upper_bound; lia|].
      split; [apply Nat.mod_upper_bound; lia|].
      split; [apply shard_holders_differ; [lia|done]|].
      intros r l Hr Hl. rewrite shard_eq in Hl by done. injection Hl as <-.
      rewrite shard_holders by lia. tauto.
    + intros i Hlo' Hi. exists (i mod W).
      split; [apply Nat.mod_upper_bound; lia|].
      intros r l Hr Hl. rewrite shard_eq in Hl by done. injection Hl as <-.
      rewrite shard_holders by lia. split; [intros [?|[? _]]; [done|lia]|by left].
Qed.

Lemma shards_cover_manifest_witness :
  1 ≤ 2
  ∧ shard 4 2 0 = Ret [0; 2]
  ∧ shard 4 2 1 = Ret [1; 3]
  ∧ (∀ i, i < 4 ↔ ∃ r l, r < 2 ∧ shard 4 2 r = Ret l ∧ i ∈ l).
Proof.
  split; [lia|]. split; [reflexivity|]. split; [reflexivity|].
  exact (proj1 (proj2 (proj2 (shards_cover_manifest 4 2 ltac:(lia))))).
Defined.

End ShardFacts.

(** *** Slices and alignment *)

Lemma py_take_nonneg {A} (n : Z) (l : list A) :
  0 <= n → py_take n l = take (Z.to_nat (Z.min (Z.of_nat (length l)) n)) l.
Proof.
  intros Hn. unfold py_take.
  destruct (0 <=? n) eqn:Hle; [|apply Z.leb_gt in Hle; lia].
  destruct (Z.min_spec (Z.of_nat (length l)) n) as [[Hlt ->]|[Hge ->]].
  - rewrite Nat2Z.id. rewrite firstn_all. apply take_ge. lia.
  - reflexivity.
Qed.

Lemma py_take_length_nonneg {A} (n : Z) (l : list A) :
  0 <= n → Z.of_nat (length (py_take n l)) = Z.min (Z.of_nat (length l)) n.
Proof.
  intros Hn. rewrite py_take_nonneg by done. rewrite length_take. lia.
Qed.

Lemma duration_bounds (n : Z) : 1 <= n → 1 <= duration n <= n.
Proof.
  intros Hn. unfold duration.
  pose proof (Z.div_mod (n - 1) 8 ltac:(lia)).
  pose proof (Z.mod_pos_bound (n - 1) 8 ltac:(lia)).
  assert (0 <= (n - 1) / 8) by (apply Z.div_pos; lia). lia.
Qed.


(** Cap, then align: what is left is a prefix of the collected frames. *)
Lemma cap_then_align {A} (N : Z) (frames : list A) :
  0 <= N →
  py_take (duration (Z.of_nat (length (py_take N frames)))) (py_take N frames)
  = take (Z.to_nat (duration (Z.min (Z.of_nat (length frames)) N))) frames.
Proof.
  intros HN. rewrite py_take_length_nonneg by done.
  set (m := Z.min (Z.of_nat (length frames)) N).
  assert (Hm : 0 <= m) by lia.
  destruct (decide (m = 0)) as [Hz|Hnz].
  - rewrite Hz. rewrite (py_take_nonneg N) by done. fold m. rewrite Hz.
    reflexivity.
  - pose proof (duration_bounds m ltac:(lia)) as Hd.
    rewrite (py_take_nonneg (duration m)) by lia.
    rewrite py_take_length_nonneg by done. fold m.
    rewrite (py_take_nonneg N) by done. fold m.
    rewrite take_take. f_equal. lia.
Qed.

(** *** Rounding *)

Lemma py_round_lower (x : Q) : (x - (1 # 2) <= inject_Z (py_round x))%Q.
Proof.
  unfold py_round.
  pose proof (Qfloor_le x) as Hf.
  pose proof (Qlt_floor x) as Hc. rewrite inject_Z_plus in Hc.
  change (inject_Z 1) with 1%Q in Hc.
  destruct (Qcompare_spec (x - inject_Z (Qfloor x)) (1 # 2)) as [He|Hl|Hg].
  - destruct (Z.even (Qfloor x));
      [|rewrite inject_Z_plus; change (inject_Z 1) with 1%Q]; lra.
  - lra.
  - rewrite inject_Z_plus. change (inject_Z 1) with 1%Q. lra.
Qed.

Lemma py_round_upper (x : Q) : (inject_Z (py_round x) <= x + (1 # 2))%Q.
Proof.
  unfold py_round.
  pose proof (Qfloor_le x) as Hf.
  pose proof (Qlt_floor x) as Hc. rewrite inject_Z_plus in Hc.
  change (inject_Z 1) with 1%Q in Hc.
  destruct (Qcompare_spec (x - inject_Z (Qfloor x)) (1 # 2)) as [He|Hl|Hg].
  - destruct (Z.even (Qfloor x));
      [|rewrite inject_Z_plus; change (inject_Z 1) with 1%Q]; lra.
  - lra.
  - rewrite inject_Z_plus. change (inject_Z 1) with 1%Q. lra.
Qed.

Lemma py_round_ge (x : Q) (n : Z) : (inject_Z n - (1 # 2) < x)%Q → n <= py_round x.
Proof.
  intros Hx. pose proof (py_round_lower x) as Hl.
  assert (Hlt : (inject_Z n < inject_Z (py_round x + 1))%Q).
  { rewrite inject_Z_plus. change (inject_Z 1) with 1%Q. lra. }
  rewrite <- Zlt_Qlt in Hlt. lia.
Qed.

Lemma py_max_l a b : (a <= py_max a b)%Q.
Proof.
  unfold py_max. destruct (Qle_bool b a) eqn:Hb; [lra|].
  destruct (Qlt_le_dec a b) as [Hlt|Hle]; [lra|].
  apply Qle_bool_iff in Hle. congruence.
Qed.

Lemma py_max_r a b : (b <= py_max a b)%Q.
Proof.
  unfold py_max. destruct (Qle_bool b a) eqn:Hb; [|lra].
  by apply Qle_bool_iff.
Qed.

Lemma faithful_lower u fl x : faithful u fl → (0 <= x)%Q → (x * (1 - u) <= fl x)%Q.
Proof.
  intros [Herr] Hx. specialize (Herr x).
  rewrite (Qabs_pos x Hx) in Herr.
  apply Qabs_Qle_condition in Herr as [Hlo _]. lra.
Qed.

Lemma faithful_roundoff_nonneg u fl : faithful u fl → (0 <= u)%Q.
Proof.
  intros [Herr]. specialize (Herr 1%Q).
  pose proof (Qabs_nonneg (fl 1%Q - 1)) as Hn.
  change (Qabs 1) with 1%Q in Herr. lra.
Qed.

(** Rounding the product back keeps the target covered. *)
Lemma resized_covers u fl (n m : Z) (s : Q) :
  faithful u fl → 1 <= n → 1 <= m → (4 * u * inject_Z m < 1)%Q →
  (fl (inject_Z m / inject_Z n) <= s)%Q →
  m <= py_round (fl (inject_Z n * s)%Q).
Proof.
  intros Hfl Hn Hm Hu Hs.
  pose proof (faithful_roundoff_nonneg u fl Hfl) as Hu0.
  assert (HnQ : (1 <= inject_Z n)%Q) by (rewrite (Zle_Qle 1 n) in Hn; exact Hn).
  assert (HmQ : (1 <= inject_Z m)%Q) by (rewrite (Zle_Qle 1 m) in Hm; exact Hm).
  set (N := inject_Z n) in *. set (Mq := inject_Z m) in *.
  assert (Hu1 : (u < 1 # 4)%Q) by nra.
  assert (Hq : (0 <= Mq / N)%Q).
  { apply Qle_shift_div_l; lra. }
  pose proof (faithful_lower u fl (Mq / N) Hfl Hq) as Ha.
  assert (HNa : (Mq * (1 - u) <= N * s)%Q).
  { assert (Heq : (N * (Mq / N * (1 - u)) == Mq * (1 - u))%Q) by (field; lra).
    rewrite <- Heq. apply Qmult_le_l; lra. }
  assert (Hx0 : (0 <= N * s)%Q) by nra.
  pose proof (faithful_lower u fl (N * s) Hfl Hx0) as Hb.
  apply py_round_ge. fold Mq. nra.
Qed.

(** *** Transforms *)

Lemma py_round_half_bounds (d : Z) :
  0 <= d → 0 <= py_round (inject_Z d / 2) <= d.
Proof.
  intros Hd.
  pose proof (py_round_lower (inject_Z d / 2)) as Hl.
  pose proof (py_round_upper (inject_Z d / 2)) as Hu.
  assert (HdQ : (0 <= inject_Z d)%Q) by (rewrite (Zle_Qle 0 d) in Hd; exact Hd).
  change (inject_Z d / 2)%Q with (inject_Z d * (1 # 2))%Q in *.
  split.
  - assert (Hlt : (inject_Z (-1) < inject_Z (py_round (inject_Z d * (1 # 2))))%Q).
    { change (inject_Z (-1)) with (-1)%Q. lra. }
    rewrite <- Zlt_Qlt in Hlt. lia.
  - destruct (decide (d = 0)) as [->|Hne].
    + assert (Hlt : (inject_Z (py_round (inject_Z 0 * (1 # 2))) < inject_Z 1)%Q).
      { change (inject_Z 1) with 1%Q. change (inject_Z 0) with 0%Q in *. lra. }
      rewrite <- Zlt_Qlt in Hlt. lia.
    + assert (H1 : (1 <= inject_Z d)%Q) by (change (inject_Z 1 <= inject_Z d)%Q; rewrite <- Zle_Qle; lia).
      assert (Hle : (inject_Z (py_round (inject_Z d * (1 # 2))) <= inject_Z d)%Q) by lra.
      rewrite <- Zle_Qle in Hle. exact Hle.
Qed.

Lemma crop_centered_shape ch cw img :
  shape4 (crop_centered ch cw img)
  = ((shape4 img).1.1.1, (shape4 img).1.1.2, Z.to_nat ch, Z.to_nat cw).
Proof.
  unfold crop_centered, crop. destruct (shape4 img) as [[[t c] h] w]. reflexivity.
Qed.

Lemma center_crop_shape ch cw img :
  0 <= ch → 0 <= cw →
  shape4 (center_crop ch cw img)
  = ((shape4 img).1.1.1, (shape4 img).1.1.2, Z.to_nat ch, Z.to_nat cw).
Proof.
  intros Hch Hcw. unfold center_crop.
  destruct (shape4 img) as [[[t c] h] w] eqn:Hs. cbn [fst snd].
  destruct ((Z.of_nat w <? cw) || (Z.of_nat h <? ch)) eqn:Hsmall.
  - unfold pad at 1. rewrite Hs.
    cbn [shape4].
    match goal with |- context [if ?b then _ else _] => destruct b eqn:Heq end.
    + apply andb_true_iff in Heq as [Hw Hh].
      apply Z.eqb_eq in Hw, Hh. unfold pad. rewrite Hs. cbn [shape4].
      f_equal; [f_equal|]; lia.
    + rewrite crop_centered_shape. unfold pad. rewrite Hs. reflexivity.
  - rewrite crop_centered_shape, Hs. reflexivity.
Qed.

Section TransformFacts.
Context `{Backend}.

(** C5. With resize requested, a source of w x h pixels and a target of
    nw x nh pixels, [get_transform] builds a bicubic anti-aliased resize to
    (round(h*s), round(w*s)) with s = max(nw/w, nh/h), then a centre crop to
    (nh, nw), then the normalization. The resized image covers the target
    in both dimensions, the crop is a window inside it (nothing is padded)
    and the cropped frame is exactly nh x nw. The float operations may
    round with any unit roundoff u with 4*u*nw < 1 and 4*u*nh < 1. *)
Theorem resize_covers_then_crops (u : Q) (w h : nat) (nw nh : N) :
  faithful u fl64 →
  (1 <= w)%nat → (1 <= h)%nat → (1 <= nw)%N → (1 <= nh)%N →
  (4 * u * inject_Z (Z.of_N nw) < 1)%Q → (4 * u * inject_Z (Z.of_N nh) < 1)%Q →
  let s := py_max (fl64 (inject_Z (Z.of_N nw) / inject_Z (Z.of_nat w)))
                  (fl64 (inject_Z (Z.of_N nh) / inject_Z (Z.of_nat h))) in
  let rw := py_round (fl64 (inject_Z (Z.of_nat w) * s)) in
  let rh := py_round (fl64 (inject_Z (Z.of_nat h) * s)) in
  get_transform (Z.of_nat w) (Z.of_nat h) (Some nw) (Some nh) true
  = Ret [Resize (rh, rw) BICUBIC true;
         CenterCrop (Z.of_N nh, Z.of_N nw);
         Normalize (1 # 2, 1 # 2, 1 # 2)%Q (1 # 2, 1 # 2, 1 # 2)%Q]
  ∧ Z.of_N nw <= rw ∧ Z.of_N nh <= rh
  ∧ ∀ img t c, shape4 img = (t, c, h, w) →
      ∃ resized cropped top left,
        apply_transform (Resize (rh, rw) BICUBIC true) img = Ret resized
        ∧ shape4 resized = (t, c, Z.to_nat rh, Z.to_nat rw)
        ∧ apply_transform (CenterCrop (Z.of_N nh, Z.of_N nw)) resized = Ret cropped
        ∧ shape4 cropped = (t, c, N.to_nat nh, N.to_nat nw)
        ∧ (top + N.to_nat nh <= Z.to_nat rh)%nat
        ∧ (left + N.to_nat nw <= Z.to_nat rw)%nat
        ∧ ∀ i j y x, at4 cropped i j y x = at4 resized i j (top + y)%nat (left + x)%nat.
Proof.
  intros Hfl Hw Hh Hnw Hnh HuW HuH s rw rh.
  assert (Hrw : Z.of_N nw <= rw).
  { apply (resized_covers u fl64); [done|lia|lia|done|apply py_max_l]. }
  assert (Hrh : Z.of_N nh <= rh).
  { apply (resized_covers u fl64); [done|lia|lia|done|apply py_max_r]. }
  split; [|split; [exact Hrw|split; [exact Hrh|]]].
  - unfold get_transform. cbn [bind].
    destruct (Z.of_nat w =? 0) eqn:Hw0; [apply Z.eqb_eq in Hw0; lia|].
    destruct (Z.of_nat h =? 0) eqn:Hh0; [apply Z.eqb_eq in Hh0; lia|].
    reflexivity.
  - intros img t c Hshape.
    set (resized := Tensor4 (t, c, Z.to_nat rh, Z.to_nat rw)
           (fun i j y x =>
              interpolate BICUBIC true (h, w) (Z.to_nat rh, Z.to_nat rw)
                (fun a b => at4 img i j a b) y x)).
    set (top := py_round (inject_Z (Z.of_nat (Z.to_nat rh) - Z.of_N nh) / 2)).
    set (left := py_round (inject_Z (Z.of_nat (Z.to_nat rw) - Z.of_N nw) / 2)).
    pose proof (py_round_half_bounds (Z.of_nat (Z.to_nat rh) - Z.of_N nh) ltac:(lia)) as Htop.
    pose proof (py_round_half_bounds (Z.of_nat (Z.to_nat rw) - Z.of_N nw) ltac:(lia)) as Hleft.
    fold top in Htop. fold left in Hleft.
    assert (Hcrop : center_crop (Z.of_N nh) (Z.of_N nw) resized
                    = crop (Z.to_nat top) (Z.to_nat left)
                        (Z.to_nat (Z.of_N nh)) (Z.to_nat (Z.of_N nw)) resized).
    { unfold center_crop. cbn [shape4 resized].
      destruct (Z.of_nat (Z.to_nat rw) <? Z.of_N nw) eqn:H1; [apply Z.ltb_lt in H1; lia|].
      destruct (Z.of_nat (Z.to_nat rh) <? Z.of_N nh) eqn:H2; [apply Z.ltb_lt in H2; lia|].
      reflexivity. }
    exists resized, (center_crop (Z.of_N nh) (Z.of_N nw) resized), (Z.to_nat top), (Z.to_nat left).
    split; [|split; [reflexivity|split; [reflexivity|split; [|split; [lia|split; [lia|]]]]]].
    + unfold apply_transform. rewrite Hshape.
      destruct (rh <=? 0) eqn:H1; [apply Z.leb_le in H1; lia|].
      destruct (rw <=? 0) eqn:H2; [apply Z.leb_le in H2; lia|].
      destruct (h =? 0)%nat eqn:H3; [apply Nat.eqb_eq in H3; lia|].
      destruct (w =? 0)%nat eqn:H4; [apply Nat.eqb_eq in H4; lia|].
      reflexivity.
    + rewrite Hcrop. unfold crop. cbn [shape4 resized].
      repeat f_equal; lia.
    + intros i j y x. rewrite Hcrop. reflexivity.
Qed.

End TransformFacts.

(** *** Tensor shapes *)

Lemma torch_stack_inv {A} (d : A) frames t :
  torch_stack d frames = Ret t →
  ∃ f0 rest, frames = f0 :: rest
    ∧ Forall (λ f, shape3 f = shape3 f0) frames
    ∧ shape4 t = (length frames, (shape3 f0).1.1, (shape3 f0).1.2, (shape3 f0).2)
    ∧ ∀ i f, frames !! i = Some f → ∀ c y x, at4 t i c y x = at3 f c y x.
Proof.
  unfold torch_stack. destruct frames as [|f0 rest]; [done|].
  destruct (forallb _ _) eqn:Hall; [|done].
  destruct (shape3 f0) as [[c h] w] eqn:Hs. intros [= <-].
  exists f0, rest. split; [done|]. split; [|split].
  - apply Forall_forall. intros f Hf.
    rewrite forallb_forall in Hall. apply list_elem_of_In in Hf.
    specialize (Hall f Hf). unfold shape3_eqb in Hall.
    apply bool_decide_eq_true in Hall. congruence.
  - rewrite Hs. reflexivity.
  - intros i f Hi cc y x. cbn [at4]. by rewrite Hi.
Qed.

Lemma torch_stack_same_shape {A} (d : A) frames s :
  frames ≠ [] → Forall (λ f, shape3 f = s) frames →
  ∃ t, torch_stack d frames = Ret t.
Proof.
  intros Hne Hall. unfold torch_stack. destruct frames as [|f0 rest]; [done|].
  assert (Hf : forallb (λ f, shape3_eqb (shape3 f) (shape3 f0)) (f0 :: rest) = true).
  { apply forallb_forall. intros f Hf. apply list_elem_of_In in Hf.
    unfold shape3_eqb. apply bool_decide_eq_true.
    rewrite Forall_forall in Hall.
    rewrite (Hall f Hf), (Hall f0 ltac:(left)). done. }
  rewrite Hf. destruct (shape3 f0) as [[c h] w]. eauto.
Qed.

Lemma center_crop_dims ch cw img :
  (shape4 (center_crop ch cw img)).1.1 = (shape4 img).1.1.
Proof.
  unfold center_crop, crop_centered, crop, pad.
  destruct (shape4 img) as [[[t c] h] w] eqn:Hs.
  repeat (match goal with |- context [if ?b then _ else _] => destruct b end;
          cbn [shape4 fst snd]); try rewrite Hs; reflexivity.
Qed.

Section Shapes.
Context `{Backend}.

Lemma apply_transform_dims tr img out :
  apply_transform tr img = Ret out → (shape4 out).1.1 = (shape4 img).1.1.
Proof.
  unfold apply_transform. destruct (shape4 img) as [[[t c] h] w] eqn:Hs.
  destruct tr as [[rh rw] mode aa|[ch cw]|mean std].
  - destruct (_ || _); [done|]. by intros [= <-].
  - intros [= <-]. by rewrite center_crop_dims, Hs.
  - destruct (c =? 3)%nat; [|done]. by intros [= <-].
Qed.



Lemma compose_app l1 l2 img :
  compose (l1 ++ l2) img = (let! mid := compose l1 img in compose l2 mid).
Proof.
  revert img. induction l1 as [|tr l1 IH]; intros img; [done|].
  cbn [app compose]. destruct (apply_transform tr img); cbn [bind]; [apply IH|done].
Qed.

Lemma normalize_inv mean std img out :
  apply_transform (Normalize mean std) img = Ret out →
  (shape4 img).1.1.2 = 3%nat ∧ shape4 out = shape4 img.
Proof.
  unfold apply_transform. destruct (shape4 img) as [[[t c] h] w] eqn:Hs.
  destruct (c =? 3)%nat eqn:Hc; [|done].
  apply Nat.eqb_eq in Hc. intros [= <-]. cbn [shape4 fst snd]. done.
Qed.

Lemma center_crop_apply ch cw img :
  apply_transform (CenterCrop (ch, cw)) img = Ret (center_crop ch cw img).
Proof. unfold apply_transform. by destruct (shape4 img) as [[[t c] h] w]. Qed.

(** The layout of the result: three channels, one time step per stacked
    frame, and with resize the target height and width. *)
Lemma stack_and_transform_layout frames nw nh rs t :
  stack_and_transform frames nw nh rs = Ret t →
  (shape4 t).1.1.1 = 3%nat
  ∧ (shape4 t).1.1.2 = length frames
  ∧ (rs = true → ∀ a b, nw = Some a → nh = Some b →
     shape4 t = (3%nat, length frames, N.to_nat b, N.to_nat a)).
Proof.
  unfold stack_and_transform.
  destruct (torch_stack Byte.x00 frames) as [stacked|e] eqn:Hst; cbn [bind]; [|done].
  apply torch_stack_inv in Hst as (f0 & rest & -> & _ & Hshape & _).
  unfold map4 at 1. cbn [shape4]. rewrite Hshape.
  set (x := map4 to_unit stacked).
  assert (Hx : (shape4 x).1.1 = (length (f0 :: rest), (shape3 f0).1.1)).
  { subst x. unfold map4. cbn [shape4]. by rewrite Hshape. }
  unfold get_transform.
  destruct rs.
  - destruct nw as [a|]; cbn [bind]; [|done].
    destruct (Z.of_nat (shape3 f0).2 =? 0); [done|].
    destruct nh as [b|]; cbn [bind]; [|done].
    destruct (Z.of_nat (shape3 f0).1.2 =? 0); [done|].
    cbn [bind app compose].
    destruct (apply_transform (Resize _ _ _) x) as [r|e] eqn:Hr; cbn [bind]; [|done].
    rewrite center_crop_apply. cbn [bind].
    destruct (apply_transform (Normalize _ _) _) as [out|e] eqn:Hn; cbn [bind]; [|done].
    intros [= <-].
    apply normalize_inv in Hn as [Hc Hout].
    apply apply_transform_dims in Hr. rewrite Hx in Hr.
    rewrite center_crop_shape in Hc, Hout by lia. cbn [fst snd] in Hc, Hout.
    unfold permute_1023. rewrite Hout. cbn [shape4 fst snd].
    destruct (shape4 r) as [[[tr cr] hr] wr]. cbn [fst snd] in *.
    injection Hr as -> ->.
    split; [done|]. split; [done|].
    intros _ a' b' [= <-] [= <-]. rewrite Hc. repeat f_equal; lia.
  - cbn [bind app compose].
    destruct (apply_transform (Normalize _ _) x) as [out|e] eqn:Hn; cbn [bind]; [|done].
    intros [= <-].
    apply normalize_inv in Hn as [Hc Hout].
    unfold permute_1023. rewrite Hout.
    destruct (shape4 x) as [[[tx cx] hx] wx]. cbn [shape4 fst snd] in *.
    injection Hx as -> ->. split; [done|]. split; [done|]. done.
Qed.

End Shapes.

(** *** The frame sampler *)

Lemma to_chw_decodable f :
  decodable f = true → to_chw f = Ret (permute_201 (swap_red_blue f)).
Proof. intros Hd. unfold to_chw, cvtColor_BGR2RGB. rewrite Hd. reflexivity. Qed.

Lemma keep_none_beyond idx (m : Z) (k : nat) (fs : list (tensor3 Byte.byte)) :
  (∀ i, i ∈ idx → i <= m) → m < Z.of_nat k →
  omap (keep_requested idx) (imap (λ i f, ((k + i)%nat, f)) fs) = [].
Proof.
  intros Hmax Hk. revert k Hk.
  induction fs as [|f fs IH]; intros k Hk; [done|].
  rewrite imap_cons. cbn [omap list_omap keep_requested].
  rewrite bool_decide_eq_false_2.
  2:{ intros Hin. apply Hmax in Hin. lia. }
  erewrite imap_ext; [apply (IH (S k)); lia|].
  intros i x _. simpl. f_equal. lia.
Qed.

Lemma read_loop_decodable idx (m : Z) fs (k : nat) acc :
  py_last idx = Ret m →
  (∀ i, i ∈ idx → i <= m) →
  Forall (λ f, decodable f = true) fs →
  ∃ rest,
    read_loop idx (list_to_set idx) (map ReadFrame fs) (Z.of_nat k) acc
    = (Ret (acc ++ omap (keep_requested idx) (imap (λ i f, ((k + i)%nat, f)) fs)),
       rest,
       S (Nat.min (length fs) (Z.to_nat (m + 1 - Z.of_nat k)))).
Proof.
  intros Hlast Hmax Hdec. revert k acc.
  induction Hdec as [|f fs Hf Hfs IH]; intros k acc.
  - exists []. cbn. by rewrite app_nil_r.
  - cbn [map read_loop]. rewrite Hlast.
    destruct (m <? Z.of_nat k) eqn:Hbreak.
    + apply Z.ltb_lt in Hbreak. exists (map ReadFrame fs).
      rewrite (keep_none_beyond idx m k (f :: fs) Hmax Hbreak), app_nil_r.
      repeat f_equal. lia.
    + apply Z.ltb_ge in Hbreak.
      destruct (IH (S k) (acc ++ [permute_201 (swap_red_blue f)])) as [rest1 IH1].
      destruct (IH (S k) acc) as [rest2 IH2].
      replace (Z.of_nat k + 1) with (Z.of_nat (S k)) by lia.
      rewrite imap_cons. cbn [omap list_omap keep_requested].
      rewrite Nat.add_0_r.
      assert (Hext : imap ((λ i f0, ((k + i)%nat, f0)) ∘ S) fs
                     = imap (λ i f0, ((S k + i)%nat, f0)) fs).
      { apply imap_ext. intros i x _. simpl. f_equal. lia. }
      rewrite Hext.
      assert (Hn : S (S (Nat.min (length fs) (Z.to_nat (m + 1 - Z.of_nat (S k)))))
                   = S (Nat.min (length (f :: fs)) (Z.to_nat (m + 1 - Z.of_nat k)))).
      { cbn [length]. lia. }
      destruct (decide (Z.of_nat k ∈ idx)) as [Hin|Hnin].
      * rewrite (bool_decide_eq_true_2 (Z.of_nat k ∈ (list_to_set idx : gset Z)))
          by (by apply elem_of_list_to_set).
        rewrite (bool_decide_eq_true_2 _ Hin).
        rewrite to_chw_decodable by done. cbn [bind].
        rewrite IH1. exists rest1. rewrite <- Hn.
        by rewrite <- app_assoc.
      * rewrite (bool_decide_eq_false_2 (Z.of_nat k ∈ (list_to_set idx : gset Z)))
          by (by rewrite elem_of_list_to_set).
        rewrite (bool_decide_eq_false_2 _ Hnin).
        rewrite IH2. exists rest2. by rewrite <- Hn.
Qed.

Lemma sorted_last_is_max (idx : list Z) (m : Z) :
  StronglySorted Z.lt idx → py_last idx = Ret m → ∀ i, i ∈ idx → i <= m.
Proof.
  unfold py_last. destruct (last idx) as [x|] eqn:Hlast; [|done].
  intros Hsorted [= <-] i Hi.
  apply last_Some in Hlast as [l' ->].
  apply elem_of_app in Hi as [Hi|Hi].
  - apply StronglySorted_app in Hsorted as (Hlt & _ & _).
    specialize (Hlt i x Hi ltac:(left)). lia.
  - apply list_elem_of_singleton in Hi. lia.
Qed.

Lemma py_last_nonempty {A} (l : list A) : l ≠ [] → ∃ m, py_last l = Ret m.
Proof.
  intros Hne. unfold py_last. destruct (last l) eqn:Hl; [eauto|].
  apply last_None in Hl. done.
Qed.

Lemma filter_seq_sorted (P : nat → Prop) `{∀ i, Decision (P i)} k n :
  StronglySorted lt (filter P (seq k n)).
Proof.
  revert k. induction n as [|n IH]; intros k; [constructor|].
  cbn [seq]. rewrite filter_cons. destruct (decide (P k)); [|apply IH].
  constructor; [apply IH|].
  apply Forall_forall. intros i Hi.
  apply list_elem_of_filter in Hi as [_ Hi]. apply elem_of_seq in Hi. lia.
Qed.

(** The frames kept are those at the requested positions of the video, one
    per position, by increasing position. *)
Lemma keep_requested_positions idx (fs : list (tensor3 Byte.byte)) (k : nat) :
  omap (keep_requested idx) (imap (λ i f, ((k + i)%nat, f)) fs)
  = omap (λ i, (λ f, permute_201 (swap_red_blue f)) <$> fs !! (i - k)%nat)
      (filter (λ i, Z.of_nat i ∈ idx) (seq k (length fs))).
Proof.
  revert k. induction fs as [|f fs IH]; intros k; [done|].
  rewrite imap_cons. cbn [length seq omap list_omap keep_requested].
  rewrite Nat.add_0_r, filter_cons.
  assert (Htail : omap (keep_requested idx) (imap ((λ i f0, ((k + i)%nat, f0)) ∘ S) fs)
    = omap (λ i, (λ f0, permute_201 (swap_red_blue f0)) <$> (f :: fs) !! (i - k)%nat)
        (filter (λ i, Z.of_nat i ∈ idx) (seq (S k) (length fs)))).
  { erewrite imap_ext; [rewrite (IH (S k))|].
    - apply list_omap_ext. apply Forall2_same_length_lookup_2; [done|].
      intros j x y Hx Hy. assert (x = y) as <- by congruence.
      apply list_elem_of_lookup_2, list_elem_of_filter in Hx as [_ Hx].
      apply elem_of_seq in Hx.
      replace (x - k)%nat with (S (x - S k)) by lia. reflexivity.
    - intros i x _. simpl. f_equal. lia. }
  destruct (decide (Z.of_nat k ∈ idx)) as [Hin|Hnin].
  - rewrite (bool_decide_eq_true_2 _ Hin).
    cbn [omap list_omap]. rewrite Nat.sub_diag. cbn. f_equal. exact Htail.
  - rewrite (bool_decide_eq_false_2 _ Hnin). exact Htail.
Qed.

Lemma frames_at_requested_prefix idx (m : Z) fs :
  (∀ i, i ∈ idx → i <= m) →
  frames_at_requested idx fs = frames_at_requested idx (take (Z.to_nat (m + 1)) fs).
Proof.
  intros Hmax. unfold frames_at_requested.
  rewrite <- (take_drop (Z.to_nat (m + 1)) fs) at 1.
  rewrite imap_app, omap_app.
  destruct (decide (Z.to_nat (m + 1) <= length fs)%nat) as [Hle|Hgt].
  - rewrite length_take, Nat.min_l by lia.
    rewrite (keep_none_beyond idx m (Z.to_nat (m + 1))); [by rewrite app_nil_r|done|lia].
  - rewrite drop_ge by lia. by rewrite app_nil_r.
Qed.

Section SamplerFacts.
Context `{Backend}.

Lemma load_unfold disk path idx N nw nh rs s :
  load_video_and_transform disk path idx N nw nh rs s =
  let file := default missing_file (disk !! path) in
  match open_raises file with
  | Some e =>
      (Ret None,
       {| video_capture := None;
          events := events s ++ [EvPrint (LoadingVideoException path e)] |})
  | None =>
      let '(r, rest, n) := read_loop idx (list_to_set idx) (stream file) 0 [] in
      let seen := events s ++ EvOpen path :: replicate n EvRead in
      match r with
      | Raise e =>
          (Ret None,
           {| video_capture := Some rest;
              events := seen ++ [EvPrint (LoadingVideoException path e); EvRelease] |})
      | Ret frames =>
          if (length frames =? 0)%nat then
            (Ret None,
             {| video_capture := Some rest;
                events := seen ++ [EvRelease; EvPrint (EmptyVideo path)] |})
          else
            match truncate_and_transform frames N nw nh rs with
            | Ret t =>
                (Ret (Some t),
                 {| video_capture := Some rest; events := seen ++ [EvRelease] |})
            | Raise e =>
                (Ret None,
                 {| video_capture := Some rest;
                    events := seen ++ [EvRelease;
                                       EvPrint (LoadingVideoException path e);
                                       EvRelease] |})
            end
      end
  end.
Proof.
  unfold load_video_and_transform, cv2_VideoCapture, read_frames, release, print,
    emit, set_video_capture, get_video_capture, mtry, mbind, mret, mraise, lift.
  cbn [video_capture events].
  destruct (open_raises (default missing_file (disk !! path))) as [e|]; cbn.
  - reflexivity.
  - destruct (read_loop idx (list_to_set idx)
                (stream (default missing_file (disk !! path))) 0 []) as [[r rest] n].
    destruct r as [frames|e]; cbn.
    + destruct (length frames =? 0)%nat; cbn.
      * by rewrite <- !app_assoc.
      * destruct (truncate_and_transform frames N nw nh rs); cbn;
          by rewrite <- !app_assoc.
    + by rewrite <- !app_assoc.
Qed.

End SamplerFacts.

(** *** The driver *)

Section DriverFacts.
Context `{Runtime}.
Local Open Scope nat_scope.

(** One item: the encode call, then the one submission of its latent. *)
Lemma encode_items_cons video_input output_path rest s :
  encode_items ((video_input, output_path) :: rest) s =
  match encode_latent (encode_calls s) video_input with
  | Raise e =>
      (Raise e,
       {| task_queue := task_queue s; files := files s;
          encode_calls := S (encode_calls s); log := log s |})
  | Ret x =>
      let f := {| fut_id := length (task_queue s);
                  fut_tensor := to_storage x;
                  fut_path := output_path |} in
      encode_items rest
        {| task_queue := task_queue s ++ [f]; files := files s;
           encode_calls := S (encode_calls s);
           log := (log s ++ [EvEncoded (to_storage x) output_path]) ++ [EvSubmitted f] |}
  end.
Proof.
  cbn [encode_items]. unfold mbind, encode, submit, record, mret.
  destruct (encode_latent (encode_calls s) video_input); reflexivity.
Qed.

Lemma encode_items_invariant items s :
  encoding_invariant s → encoding_invariant (encode_items items s).2.
Proof.
  revert s. induction items as [|[video_input output_path] rest IH]; intros s Hs; [done|].
  rewrite encode_items_cons.
  destruct Hs as [[work [Hlog Hwork]] Hsub Henc Hids].
  destruct (encode_latent (encode_calls s) video_input) as [x|e].
  - apply IH. split; cbn [log task_queue].
    + eexists. split; [rewrite Hlog; by rewrite <- !app_assoc, <- app_comm_cons|].
      apply Forall_app; split; [done|by repeat constructor].
    + unfold submitted_of in *. rewrite !omap_app, Hsub. cbn. by rewrite app_nil_r.
    + unfold encoded_of in *. rewrite !omap_app, Henc. cbn.
      by rewrite map_app, app_nil_r.
    + rewrite map_app, length_app, Hids. cbn. by rewrite Nat.add_1_r, seq_S.
  - split; cbn [log task_queue]; eauto.
Qed.

Lemma encode_loop_invariant data_loader s :
  encoding_invariant s → encoding_invariant (encode_loop data_loader s).2.
Proof.
  revert s. induction data_loader as [|sample rest IH]; intros s Hs; [done|].
  cbn [encode_loop]. unfold mbind.
  pose proof (encode_items_invariant (zip (sample_input sample) (sample_output sample)) s Hs) as Hi.
  destruct (encode_items _ s) as [[[]|e] s1]; cbn [snd] in *; [by apply IH|done].
Qed.

(** The encode loop does not touch the output files. *)
Lemma encode_items_files items s : files (encode_items items s).2 = files s.
Proof.
  revert s. induction items as [|[video_input output_path] rest IH]; intros s; [done|].
  rewrite encode_items_cons.
  destruct (encode_latent (encode_calls s) video_input); [|done].
  by rewrite IH.
Qed.

Lemma encode_loop_files data_loader s : files (encode_loop data_loader s).2 = files s.
Proof.
  revert s. induction data_loader as [|sample rest IH]; intros s; [done|].
  cbn [encode_loop]. unfold mbind.
  pose proof (encode_items_files (zip (sample_input sample) (sample_output sample)) s) as Hi.
  destruct (encode_items _ s) as [[[]|e] s1]; cbn [snd] in *; [|done].
  by rewrite IH.
Qed.

(** A total encoder never aborts the loop. *)
Lemma encode_items_total items s :
  (∀ k x, ∃ l, encode_latent k x = Ret l) →
  (encode_items items s).1 = Ret tt.
Proof.
  intros Htotal. revert s.
  induction items as [|[video_input output_path] rest IH]; intros s; [done|].
  rewrite encode_items_cons.
  destruct (Htotal (encode_calls s) video_input) as [l ->]. apply IH.
Qed.

Lemma encode_loop_total data_loader s :
  (∀ k x, ∃ l, encode_latent k x = Ret l) →
  (encode_loop data_loader s).1 = Ret tt.
Proof.
  intros Htotal. revert s.
  induction data_loader as [|sample rest IH]; intros s; [done|].
  cbn [encode_loop]. unfold mbind.
  pose proof (encode_items_total (zip (sample_input sample) (sample_output sample)) s Htotal) as Hi.
  destruct (encode_items _ s) as [[[]|e] s1]; cbn [fst] in *; [apply IH|done].
Qed.

(** save_tensor *)
Lemma save_tensor_returns fault tensor path fs :
  ∃ fs', save_tensor fault tensor path fs = (Ret tt, fs')
    ∧ (∀ p, p ≠ path → fs' !! p = fs !! p)
    ∧ (fault = None → fs' !! path = Some tensor).
Proof.
  unfold save_tensor, mtry, torch_save_clone, mret.
  destruct fault as [[e|e [junk|]]|]; eexists; (split; [reflexivity|]); split.
  all: try (intros p Hp; try done; by rewrite ?lookup_insert_ne, ?lookup_delete_ne by done).
  all: try done.
  intros _. by rewrite lookup_insert_eq.
Qed.

Lemma run_tasks_outcomes tasks fs :
  (run_tasks tasks fs).1 = map (λ f, (f, Ret tt)) tasks.
Proof.
  revert fs. induction tasks as [|f rest IH]; intros fs; [done|].
  cbn [run_tasks].
  destruct (save_tensor_returns (save_fault_of (fut_id f)) (fut_tensor f) (fut_path f) fs)
    as (fs' & -> & _).
  specialize (IH fs'). destruct (run_tasks rest fs') as [done' fs'']. cbn in *.
  by rewrite IH.
Qed.

Lemma run_tasks_other_files tasks fs p :
  (∀ f, f ∈ tasks → fut_path f ≠ p) → (run_tasks tasks fs).2 !! p = fs !! p.
Proof.
  revert fs. induction tasks as [|f rest IH]; intros fs Hp; [done|].
  cbn [run_tasks].
  destruct (save_tensor_returns (save_fault_of (fut_id f)) (fut_tensor f) (fut_path f) fs)
    as (fs' & -> & Hother & _).
  specialize (IH fs' ltac:(intros g Hg; apply Hp; by right)).
  destruct (run_tasks rest fs') as [done' fs'']. cbn in *.
  rewrite IH. apply Hother. intros ->. by apply (Hp f ltac:(left)).
Qed.

Lemma collect_all_returned tasks s :
  collect (map (λ f, (f, Ret tt)) tasks) s
  = (Ret tt, {| task_queue := task_queue s; files := files s;
                encode_calls := encode_calls s;
                log := log s ++ map EvCollected tasks |}).
Proof.
  revert s. induction tasks as [|f rest IH]; intros s.
  - cbn. rewrite app_nil_r. by destruct s.
  - cbn [map collect]. unfold mbind, lift, record. rewrite IH. cbn.
    by rewrite <- app_assoc.
Qed.

Lemma work_only work :
  Forall is_work work → collected_of work = [].
Proof.
  induction 1 as [|ev work Hev _ IH]; [done|].
  unfold collected_of in *. destruct ev; cbn in *; done.
Qed.

Lemma submitted_of_collected (q : list future) : submitted_of (map EvCollected q) = [].
Proof. induction q; [done|]. done. Qed.

Lemma encoded_of_collected (q : list future) : encoded_of (map EvCollected q) = [].
Proof. induction q; [done|]. done. Qed.

Lemma collected_of_collected (q : list future) : collected_of (map EvCollected q) = q.
Proof. induction q as [|f q IH]; [done|]. unfold collected_of in *. cbn. by rewrite IH. Qed.

(** The whole run, from the state the encode loop leaves. *)
Lemma main_unfold data_loader fs :
  main data_loader (start fs) =
  let s0 := {| task_queue := []; files := fs; encode_calls := 0; log := [EvBarrier] |} in
  let '(r, s1) := encode_loop data_loader s0 in
  let order := as_completed future (task_queue s1) in
  let files' := (run_tasks order (files s1)).2 in
  match r with
  | Raise e =>
      (Raise e,
       {| task_queue := task_queue s1; files := files';
          encode_calls := encode_calls s1; log := log s1 |})
  | Ret _ =>
      (Ret tt,
       {| task_queue := task_queue s1; files := files';
          encode_calls := encode_calls s1;
          log := log s1 ++ map EvCollected order ++ [EvBarrier] |})
  end.
Proof.
  unfold main, barrier, with_executor, join_pool, mbind, mraise, record, start.
  cbn [log task_queue files encode_calls app].
  destruct (encode_loop data_loader _) as [[[]|e] s1].
  - pose proof (run_tasks_outcomes (as_completed future (task_queue s1)) (files s1)) as Hout.
    destruct (run_tasks _ (files s1)) as [done' fs']. cbn [fst snd] in *. subst done'.
    rewrite collect_all_returned. cbn. by rewrite <- app_assoc.
  - destruct (run_tasks _ (files s1)) as [done' fs']. reflexivity.
Qed.

(** C6. In every run of the driver the futures in the task queue are the
    submissions, one per encoded latent and in the same order, each a
    distinct future. When the input is exhausted the driver collects the
    result of every submitted future, in the order the pool finishes them,
    before the final barrier; a run aborted by the encoder collects
    nothing and does not reach it. With an encoder that always returns the
    run completes. In either case the pool has run the write of every
    submitted future when the driver returns. *)
Theorem driver_submits_once_and_drains data_loader fs :
  (∀ (A : Type) (l : list A), as_completed A l ≡ₚ l) →
  let out := main data_loader (start fs) in
  let s := out.2 in
  submitted_of (log s) = task_queue s
  ∧ encoded_of (log s) = map (λ f, (fut_tensor f, fut_path f)) (task_queue s)
  ∧ NoDup (map fut_id (task_queue s))
  ∧ (out.1 = Ret tt →
     ∃ work,
       log s = EvBarrier :: work
                 ++ map EvCollected (as_completed future (task_queue s)) ++ [EvBarrier]
       ∧ Forall is_work work
       ∧ collected_of (log s) ≡ₚ task_queue s)
  ∧ (∀ e, out.1 = Raise e →
     collected_of (log s) = []
     ∧ ∃ work, log s = EvBarrier :: work ∧ Forall is_work work)
  ∧ ((∀ k x, ∃ l, encode_latent k x = Ret l) → out.1 = Ret tt)
  ∧ files s = (run_tasks (as_completed future (task_queue s)) fs).2.
Proof.
  intros Hperm out s. subst s out. rewrite main_unfold. cbn zeta.
  set (s0 := {| task_queue := []; files := fs; encode_calls := 0; log := [EvBarrier] |}).
  assert (Hs0 : encoding_invariant s0).
  { split; cbn; [exists []; by split|done..]. }
  pose proof (encode_loop_invariant data_loader s0 Hs0) as Hinv.
  pose proof (encode_loop_total data_loader s0) as Htot.
  pose proof (encode_loop_files data_loader s0) as Hfiles.
  destruct (encode_loop data_loader s0) as [r s1]. cbn [fst snd] in *.
  change (files s0) with fs in Hfiles.
  destruct Hinv as [[work [Hlog Hwork]] Hsub Henc Hids].
  assert (Hnd : NoDup (map fut_id (task_queue s1))) by (rewrite Hids; apply NoDup_seq).
  destruct r as [[]|e]; cbn [fst snd log task_queue files].
  - split; [|split; [|split; [done|split; [|split; [done|split; [done|by rewrite Hfiles]]]]]].
    + unfold submitted_of in *. rewrite !omap_app, Hsub.
      fold (submitted_of (map EvCollected (as_completed future (task_queue s1)))).
      rewrite submitted_of_collected. cbn. by rewrite app_nil_r.
    + unfold encoded_of in *. rewrite !omap_app, Henc.
      fold (encoded_of (map EvCollected (as_completed future (task_queue s1)))).
      rewrite encoded_of_collected. cbn. by rewrite app_nil_r.
    + intros _. exists work. split; [by rewrite Hlog|]. split; [done|].
      rewrite Hlog. unfold collected_of. rewrite !omap_app.
      cbn [omap list_omap].
      fold (collected_of work). rewrite (work_only work Hwork).
      fold (collected_of (map EvCollected (as_completed future (task_queue s1)))).
      rewrite collected_of_collected. cbn. rewrite app_nil_r. apply Hperm.
  - split; [done|]. split; [done|]. split; [done|]. split; [done|].
    split; [|split; [|by rewrite Hfiles]].
    + intros e' _. split; [|by exists work].
      rewrite Hlog. unfold collected_of. cbn. fold (collected_of work).
      by apply work_only.
    + intros Hall. by specialize (Htot Hall).
Qed.

End DriverFacts.

(** *** Claims about the frame sampler *)

Section SamplerClaims.
Context `{Backend}.

(** C7. On a video whose frames all decode and for a non-empty, strictly
    increasing list of requested indices, the read loop of
    [load_video_and_transform] collects exactly the frames whose index is
    requested: one frame per requested position of the video, by
    increasing position. It makes min(len, max+1) + 1 calls of [read], where
    max is the last (largest) requested index, so it stops at the first
    frame past max, and what it collects depends only on the frames up to
    index max. The function's result is built from those frames alone. *)
Theorem load_collects_requested_frames disk path idx fs N nw nh rs s :
  idx ≠ [] → StronglySorted Z.lt idx →
  Forall (λ f, decodable f = true) fs →
  disk !! path = Some {| open_raises := None; stream := map ReadFrame fs |} →
  ∃ m rest positions,
    py_last idx = Ret m
    ∧ (∀ i, i ∈ idx → i <= m)
    ∧ read_loop idx (list_to_set idx) (map ReadFrame fs) 0 []
      = (Ret (frames_at_requested idx fs), rest,
         S (Nat.min (length fs) (Z.to_nat (m + 1))))
    ∧ StronglySorted lt positions
    ∧ (∀ i, i ∈ positions ↔ (i < length fs)%nat ∧ Z.of_nat i ∈ idx)
    ∧ frames_at_requested idx fs
      = omap (λ i, (λ f, permute_201 (swap_red_blue f)) <$> fs !! i) positions
    ∧ frames_at_requested idx fs
      = frames_at_requested idx (take (Z.to_nat (m + 1)) fs)
    ∧ (load_video_and_transform disk path idx N nw nh rs s).1
      = Ret match frames_at_requested idx fs with
            | [] => None
            | _ :: _ =>
                match truncate_and_transform (frames_at_requested idx fs) N nw nh rs with
                | Ret t => Some t
                | Raise _ => None
                end
            end
    ∧ ∃ tail,
        events (load_video_and_transform disk path idx N nw nh rs s).2
        = events s ++ EvOpen path
            :: replicate (S (Nat.min (length fs) (Z.to_nat (m + 1)))) EvRead ++ tail
        ∧ EvRead ∉ tail.
Proof.
  intros Hne Hsorted Hdec Hdisk.
  destruct (py_last_nonempty idx Hne) as [m Hm].
  pose proof (sorted_last_is_max idx m Hsorted Hm) as Hmax.
  destruct (read_loop_decodable idx m fs 0 [] Hm Hmax Hdec) as [rest Hloop].
  assert (Himap : imap (λ i f, ((0 + i)%nat, f)) fs = imap pair fs).
  { apply imap_ext. intros i x _. reflexivity. }
  change (Z.of_nat 0) with 0 in Hloop.
  rewrite Himap, Z.sub_0_r in Hloop. cbn [app] in Hloop.
  fold (frames_at_requested idx fs) in Hloop.
  assert (Hnot : ∀ l, Forall (λ ev, ev ≠ EvRead) l → EvRead ∉ l).
  { intros l Hl Hin. rewrite Forall_forall in Hl. by apply (Hl _ Hin). }
  exists m, rest, (filter (λ i, Z.of_nat i ∈ idx) (seq 0 (length fs))).
  split; [done|]. split; [done|]. split; [done|].
  split; [apply filter_seq_sorted|]. split; [|split; [|split; [|split]]].
  - intros i. rewrite list_elem_of_filter, elem_of_seq. intuition lia.
  - unfold frames_at_requested. rewrite <- Himap, keep_requested_positions.
    apply list_omap_ext. apply Forall2_same_length_lookup_2; [done|].
    intros j x y Hx Hy. assert (x = y) as <- by congruence.
    by rewrite Nat.sub_0_r.
  - by apply frames_at_requested_prefix.
  - rewrite load_unfold. cbn zeta. rewrite Hdisk.
    cbn [default from_option id open_raises stream]. rewrite Hloop.
    destruct (frames_at_requested idx fs) as [|g gs]; [reflexivity|].
    cbn [length Nat.eqb].
    destruct (truncate_and_transform (g :: gs) N nw nh rs); reflexivity.
  - rewrite load_unfold. cbn zeta. rewrite Hdisk.
    cbn [default from_option id open_raises stream]. rewrite Hloop.
    destruct (frames_at_requested idx fs) as [|g gs].
    + eexists. split; [cbn; by rewrite <- app_assoc|].
      apply Hnot. by repeat constructor.
    + cbn [length Nat.eqb].
      destruct (truncate_and_transform (g :: gs) N nw nh rs);
        (eexists; split; [cbn; by rewrite <- app_assoc|];
         apply Hnot; by repeat constructor).
Qed.

Lemma load_returns disk path idx N nw nh rs s :
  ∃ r, (load_video_and_transform disk path idx N nw nh rs s).1 = Ret r.
Proof.
  rewrite load_unfold. cbn zeta.
  destruct (open_raises _); [eexists; reflexivity|].
  destruct (read_loop _ _ _ _ _) as [[[frames|e] rest] n]; [|eexists; reflexivity].
  destruct (length frames =? 0)%nat; [eexists; reflexivity|].
  destruct (truncate_and_transform _ _ _ _ _); eexists; reflexivity.
Qed.

(** On a line whose frames are a list of ints [process_one_video] wraps
    what the sampler returns. *)
Lemma process_one_video_unfold disk self item s :
  let loaded :=
    load_video_and_transform disk (item_video item)
      (match item_frames item with
       | Some l => l
       | None => seqZ 0 (num_frames self)
       end)
      (num_frames self) (Some (width self)) (Some (height self)) true s in
  process_one_video disk self item s
  = (Ret match loaded.1 with
         | Ret (Some t) =>
             [{| wi_video := item_video item;
                 wi_input := Unsqueeze0 t;
                 wi_output := item_latent item |}]
         | _ => []
         end,
     loaded.2).
Proof.
  intros loaded. subst loaded.
  unfold process_one_video, mtry, mbind, mret.
  match goal with |- context [load_video_and_transform ?d ?p ?i ?n ?a ?b ?c ?st] =>
    destruct (load_returns d p i n a b c st) as [r Hr];
    destruct (load_video_and_transform d p i n a b c st) as [r' s'] end.
  cbn [fst snd] in *. subst r'. destruct r as [t|]; reflexivity.
Qed.

(** On a list of ints [load_video_and_transform] returns. If opening
    raises, the capture was never assigned and None is returned; if a read,
    the colour conversion or the last-index lookup raises, if no frame was
    collected, or if stacking or transforming raises, None is returned; once
    the capture is open a release follows the reads. On such lines
    [process_one_video] returns at most one work item, none when the
    sampler returned None, and [__getitem__] returns as well. *)
Theorem load_never_raises disk path idx N nw nh rs s :
  let file := default missing_file (disk !! path) in
  let loop := read_loop idx (list_to_set idx) (stream file) 0 [] in
  let out := load_video_and_transform disk path idx N nw nh rs s in
  (∃ r, out.1 = Ret r)
  ∧ (∀ e, open_raises file = Some e →
       out.1 = Ret None
       ∧ events out.2 = events s ++ [EvPrint (LoadingVideoException path e)])
  ∧ (open_raises file = None →
       (∀ e, loop.1.1 = Raise e → out.1 = Ret None)
       ∧ (∀ frames, loop.1.1 = Ret frames → frames = [] → out.1 = Ret None)
       ∧ (∀ frames e, loop.1.1 = Ret frames →
            truncate_and_transform frames N nw nh rs = Raise e → out.1 = Ret None)
       ∧ ∃ tail,
           events out.2 = events s ++ EvOpen path :: replicate loop.2 EvRead ++ tail
           ∧ EvRelease ∈ tail)
  ∧ (∀ self item s0,
       ∃ items s1,
         process_one_video disk self item s0 = (Ret items, s1)
         ∧ (length items <= 1)%nat
         ∧ ((load_video_and_transform disk (item_video item)
               (match item_frames item with
                | Some l => l
                | None => seqZ 0 (num_frames self)
                end)
               (num_frames self) (Some (width self)) (Some (height self)) true s0).1
            = Ret None → items = []))
  ∧ (∀ self index s0, ∃ items, (getitem disk self index s0).1 = Ret items).
Proof.
  intros file loop out.
  split; [apply load_returns|]. split; [|split; [|split]].
  - intros e He. subst out. rewrite load_unfold. cbn zeta. fold file. rewrite He. split; reflexivity.
  - intros Hopen. subst out. rewrite load_unfold. cbn zeta. fold file. rewrite Hopen.
    fold loop. destruct loop as [[r rest] n]. cbn [fst snd].
    destruct r as [frames|e].
    + destruct (length frames =? 0)%nat eqn:Hlen.
      * repeat split; try done.
        eexists. split; [by rewrite <- app_assoc|]. by repeat constructor.
      * destruct (truncate_and_transform frames N nw nh rs) as [t|e] eqn:Htt.
        -- repeat split; try done.
           ++ intros frames' [= <-] ->. done.
           ++ intros frames' e [= <-]. congruence.
           ++ eexists. split; [by rewrite <- app_assoc|]. by repeat constructor.
        -- repeat split; try done.
           eexists. split; [by rewrite <- app_assoc|]. by repeat constructor.
    + repeat split; try done.
      eexists. split; [by rewrite <- app_assoc|]. by repeat constructor.
  - clear file loop out. intros self item s0.
    rewrite process_one_video_unfold. cbn zeta.
    eexists _, _. split; [reflexivity|].
    destruct (load_video_and_transform _ _ _ _ _ _ _ _) as [[[t|]|e] s1];
      cbn [fst length]; split; (lia || done).
  - intros self index s0. unfold getitem, mtry, mbind, lift, print, emit, mret.
    destruct (annotation self !! index) as [item|]; [|by eexists].
    rewrite process_one_video_unfold. by eexists.
Qed.

(** C10 (counterexample). An empty frames list on a path with no readable
    video: the first read fails, the loop ends before the last-index
    lookup, no IndexError is raised or handled, and None comes from the
    empty-video branch. *)
Lemma empty_frames_missing_file_no_index_error :
  let out :=
    @load_video_and_transform exact_backend ∅ "missing.mp4" [] 121
      (Some 640%N) (Some 384%N) true initial_state in
  out.1 = Ret None
  ∧ events out.2
    = [EvOpen "missing.mp4"; EvRead; EvRelease; EvPrint (EmptyVideo "missing.mp4")]
  ∧ EvPrint (LoadingVideoException "missing.mp4" IndexError) ∉ events out.2.
Proof.
  intros out.
  assert (Hev : events out.2
                = [EvOpen "missing.mp4"; EvRead; EvRelease;
                   EvPrint (EmptyVideo "missing.mp4")]).
  { subst out. rewrite load_unfold. reflexivity. }
  split; [subst out; rewrite load_unfold; reflexivity|].
  split; [exact Hev|].
  rewrite Hev, !elem_of_cons, elem_of_nil.
  intros [Hin|[Hin|[Hin|[Hin|[]]]]]; discriminate Hin.
Qed.

(** C10 (amended). With an empty frames list [load_video_and_transform]
    returns None on every video and the entry yields no work item, also
    when the list is the default of a non-positive frame budget. When the
    first read delivers a frame, the lookup of the last index raises
    IndexError inside the try block, the handler reports it and releases
    the capture; when the first read raises, that exception is handled the
    same way; when the capture delivers no frame, the loop ends before the
    lookup and the empty-video branch returns None. *)
Theorem empty_frames_list_yields_nothing disk path N nw nh rs s :
  let file := default missing_file (disk !! path) in
  let out := load_video_and_transform disk path [] N nw nh rs s in
  out.1 = Ret None
  ∧ (∀ e, open_raises file = Some e →
       events out.2 = events s ++ [EvPrint (LoadingVideoException path e)])
  ∧ (open_raises file = None → ∀ frame rest, stream file = ReadFrame frame :: rest →
       events out.2
       = events s ++ [EvOpen path; EvRead;
                      EvPrint (LoadingVideoException path IndexError); EvRelease])
  ∧ (open_raises file = None → ∀ e rest, stream file = ReadRaises e :: rest →
       events out.2
       = events s ++ [EvOpen path; EvRead;
                      EvPrint (LoadingVideoException path e); EvRelease])
  ∧ (open_raises file = None → stream file = [] →
       events out.2
       = events s ++ [EvOpen path; EvRead; EvRelease; EvPrint (EmptyVideo path)])
  ∧ (∀ self item s0,
       item_frames item = Some []
       ∨ (item_frames item = None ∧ num_frames self <= 0) →
       (process_one_video disk self item s0).1 = Ret []).
Proof.
  intros file out.
  assert (Hnone : ∀ disk' path' N' nw' nh' rs' s',
            (load_video_and_transform disk' path' [] N' nw' nh' rs' s').1 = Ret None).
  { intros. rewrite load_unfold. cbn zeta.
    destruct (open_raises _); [done|].
    destruct (stream _) as [|[frame|e] rest]; reflexivity. }
  split; [apply Hnone|].
  subst out. rewrite load_unfold. cbn zeta. fold file.
  split; [|split; [|split; [|split]]].
  - intros e ->. reflexivity.
  - intros -> frame rest ->. cbn. by rewrite <- app_assoc.
  - intros -> e rest ->. cbn. by rewrite <- app_assoc.
  - intros -> ->. cbn. by rewrite <- app_assoc.
  - intros self item s0 Hitem.
    rewrite process_one_video_unfold. cbn zeta. cbn [fst].
    assert (Hidx : match item_frames item with
                   | Some l => l
                   | None => seqZ 0 (num_frames self)
                   end = []).
    { destruct Hitem as [->|[-> Hn]]; [done|].
      unfold seqZ. by rewrite Z2Nat.nonpos. }
    rewrite Hidx, Hnone. done.
Qed.

End SamplerClaims.

Lemma exact_faithful : faithful 0 exact.
Proof.
  split. intros x. unfold exact.
  assert (Heq : (x - x == 0)%Q) by ring.
  rewrite Heq. change (Qabs 0) with 0%Q. lra.
Qed.

Lemma exact_monotone : monotone_rounding exact.
Proof. split; unfold exact; (done || reflexivity). Qed.

Section TruncationClaims.
Context `{Backend}.

Lemma truncate_and_transform_prefix frames N nw nh rs :
  0 <= N →
  truncate_and_transform frames N nw nh rs
  = stack_and_transform
      (take (Z.to_nat (duration (Z.min (Z.of_nat (length frames)) N))) frames)
      nw nh rs.
Proof.
  intros HN. unfold truncate_and_transform. by rewrite cap_then_align.
Qed.

(** A negative number is not a frame budget: as a slice bound it counts
    from the end. With -1 on ten collected frames the slice drops the last
    frame and the returned tensor has 9 time steps. *)
Lemma negative_budget_counts_from_the_end :
  let frames := replicate 10 (permute_201 (swap_red_blue
                   (solid_frame 2 4 Byte.x80 Byte.x10 Byte.xff))) in
  length (py_take (-1) frames) = 9%nat
  ∧ Z.min (Z.of_nat (length frames)) (-1) = -1
  ∧ duration (Z.min (Z.of_nat (length frames)) (-1)) = -7
  ∧ ∃ t, @truncate_and_transform exact_backend frames (-1) None None false = Ret t
      ∧ shape4 t = (3, 9, 2, 4)%nat
      ∧ Z.of_nat (shape4 t).1.1.2 ≠ duration (Z.min (Z.of_nat (length frames)) (-1)).
Proof.
  cbn zeta. split; [reflexivity|]. split; [reflexivity|]. split; [reflexivity|].
  eexists. split; [reflexivity|]. split; [reflexivity|]. vm_compute. discriminate.
Qed.


End TruncationClaims.

Lemma byte_to_Q_range (b : Byte.byte) : (0 <= byte_to_Q b <= 255)%Q.
Proof.
  unfold byte_to_Q. pose proof (Byte.to_N_bounded b) as Hb.
  split.
  - change 0%Q with (inject_Z 0). rewrite <- Zle_Qle. lia.
  - change 255%Q with (inject_Z 255). rewrite <- Zle_Qle. lia.
Qed.

Lemma channel_half c : channel (1 # 2, 1 # 2, 1 # 2)%Q c = (1 # 2)%Q.
Proof. destruct c as [|[|c]]; reflexivity. Qed.

Section PixelClaims.
Context `{Backend}.

Lemma to_unit_range b : monotone_rounding fl32 → (0 <= to_unit b <= 1)%Q.
Proof.
  intros Hm. unfold to_unit. pose proof (byte_to_Q_range b) as [Hlo Hhi].
  assert (Hq : (0 <= byte_to_Q b / 255 <= 1)%Q).
  { split; [apply Qle_shift_div_l|apply Qle_shift_div_r]; lra. }
  destruct Hq as [Hq0 Hq1].
  pose proof (fl_mono fl32 Hm _ _ Hq0) as H0.
  pose proof (fl_mono fl32 Hm _ _ Hq1) as H1.
  rewrite (fl_zero fl32 Hm) in H0. rewrite (fl_one fl32 Hm) in H1. done.
Qed.

Lemma normalize_value_range x :
  monotone_rounding fl32 → (0 <= x <= 1)%Q →
  (-1 <= normalize_value (1 # 2) (1 # 2) x <= 1)%Q.
Proof.
  intros Hm [Hx0 Hx1]. unfold normalize_value.
  assert (Hlo : (- (1 # 2) <= x - (1 # 2))%Q) by lra.
  assert (Hhi : (x - (1 # 2) <= 1 # 2)%Q) by lra.
  apply (fl_mono fl32 Hm) in Hlo, Hhi.
  rewrite (fl_neg_half fl32 Hm) in Hlo. rewrite (fl_half fl32 Hm) in Hhi.
  set (y := fl32 (x - (1 # 2))%Q) in *.
  assert (Hlo' : (- 1 <= y / (1 # 2))%Q).
  { apply Qle_shift_div_l; lra. }
  assert (Hhi' : (y / (1 # 2) <= 1)%Q).
  { apply Qle_shift_div_r; lra. }
  apply (fl_mono fl32 Hm) in Hlo', Hhi'.
  rewrite (fl_neg_one fl32 Hm) in Hlo'. rewrite (fl_one fl32 Hm) in Hhi'. done.
Qed.

Lemma chw_entry (frame : tensor3 Byte.byte) c y x :
  at3 (permute_201 (swap_red_blue frame)) c y x = at3 frame y x (2 - c)%nat.
Proof.
  unfold permute_201, swap_red_blue. destruct (shape3 frame) as [[h w] k]. reflexivity.
Qed.

Lemma normalize_entries img out :
  apply_transform (Normalize (1 # 2, 1 # 2, 1 # 2)%Q (1 # 2, 1 # 2, 1 # 2)%Q) img = Ret out →
  ∀ i j y x, at4 out i j y x = normalize_value (1 # 2) (1 # 2) (at4 img i j y x).
Proof.
  unfold apply_transform. destruct (shape4 img) as [[[t c] h] w].
  destruct (c =? 3)%nat; [|done]. intros [= <-] i j y x.
  cbn [at4]. by rewrite !channel_half.
Qed.

(** With resize the normalization acts on the resampled and cropped
    [0, 1] values. *)
Lemma stack_and_transform_resized frames a b t :
  stack_and_transform frames (Some a) (Some b) true = Ret t →
  ∃ stacked resized rh rw,
    torch_stack Byte.x00 frames = Ret stacked
    ∧ apply_transform (Resize (rh, rw) BICUBIC true) (map4 to_unit stacked) = Ret resized
    ∧ ∀ c τ y x,
        at4 t c τ y x
        = normalize_value (1 # 2) (1 # 2)
            (at4 (center_crop (Z.of_N b) (Z.of_N a) resized) τ c y x).
Proof.
  unfold stack_and_transform.
  destruct (torch_stack Byte.x00 frames) as [stacked|e] eqn:Hst; cbn [bind]; [|done].
  destruct (shape4 (map4 to_unit stacked)) as [[[ts cs] hs] ws].
  unfold get_transform. cbn [bind].
  destruct (Z.of_nat ws =? 0); [done|].
  destruct (Z.of_nat hs =? 0); [done|].
  cbn [bind app compose].
  destruct (apply_transform (Resize _ _ _) _) as [r|e] eqn:Hr; cbn [bind]; [|done].
  rewrite center_crop_apply. cbn [bind].
  destruct (apply_transform (Normalize _ _) _) as [out|e] eqn:Hn; cbn [bind]; [|done].
  intros [= <-]. eexists stacked, r, _, _.
  split; [done|]. split; [exact Hr|].
  intros c τ y x. unfold permute_1023.
  destruct (shape4 out) as [[[d0 d1] d2] d3]. cbn [at4].
  by apply normalize_entries.
Qed.

(** Without resize the transform is the normalization alone. *)
Lemma stack_and_transform_plain frames h w :
  frames ≠ [] → Forall (λ g, shape3 g = (3, h, w)%nat) frames →
  ∃ t, stack_and_transform frames None None false = Ret t
    ∧ shape4 t = (3, length frames, h, w)%nat
    ∧ ∀ c τ y x g, frames !! τ = Some g →
        at4 t c τ y x = normalize_value (1 # 2) (1 # 2) (to_unit (at3 g c y x)).
Proof.
  intros Hne Hall.
  destruct (torch_stack_same_shape Byte.x00 frames _ Hne Hall) as [stacked Hst].
  pose proof (torch_stack_inv _ _ _ Hst) as (f0 & rest & Hfr & _ & Hshape & Hat).
  assert (Hf0 : shape3 f0 = (3, h, w)%nat).
  { rewrite Forall_forall in Hall. apply Hall. rewrite Hfr. left. }
  rewrite Hf0 in Hshape. cbn [fst snd] in Hshape.
  unfold stack_and_transform. rewrite Hst. cbn [bind].
  unfold map4 at 1. cbn [shape4]. rewrite Hshape.
  unfold get_transform. cbn [bind app compose].
  unfold apply_transform at 1. unfold map4 at 1. cbn [shape4]. rewrite Hshape.
  cbn [Nat.eqb bind].
  eexists. split; [reflexivity|]. split.
  - unfold permute_1023, map4. cbn [shape4]. by rewrite Hshape.
  - intros c τ y x g Hg. unfold permute_1023, map4. cbn [shape4 at4].
    rewrite Hshape. cbn [at4]. rewrite !channel_half. by rewrite (Hat τ g Hg).
Qed.

(** With a target size and frames of one positive size the transform
    succeeds. *)
Lemma stack_and_transform_resize_ok u frames (h w : nat) (a b : N) :
  faithful u fl64 →
  (4 * u * inject_Z (Z.of_N a) < 1)%Q → (4 * u * inject_Z (Z.of_N b) < 1)%Q →
  (1 <= a)%N → (1 <= b)%N → (1 <= h)%nat → (1 <= w)%nat →
  frames ≠ [] → Forall (λ g, shape3 g = (3, h, w)%nat) frames →
  ∃ t, stack_and_transform frames (Some a) (Some b) true = Ret t
    ∧ shape4 t = (3%nat, length frames, N.to_nat b, N.to_nat a).
Proof.
  intros Hfl Hua Hub Ha Hb Hh Hw Hne Hshape.
  destruct (stack_and_transform frames (Some a) (Some b) true) as [t|e] eqn:Hst.
  { exists t. split; [done|].
    by apply (stack_and_transform_layout frames (Some a) (Some b) true t Hst). }
  exfalso. revert Hst. unfold stack_and_transform.
  destruct (torch_stack_same_shape Byte.x00 frames _ Hne Hshape) as [stacked Hstack].
  rewrite Hstack. cbn [bind].
  apply torch_stack_inv in Hstack as (f0 & rest & -> & _ & Hs & _).
  assert (Hf0 : shape3 f0 = (3, h, w)%nat) by (by inversion Hshape).
  rewrite Hf0 in Hs. cbn [fst snd] in Hs.
  set (x := map4 to_unit stacked).
  assert (Hx : shape4 x = (length (f0 :: rest), 3, h, w)%nat).
  { subst x. unfold map4. cbn [shape4]. exact Hs. }
  rewrite Hx. unfold get_transform. cbn [bind].
  destruct (Z.of_nat w =? 0) eqn:Hw0; [apply Z.eqb_eq in Hw0; lia|].
  destruct (Z.of_nat h =? 0) eqn:Hh0; [apply Z.eqb_eq in Hh0; lia|].
  cbn [bind app compose].
  set (scale := py_max (fl64 (inject_Z (Z.of_N a) / inject_Z (Z.of_nat w)))
                       (fl64 (inject_Z (Z.of_N b) / inject_Z (Z.of_nat h)))).
  set (rw := py_round (fl64 (inject_Z (Z.of_nat w) * scale))).
  set (rh := py_round (fl64 (inject_Z (Z.of_nat h) * scale))).
  assert (Hrw : Z.of_N a <= rw).
  { apply (resized_covers u fl64); [done|lia|lia|done|apply py_max_l]. }
  assert (Hrh : Z.of_N b <= rh).
  { apply (resized_covers u fl64); [done|lia|lia|done|apply py_max_r]. }
  unfold apply_transform at 1. rewrite Hx.
  destruct (rh <=? 0) eqn:Hrh0; [apply Z.leb_le in Hrh0; lia|].
  destruct (rw <=? 0) eqn:Hrw0; [apply Z.leb_le in Hrw0; lia|].
  destruct (h =? 0)%nat eqn:Hhz; [apply Nat.eqb_eq in Hhz; lia|].
  destruct (w =? 0)%nat eqn:Hwz; [apply Nat.eqb_eq in Hwz; lia|].
  cbn [orb bind]. rewrite center_crop_apply. cbn [bind].
  unfold apply_transform.
  match goal with |- context [shape4 (center_crop ?ch ?cw ?img)] =>
    pose proof (center_crop_dims ch cw img) as Hdims;
    destruct (shape4 (center_crop ch cw img)) as [[[t1 c1] h1] w1] end.
  cbn [shape4 fst snd] in Hdims. injection Hdims as -> ->.
  cbn [Nat.eqb bind]. done.
Qed.

(** C9 (amended). Each pixel value v in 0..255 is mapped to v/255 in
    [0, 1]. Without resize, on collected frames of one shape (3, h, w), the
    returned tensor has layout (channels, time, height, width) =
    (3, T, h, w) and its entry at (c, t, y, x) is the pixel of channel c at
    (y, x) of frame t, divided by 255 and then normalized with mean 1/2 and
    scale 1/2: a value in [-1, 1], in exact arithmetic (v/255 - 1/2)/(1/2).
    With resize, as [process_one_video] asks for, a tensor is returned as
    well, with layout (3, T, new_height, new_width), and the same
    normalization is applied to the resampled and cropped values: the
    entry for a resampled value x is in [-1, 1] when x is in [0, 1], and
    nothing keeps a bicubic resampling inside [0, 1]. *)
Theorem load_normalizes_pixels disk path idx N frames rest n h w s :
  monotone_rounding fl32 →
  open_raises (default missing_file (disk !! path)) = None →
  read_loop idx (list_to_set idx)
    (stream (default missing_file (disk !! path))) 0 [] = (Ret frames, rest, n) →
  frames ≠ [] →
  Forall (λ g, shape3 g = (3, h, w)%nat) frames →
  1 <= N →
  let T := Z.to_nat (duration (Z.min (Z.of_nat (length frames)) N)) in
  ∃ t s',
    load_video_and_transform disk path idx N None None false s = (Ret (Some t), s')
    ∧ shape4 t = (3, T, h, w)%nat
    ∧ (∀ c τ y x g, frames !! τ = Some g → (τ < T)%nat →
         at4 t c τ y x = normalize_value (1 # 2) (1 # 2) (to_unit (at3 g c y x)))
    ∧ (∀ b, to_unit b = fl32 (byte_to_Q b / 255)%Q
            ∧ (0 <= to_unit b <= 1)%Q
            ∧ (-1 <= normalize_value (1 # 2) (1 # 2) (to_unit b) <= 1)%Q)
    ∧ ((∀ q, (fl32 q == q)%Q) →
       ∀ b, (normalize_value (1 # 2) (1 # 2) (to_unit b)
             == (byte_to_Q b / 255 - (1 # 2)) / (1 # 2))%Q)
    ∧ (∀ nw nh rs t' s'',
         load_video_and_transform disk path idx N nw nh rs s = (Ret (Some t'), s'') →
         (shape4 t').1.1.1 = 3%nat
         ∧ (shape4 t').1.1.2 = T
         ∧ (rs = true → ∀ a b, nw = Some a → nh = Some b →
            shape4 t' = (3%nat, T, N.to_nat b, N.to_nat a)
            ∧ ∃ stacked resized rh rw,
                torch_stack Byte.x00 (take T frames) = Ret stacked
                ∧ apply_transform (Resize (rh, rw) BICUBIC true)
                    (map4 to_unit stacked) = Ret resized
                ∧ ∀ c τ y x,
                    at4 t' c τ y x
                    = normalize_value (1 # 2) (1 # 2)
                        (at4 (center_crop (Z.of_N b) (Z.of_N a) resized) τ c y x)))
    ∧ (∀ x, (0 <= x <= 1)%Q → (-1 <= normalize_value (1 # 2) (1 # 2) x <= 1)%Q)
    ∧ (∀ u a b,
         faithful u fl64 →
         (4 * u * inject_Z (Z.of_N a) < 1)%Q → (4 * u * inject_Z (Z.of_N b) < 1)%Q →
         (1 <= a)%N → (1 <= b)%N → (1 <= h)%nat → (1 <= w)%nat →
         ∃ t' s'',
           load_video_and_transform disk path idx N (Some a) (Some b) true s
           = (Ret (Some t'), s'')
           ∧ shape4 t' = (3%nat, T, N.to_nat b, N.to_nat a)).
Proof.
  intros Hm Hopen Hloop Hne Hall HN T.
  pose proof (duration_bounds (Z.min (Z.of_nat (length frames)) N)) as Hd.
  assert (Hlen : (0 < length frames)%nat) by (destruct frames; [done|cbn; lia]).
  specialize (Hd ltac:(lia)).
  assert (HT : (1 <= T <= length frames)%nat) by (subst T; lia).
  assert (Htake : take T frames ≠ []).
  { intros Htake. apply (f_equal length) in Htake. rewrite length_take in Htake.
    cbn in Htake. lia. }
  destruct (stack_and_transform_plain (take T frames) h w) as (t & Ht & Hshape & Hat);
    [done|by apply Forall_take|].
  rewrite length_take, Nat.min_l in Hshape by lia.
  rewrite load_unfold. cbn zeta. rewrite Hopen, Hloop.
  destruct (length frames =? 0)%nat eqn:Hz; [apply Nat.eqb_eq in Hz; lia|].
  rewrite truncate_and_transform_prefix by lia. fold T. rewrite Ht.
  eexists _, _. split; [reflexivity|]. split; [done|].
  split; [|split; [|split; [|split; [|split]]]].
  - intros c τ y x g Hg Hτ. apply Hat. by rewrite lookup_take_lt.
  - intros b. split; [reflexivity|]. split; [by apply to_unit_range|].
    apply normalize_value_range; [done|by apply to_unit_range].
  - intros Hid b. unfold normalize_value, to_unit.
    rewrite Hid, Hid, Hid. reflexivity.
  - intros nw nh rs t' s''. rewrite load_unfold. cbn zeta. rewrite Hopen, Hloop, Hz.
    rewrite truncate_and_transform_prefix by lia. fold T.
    destruct (stack_and_transform (take T frames) nw nh rs) as [t0|e] eqn:Ht0; [|done].
    intros [= <- _].
    pose proof (stack_and_transform_layout _ _ _ _ _ Ht0) as (Hc & Htime & Hrs).
    rewrite length_take, Nat.min_l in Htime, Hrs by lia.
    split; [done|]. split; [done|].
    intros -> a b -> ->. split; [by apply Hrs|].
    by apply stack_and_transform_resized.
  - intros x Hx. by apply normalize_value_range.
  - intros u a b Hfl Hua Hub Ha Hb Hh Hw.
    destruct (stack_and_transform_resize_ok u (take T frames) h w a b
                Hfl Hua Hub Ha Hb Hh Hw Htake ltac:(by apply Forall_take))
      as (t' & Ht' & Hs').
    rewrite length_take, Nat.min_l in Hs' by lia.
    rewrite load_unfold. cbn zeta. rewrite Hopen, Hloop, Hz.
    rewrite truncate_and_transform_prefix by lia. fold T. rewrite Ht'.
    by eexists _, _.
Qed.

End PixelClaims.

(** C9 (counterexample). One frame of one row, dark on the left and bright
    on the right, resized to 12 x 2 with torch's bicubic kernel as
    [process_one_video] does: next to the edge the resampled values
    overshoot, and the returned tensor holds 73/64 and -73/64, outside
    [-1, 1] and not of the form (v/255 - 1/2)/(1/2) for a pixel v. *)
Lemma resized_edge_leaves_range :
  let disk : gmap string video_file :=
    {[ "edge.mp4"%string := {| open_raises := None; stream := [ReadFrame edge_frame] |} ]} in
  let self := {| annotation := []; width := 12; height := 2; num_frames := 1 |} in
  let item := {| item_video := "edge.mp4"; item_latent := "edge.pt";
                 item_frames := None |} in
  match (@process_one_video bicubic_backend disk self item initial_state).1 with
  | Ret [work] =>
      let t := unbatch (wi_input work) in
      wi_output work = "edge.pt"%string
      ∧ shape4 t = (3, 1, 2, 12)%nat
      ∧ (at4 t 0 0 0 7 == 73 # 64)%Q ∧ (1 < at4 t 0 0 0 7)%Q
      ∧ (at4 t 0 0 0 4 == - (73 # 64))%Q ∧ (at4 t 0 0 0 4 < -1)%Q
  | _ => False
  end.
Proof. vm_compute. repeat split; reflexivity. Qed.

(** *** Claims about persistence and the driver *)

(** The two lists of a collated batch pair up again to the work items. *)
Lemma collate_fn_zip (batch : list (list work_item)) :
  zip (sample_input (collate_fn batch)) (sample_output (collate_fn batch))
  = map (λ item, (wi_input item, wi_output item)) (concat batch).
Proof.
  unfold collate_fn.
  assert (Hinner : ∀ videos_ acc items,
    zip (sample_input acc) (sample_output acc) = items →
    length (sample_input acc) = length (sample_output acc) →
    let acc' := foldl (λ return_batch video_input,
                  {| sample_input := sample_input return_batch ++ [wi_input video_input];
                     sample_output := sample_output return_batch ++ [wi_output video_input] |})
                  acc videos_ in
    zip (sample_input acc') (sample_output acc')
    = items ++ map (λ item, (wi_input item, wi_output item)) videos_
    ∧ length (sample_input acc') = length (sample_output acc')).
  { induction videos_ as [|v vs IH]; intros acc items Hzip Hlen; cbn.
    - by rewrite app_nil_r.
    - destruct (IH {| sample_input := sample_input acc ++ [wi_input v];
                      sample_output := sample_output acc ++ [wi_output v] |}
                   (items ++ [(wi_input v, wi_output v)])) as [Hz Hl].
      + cbn. rewrite zip_with_app by done. by rewrite Hzip.
      + cbn. rewrite !length_app. cbn. lia.
      + cbn zeta in Hz, Hl. rewrite Hz, <- app_assoc. done. }
  assert (Houter : ∀ batch' acc items,
    zip (sample_input acc) (sample_output acc) = items →
    length (sample_input acc) = length (sample_output acc) →
    let acc' := foldl (λ return_batch videos_,
                  foldl (λ return_batch video_input,
                    {| sample_input := sample_input return_batch ++ [wi_input video_input];
                       sample_output := sample_output return_batch ++ [wi_output video_input] |})
                    return_batch videos_)
                  acc batch' in
    zip (sample_input acc') (sample_output acc')
    = items ++ map (λ item, (wi_input item, wi_output item)) (concat batch')).
  { induction batch' as [|vs rest IH]; intros acc items Hzip Hlen; cbn.
    - by rewrite app_nil_r.
    - destruct (Hinner vs acc items Hzip Hlen) as [Hz Hl].
      rewrite (IH _ _ Hz Hl). by rewrite map_app, app_assoc. }
  apply (Houter batch {| sample_input := []; sample_output := [] |} []); done.
Qed.

Section DriverClaims.
Context `{Runtime}.

Lemma run_tasks_written tasks fs :
  NoDup (map fut_path tasks) →
  ∀ f, f ∈ tasks → save_fault_of (fut_id f) = None →
  (run_tasks tasks fs).2 !! fut_path f = Some (fut_tensor f).
Proof.
  revert fs. induction tasks as [|g rest IH]; intros fs Hnd f Hin Hok; [by inv Hin|].
  cbn [map] in Hnd. apply NoDup_cons in Hnd as [Hg Hnd].
  cbn [run_tasks].
  destruct (save_tensor_returns (save_fault_of (fut_id g)) (fut_tensor g) (fut_path g) fs)
    as (fs' & Hsave & Hother & Hsame).
  rewrite Hsave.
  pose proof (IH fs' Hnd) as IH'.
  pose proof (run_tasks_other_files rest fs' (fut_path g)) as Hrest.
  destruct (run_tasks rest fs') as [done' fs'']. cbn [snd] in *.
  apply elem_of_cons in Hin as [->|Hin].
  - rewrite Hrest; [by apply Hsame|].
    intros f' Hf' Heq. apply Hg. rewrite <- Heq.
    by apply list_elem_of_fmap_2.
  - by apply IH'.
Qed.

(** C8. [save_tensor] returns whatever the clone and the write do: a
    failure changes at most the file at its own path, a success leaves the
    tensor there. Every task of the pool therefore returns, a path no task
    writes keeps its content, a task without fault leaves its tensor when
    the paths are distinct, and the outcome of the run is the outcome of
    the encode loop: no write failure aborts it. *)
Theorem save_tensor_never_raises fault tensor path fs :
  (∃ fs', save_tensor fault tensor path fs = (Ret tt, fs')
     ∧ (∀ p, p ≠ path → fs' !! p = fs !! p)
     ∧ (fault = None → fs' !! path = Some tensor))
  ∧ (∀ tasks fs0,
       (run_tasks tasks fs0).1 = map (λ f, (f, Ret tt)) tasks
       ∧ (∀ p, (∀ f, f ∈ tasks → fut_path f ≠ p) →
            (run_tasks tasks fs0).2 !! p = fs0 !! p)
       ∧ (NoDup (map fut_path tasks) →
          ∀ f, f ∈ tasks → save_fault_of (fut_id f) = None →
            (run_tasks tasks fs0).2 !! fut_path f = Some (fut_tensor f)))
  ∧ (∀ data_loader fs0,
       (main data_loader (start fs0)).1
       = (encode_loop data_loader (barrier (start fs0)).2).1).
Proof.
  split; [apply save_tensor_returns|]. split.
  - intros tasks fs0. split; [apply run_tasks_outcomes|].
    split; [apply run_tasks_other_files|apply run_tasks_written].
  - intros data_loader fs0. rewrite main_unfold. cbn zeta.
    unfold barrier, record, start. cbn [snd log task_queue files encode_calls app].
    destruct (encode_loop data_loader _) as [[[]|e] s1]; reflexivity.
Qed.

End DriverClaims.

Lemma sample_pool_permutes (A : Type) (l : list A) :
  @as_completed sample_runtime A l ≡ₚ l.
Proof. cbn. symmetry. apply Permutation_rev. Qed.

Lemma driver_submits_once_and_drains_witness :
  (∀ (A : Type) (l : list A), @as_completed sample_runtime A l ≡ₚ l)
  ∧ (@main sample_runtime sample_loader (@start sample_runtime ∅)).1 = Ret tt
  ∧ length (task_queue (@main sample_runtime sample_loader (@start sample_runtime ∅)).2) = 3%nat
  ∧ collected_of (log (@main sample_runtime sample_loader (@start sample_runtime ∅)).2)
    ≡ₚ task_queue (@main sample_runtime sample_loader (@start sample_runtime ∅)).2.
Proof.
  split; [exact sample_pool_permutes|].
  split; [reflexivity|]. split; [reflexivity|].
  destruct (@driver_submits_once_and_drains sample_runtime sample_loader ∅
              sample_pool_permutes) as (_ & _ & _ & Hdrain & _).
  destruct (Hdrain eq_refl) as (work & _ & _ & Hperm). exact Hperm.
Defined.

(** *** Checks in IEEE arithmetic *)

(** For each of the 256 pixel values the binary32 results lie in [0, 1] and
    [-1, 1] and differ from v/255 and (v/255 - 1/2)/(1/2) by at most 2^-24
    and 2^-23. *)
Lemma pixel_arithmetic_binary32 (b : Byte.byte) : sf32_pixel_ok b = true.
Proof. destruct b; vm_compute; reflexivity. Qed.

(** In binary64 the resize of the default 640 x 384 target covers it for
    common source sizes, and so does every resize with sides up to 12 to a
    target with sides up to 6; the sizes are those of exact arithmetic. *)
Lemma resized_binary64 :
  forallb sf64_resized_ok
    [(1920, 1080, 640, 384); (1280, 720, 640, 384); (640, 480, 640, 384);
     (3840, 2160, 640, 384); (720, 1280, 640, 384); (384, 640, 640, 384)] = true
  ∧ forallb sf64_resized_ok (sizes_up_to 12 12 6 6) = true.
Proof. split; vm_compute; reflexivity. Qed.

(** *** Checks on the sample inputs *)

(** The scenario of two manifest lines: a 30-frame clip with a budget of 25
    frames and a path with no file. *)
Example two_entry_manifest :
  let self := {| annotation :=
                   [ {| item_video := "a.mp4"; item_latent := "a.pt"; item_frames := None |};
                     {| item_video := "nofile.mp4"; item_latent := "b.pt"; item_frames := None |} ];
                 width := 3; height := 3; num_frames := 25 |} in
  (∃ t, (@getitem exact_backend sample_disk self 0 initial_state).1
        = Ret [{| wi_video := "a.mp4"; wi_input := Unsqueeze0 t; wi_output := "a.pt" |}]
        ∧ shape4 t = (3, 25, 3, 3)%nat)
  ∧ (@getitem exact_backend sample_disk self 1 initial_state).1 = Ret []
  ∧ (@getitem exact_backend sample_disk self 2 initial_state).1 = Ret [].
Proof.
  cbn zeta. split; [|split; reflexivity].
  eexists. split; [reflexivity|reflexivity].
Qed.


Lemma resize_covers_then_crops_witness :
  faithful 0 (@fl64 exact_backend)
  ∧ @get_transform exact_backend 1920 1080 (Some 640%N) (Some 384%N) true
    = Ret [Resize (384, 683) BICUBIC true;
           CenterCrop (384, 640);
           Normalize (1 # 2, 1 # 2, 1 # 2)%Q (1 # 2, 1 # 2, 1 # 2)%Q].
Proof.
  split; [exact exact_faithful|].
  exact (proj1 (@resize_covers_then_crops exact_backend 0 1920 1080 640 384
                  exact_faithful ltac:(lia) ltac:(lia) ltac:(lia) ltac:(lia)
                  ltac:(reflexivity) ltac:(reflexivity))).
Defined.

Lemma load_collects_requested_frames_witness :
  let fs := replicate 4 (solid_frame 2 4 Byte.x80 Byte.x10 Byte.xff) in
  let disk : gmap string video_file :=
    {[ "b.mp4"%string := {| open_raises := None; stream := map ReadFrame fs |} ]} in
  [0; 2; 5] ≠ []
  ∧ (read_loop [0; 2; 5] (list_to_set [0; 2; 5]) (map ReadFrame fs) 0 []).1.1
    = Ret (frames_at_requested [0; 2; 5] fs)
  ∧ length (frames_at_requested [0; 2; 5] fs) = 2%nat.
Proof.
  intros fs disk. split; [done|].
  destruct (@load_collects_requested_frames exact_backend disk "b.mp4" [0; 2; 5] fs
              121 None None false initial_state
              ltac:(done) ltac:(repeat constructor) ltac:(repeat constructor) eq_refl)
    as (m & rest & positions & _ & _ & Hrun & _).
  rewrite Hrun. split; reflexivity.
Defined.

Lemma load_normalizes_pixels_witness :
  monotone_rounding (@fl32 exact_backend)
  ∧ ∃ t s',
      @load_video_and_transform exact_backend sample_disk "a.mp4" (seqZ 0 30) 25
        None None false initial_state = (Ret (Some t), s')
      ∧ shape4 t = (3, 25, 2, 4)%nat
      ∧ (at4 t 0 0 0 0 == 1)%Q.
Proof.
  split; [exact exact_monotone|].
  destruct (@load_normalizes_pixels exact_backend sample_disk "a.mp4" (seqZ 0 30) 25
              (replicate 30 (permute_201 (swap_red_blue
                               (solid_frame 2 4 Byte.x80 Byte.x10 Byte.xff))))
              [] 31 2 4 initial_state
              exact_monotone eq_refl ltac:(vm_compute; reflexivity) ltac:(done)
              ltac:(repeat constructor) ltac:(lia))
    as (t & s' & Hload & Hshape & Hat & _).
  exists t, s'. split; [exact Hload|]. split; [exact Hshape|].
  rewrite (Hat 0 0 0 0 _ eq_refl)%nat by (vm_compute; lia).
  vm_compute. reflexivity.
Defined.

(** ** Further properties of the code *)

(** X1. For a frame count F >= 1 aligning twice is aligning once, the
    aligned count grows with the frame count, the alignment drops at most 7
    frames, and it drops none exactly when F is congruent to 1 modulo 8. *)
Theorem duration_idempotent_monotone (F G : Z) :
  1 <= F → F <= G →
  duration (duration F) = duration F
  ∧ duration F <= duration G
  ∧ F - 7 <= duration F
  ∧ (duration F = F ↔ F mod 8 = 1).
Proof.
  intros HF HFG. unfold duration.
  pose proof (Z.div_mod (F - 1) 8 ltac:(lia)) as Hdm.
  pose proof (Z.mod_pos_bound (F - 1) 8 ltac:(lia)) as Hb.
  assert (Hmono : (F - 1) / 8 <= (G - 1) / 8) by (apply Z.div_le_mono; lia).
  split; [|split; [lia|split; [lia|]]].
  - replace ((F - 1) / 8 * 8 + 1 - 1) with ((F - 1) / 8 * 8) by lia.
    by rewrite Z.div_mul by lia.
  - split.
    + intros Heq. rewrite <- Heq at 1.
      rewrite Z.add_comm, Z.mod_add by lia. reflexivity.
    + intros Hmod.
      assert (Hm : (F - 1) mod 8 = 0).
      { rewrite Zminus_mod, Hmod. reflexivity. }
      lia.
Qed.

Lemma collate_fn_lists (batch : list (list work_item)) :
  sample_input (collate_fn batch) = map wi_input (concat batch)
  ∧ sample_output (collate_fn batch) = map wi_output (concat batch).
Proof.
  unfold collate_fn.
  set (step := λ return_batch video_input,
         {| sample_input := sample_input return_batch ++ [wi_input video_input];
            sample_output := sample_output return_batch ++ [wi_output video_input] |}).
  assert (Hinner : ∀ videos_ acc,
    sample_input (foldl step acc videos_) = sample_input acc ++ map wi_input videos_
    ∧ sample_output (foldl step acc videos_) = sample_output acc ++ map wi_output videos_).
  { induction videos_ as [|v vs IH]; intros acc; cbn.
    - by rewrite !app_nil_r.
    - destruct (IH (step acc v)) as [-> ->]. cbn. by rewrite <- !app_assoc. }
  assert (Houter : ∀ batch' acc,
    sample_input (foldl (λ rb videos_, foldl step rb videos_) acc batch')
    = sample_input acc ++ map wi_input (concat batch')
    ∧ sample_output (foldl (λ rb videos_, foldl step rb videos_) acc batch')
      = sample_output acc ++ map wi_output (concat batch')).
  { induction batch' as [|vs rest IH]; intros acc; cbn.
    - by rewrite !app_nil_r.
    - destruct (IH (foldl step acc vs)) as [-> ->].
      destruct (Hinner vs acc) as [-> ->].
      by rewrite !map_app, <- !app_assoc. }
  apply (Houter batch {| sample_input := []; sample_output := [] |}).
Qed.

(** X2. [collate_fn] concatenates the work items of a batch in order: the
    inputs and the output paths of the sample are those of the items,
    position by position, the two lists have one length, and an entry of
    the batch with no work item (a video that did not load) leaves no
    trace. *)
Theorem collate_fn_flattens (batch : list (list work_item)) :
  sample_input (collate_fn batch) = map wi_input (concat batch)
  ∧ sample_output (collate_fn batch) = map wi_output (concat batch)
  ∧ length (sample_input (collate_fn batch)) = length (sample_output (collate_fn batch))
  ∧ zip (sample_input (collate_fn batch)) (sample_output (collate_fn batch))
    = map (λ item, (wi_input item, wi_output item)) (concat batch)
  ∧ collate_fn (filter (λ videos_, videos_ ≠ []) batch) = collate_fn batch.
Proof.
  assert (Hconcat : concat (filter (λ videos_ : list work_item, videos_ ≠ []) batch)
                    = concat batch).
  { induction batch as [|v vs IH]; [done|].
    rewrite filter_cons. destruct (decide (v ≠ [])) as [Hv|Hv]; cbn.
    - by rewrite IH.
    - apply dec_stable in Hv. subst v. cbn. apply IH. }
  destruct (collate_fn_lists batch) as [Hin Hout].
  split; [done|]. split; [done|]. split; [by rewrite Hin, Hout, !length_map|].
  split; [apply collate_fn_zip|].
  destruct (collate_fn_lists (filter (λ videos_ : list work_item, videos_ ≠ []) batch))
    as [Hin' Hout'].
  rewrite Hconcat in Hin', Hout'.
  destruct (collate_fn (filter _ batch)) as [i1 o1], (collate_fn batch) as [i2 o2].
  cbn in *. congruence.
Qed.

(** The loop for any non-empty list of indices: the last element is the
    stop bound, whatever the order of the list. *)
Lemma read_loop_any_order idx (m : Z) fs (k : nat) acc :
  py_last idx = Ret m →
  Forall (λ f, decodable f = true) fs →
  ∃ rest,
    read_loop idx (list_to_set idx) (map ReadFrame fs) (Z.of_nat k) acc
    = (Ret (acc ++ omap (keep_requested (filter (λ i, i <= m) idx))
                     (imap (λ i f, ((k + i)%nat, f)) fs)),
       rest,
       S (Nat.min (length fs) (Z.to_nat (m + 1 - Z.of_nat k)))).
Proof.
  intros Hlast Hdec. revert k acc.
  assert (Hmax : ∀ i, i ∈ filter (λ i, i <= m) idx → i <= m).
  { intros i Hi. by apply list_elem_of_filter in Hi as [Hi _]. }
  induction Hdec as [|f fs Hf Hfs IH]; intros k acc.
  - exists []. cbn. by rewrite app_nil_r.
  - cbn [map read_loop]. rewrite Hlast.
    destruct (m <? Z.of_nat k) eqn:Hbreak.
    + apply Z.ltb_lt in Hbreak. exists (map ReadFrame fs).
      rewrite (keep_none_beyond _ m k (f :: fs) Hmax Hbreak), app_nil_r.
      repeat f_equal. lia.
    + apply Z.ltb_ge in Hbreak.
      destruct (IH (S k) (acc ++ [permute_201 (swap_red_blue f)])) as [rest1 IH1].
      destruct (IH (S k) acc) as [rest2 IH2].
      replace (Z.of_nat k + 1) with (Z.of_nat (S k)) by lia.
      rewrite imap_cons. cbn [omap list_omap keep_requested].
      rewrite Nat.add_0_r.
      assert (Hext : imap ((λ i f0, ((k + i)%nat, f0)) ∘ S) fs
                     = imap (λ i f0, ((S k + i)%nat, f0)) fs).
      { apply imap_ext. intros i x _. simpl. f_equal. lia. }
      rewrite Hext.
      assert (Hn : S (S (Nat.min (length fs) (Z.to_nat (m + 1 - Z.of_nat (S k)))))
                   = S (Nat.min (length (f :: fs)) (Z.to_nat (m + 1 - Z.of_nat k)))).
      { cbn [length]. lia. }
      destruct (decide (Z.of_nat k ∈ idx)) as [Hin|Hnin].
      * rewrite (bool_decide_eq_true_2 (Z.of_nat k ∈ (list_to_set idx : gset Z)))
          by (by apply elem_of_list_to_set).
        rewrite (bool_decide_eq_true_2 (Z.of_nat k ∈ filter (λ i, i <= m) idx))
          by (by apply list_elem_of_filter).
        rewrite to_chw_decodable by done. cbn [bind].
        rewrite IH1. exists rest1. rewrite <- Hn.
        by rewrite <- app_assoc.
      * rewrite (bool_decide_eq_false_2 (Z.of_nat k ∈ (list_to_set idx : gset Z)))
          by (by rewrite elem_of_list_to_set).
        rewrite (bool_decide_eq_false_2 (Z.of_nat k ∈ filter (λ i, i <= m) idx))
          by (rewrite list_elem_of_filter; tauto).
        rewrite IH2. exists rest2. by rewrite <- Hn.
Qed.

(** Only the set of requested indices matters to the selection. *)
Lemma frames_at_requested_ext idx idx' fs :
  (∀ i, i ∈ idx ↔ i ∈ idx') →
  frames_at_requested idx fs = frames_at_requested idx' fs.
Proof.
  intros Heq. unfold frames_at_requested.
  apply list_omap_ext. apply Forall2_same_length_lookup_2; [done|].
  intros j x y Hx Hy. assert (x = y) as <- by congruence.
  destruct x as [i f]. cbn.
  destruct (decide (Z.of_nat i ∈ idx)) as [Hi|Hi].
  - rewrite !bool_decide_eq_true_2; [done|by apply Heq|done].
  - rewrite !bool_decide_eq_false_2; [done|by rewrite <- Heq|done].
Qed.

Lemma omap_length_le {A B} (f : A → option B) (l : list A) :
  (length (omap f l) <= length l)%nat.
Proof.
  induction l as [|x l IH]; [done|].
  cbn. destruct (f x); cbn; lia.
Qed.

Lemma frames_at_requested_length idx fs :
  (length (frames_at_requested idx fs) <= length fs)%nat.
Proof.
  unfold frames_at_requested.
  etrans; [apply omap_length_le|]. by rewrite length_imap.
Qed.

Lemma read_loop_from_start idx (m : Z) fs :
  py_last idx = Ret m →
  Forall (λ f, decodable f = true) fs →
  ∃ rest,
    read_loop idx (list_to_set idx) (map ReadFrame fs) 0 []
    = (Ret (frames_at_requested (filter (λ i, i <= m) idx) fs), rest,
       S (Nat.min (length fs) (Z.to_nat (m + 1)))).
Proof.
  intros Hm Hdec.
  destruct (read_loop_any_order idx m fs 0 [] Hm Hdec) as [rest Hloop].
  assert (Himap : imap (λ i f, ((0 + i)%nat, f)) fs = imap pair fs).
  { apply imap_ext. intros i x _. reflexivity. }
  change (Z.of_nat 0) with 0 in Hloop.
  rewrite Himap, Z.sub_0_r in Hloop. cbn [app] in Hloop.
  by exists rest.
Qed.

Section ReadLoopFacts.
Context `{Backend}.

(** X3. For any non-empty list of requested indices, in any order and with
    repetitions, on a video whose frames all decode, the stop bound of the
    read loop is the last element m of the list, not its maximum. The loop
    makes min(len, m+1) + 1 reads and collects, once each and in video
    order, the frames whose index is requested and at most m; a requested
    index above m is never collected, and only the set of indices matters.
    The function's result is built from those frames alone. *)
Theorem load_collects_up_to_last_index disk path idx fs N nw nh rs s :
  idx ≠ [] →
  Forall (λ f, decodable f = true) fs →
  disk !! path = Some {| open_raises := None; stream := map ReadFrame fs |} →
  ∃ m rest,
    py_last idx = Ret m
    ∧ read_loop idx (list_to_set idx) (map ReadFrame fs) 0 []
      = (Ret (frames_at_requested (filter (λ i, i <= m) idx) fs), rest,
         S (Nat.min (length fs) (Z.to_nat (m + 1))))
    ∧ (∀ idx', (∀ i, i ∈ idx' ↔ i ∈ idx ∧ i <= m) →
         frames_at_requested (filter (λ i, i <= m) idx) fs = frames_at_requested idx' fs)
    ∧ (length (frames_at_requested (filter (λ i, (i <= m)%Z) idx) fs)
       <= Nat.min (length fs) (Z.to_nat (m + 1)))%nat
    ∧ (load_video_and_transform disk path idx N nw nh rs s).1
      = Ret match frames_at_requested (filter (λ i, i <= m) idx) fs with
            | [] => None
            | collected =>
                match truncate_and_transform collected N nw nh rs with
                | Ret t => Some t
                | Raise _ => None
                end
            end.
Proof.
  intros Hne Hdec Hdisk.
  destruct (py_last_nonempty idx Hne) as [m Hm].
  destruct (read_loop_from_start idx m fs Hm Hdec) as [rest Hloop].
  exists m, rest. split; [done|]. split; [done|]. split; [|split].
  - intros idx' Hidx'. apply frames_at_requested_ext.
    intros i. rewrite list_elem_of_filter, Hidx'. tauto.
  - apply Nat.min_glb; [apply frames_at_requested_length|].
    rewrite (frames_at_requested_prefix _ m fs).
    + etrans; [apply frames_at_requested_length|]. rewrite length_take. lia.
    + intros i Hi. by apply list_elem_of_filter in Hi as [Hi _].
  - rewrite load_unfold. cbn zeta. rewrite Hdisk.
    cbn [default from_option id open_raises stream]. rewrite Hloop.
    destruct (frames_at_requested _ fs) as [|g gs]; [reflexivity|].
    cbn [length Nat.eqb].
    destruct (truncate_and_transform (g :: gs) N nw nh rs); reflexivity.
Qed.

End ReadLoopFacts.

(** No frame is selected exactly when no requested index is a position of
    the video. *)
Lemma frames_at_requested_nil idx fs :
  frames_at_requested idx fs = [] ↔ ∀ i, (i < length fs)%nat → Z.of_nat i ∉ idx.
Proof.
  unfold frames_at_requested. split.
  - intros Hnil i Hi Hin.
    destruct (lookup_lt_is_Some_2 fs i Hi) as [f Hf].
    assert (Hel : permute_201 (swap_red_blue f)
                  ∈ omap (keep_requested idx) (imap pair fs)).
    { apply list_elem_of_omap. exists (i, f). split.
      - apply list_elem_of_lookup. exists i. by rewrite list_lookup_imap, Hf.
      - cbn. by rewrite bool_decide_eq_true_2. }
    rewrite Hnil in Hel. by apply elem_of_nil in Hel.
  - intros Hnone.
    destruct (omap _ _) as [|x l] eqn:Ho; [done|].
    assert (Hel : x ∈ omap (keep_requested idx) (imap pair fs))
      by (rewrite Ho; left).
    apply list_elem_of_omap in Hel as ([i f] & Hin & Hkeep).
    apply list_elem_of_lookup in Hin as [j Hj].
    rewrite list_lookup_imap in Hj.
    destruct (fs !! j) as [g|] eqn:Hg; [|done].
    injection Hj as <- <-. cbn in Hkeep.
    destruct (decide (Z.of_nat j ∈ idx)) as [Hd|Hd].
    + exfalso. apply (Hnone j); [by eapply lookup_lt_Some|done].
    + by rewrite bool_decide_eq_false_2 in Hkeep.
Qed.

Lemma messages_of_app l1 l2 : messages_of (l1 ++ l2) = messages_of l1 ++ messages_of l2.
Proof. apply omap_app. Qed.

Lemma messages_of_reads n : messages_of (replicate n EvRead) = [].
Proof. induction n as [|n IH]; [done|]. exact IH. Qed.

Lemma releases_of_app l1 l2 : releases_of (l1 ++ l2) = (releases_of l1 + releases_of l2)%nat.
Proof. unfold releases_of. by rewrite List.filter_app, length_app. Qed.

Lemma releases_of_reads n : releases_of (replicate n EvRead) = 0%nat.
Proof. induction n as [|n IH]; [done|]. exact IH. Qed.

Section EmptyVideoFacts.
Context `{Backend}.

(** X4. On a video whose frames all decode (a path with no file is a video
    with no frame) and for a non-empty list of requested indices with last
    element m, [load_video_and_transform] prints [Empty video] exactly when
    no requested index up to m is a position of the video; it then returns
    None, after the reads and one release. *)
Theorem load_reports_empty_video disk path idx fs N nw nh rs s :
  idx ≠ [] →
  Forall (λ f, decodable f = true) fs →
  default missing_file (disk !! path)
  = {| open_raises := None; stream := map ReadFrame fs |} →
  let out := load_video_and_transform disk path idx N nw nh rs s in
  ∃ m new,
    py_last idx = Ret m
    ∧ events out.2 = events s ++ new
    ∧ (EvPrint (EmptyVideo path) ∈ new
       ↔ ∀ i, i ∈ idx → i <= m → i < 0 ∨ Z.of_nat (length fs) <= i)
    ∧ (EvPrint (EmptyVideo path) ∈ new →
       out.1 = Ret None
       ∧ new = EvOpen path
                 :: replicate (S (Nat.min (length fs) (Z.to_nat (m + 1)))) EvRead
                 ++ [EvRelease; EvPrint (EmptyVideo path)]).
Proof.
  intros Hne Hdec Hfile out.
  destruct (py_last_nonempty idx Hne) as [m Hm].
  destruct (read_loop_from_start idx m fs Hm Hdec) as [rest Hloop].
  set (n := S (Nat.min (length fs) (Z.to_nat (m + 1)))) in *.
  set (sel := frames_at_requested (filter (λ i, i <= m) idx) fs) in *.
  assert (Hsel : sel = [] ↔ ∀ i, i ∈ idx → i <= m → i < 0 ∨ Z.of_nat (length fs) <= i).
  { subst sel. rewrite frames_at_requested_nil. split.
    - intros Hnone i Hi Him.
      destruct (decide (0 <= i < Z.of_nat (length fs))) as [Hin|]; [|lia].
      exfalso. apply (Hnone (Z.to_nat i)); [lia|].
      apply list_elem_of_filter. rewrite Z2Nat.id by lia. done.
    - intros Hout i Hi Hin. apply list_elem_of_filter in Hin as [Him Hin].
      destruct (Hout _ Hin Him); lia. }
  assert (Hout : out =
    match sel with
    | [] => (Ret None,
             {| video_capture := Some rest;
                events := (events s ++ EvOpen path :: replicate n EvRead)
                          ++ [EvRelease; EvPrint (EmptyVideo path)] |})
    | _ :: _ =>
        match truncate_and_transform sel N nw nh rs with
        | Ret t =>
            (Ret (Some t),
             {| video_capture := Some rest;
                events := (events s ++ EvOpen path :: replicate n EvRead) ++ [EvRelease] |})
        | Raise e =>
            (Ret None,
             {| video_capture := Some rest;
                events := (events s ++ EvOpen path :: replicate n EvRead)
                          ++ [EvRelease; EvPrint (LoadingVideoException path e);
                              EvRelease] |})
        end
    end).
  { subst out. rewrite load_unfold. cbn zeta. rewrite Hfile.
    cbn [open_raises stream]. rewrite Hloop.
    destruct sel; reflexivity. }
  clearbody out sel. subst out.
  assert (Hreads : EvPrint (EmptyVideo path) ∉ replicate n EvRead).
  { intros Hin. by apply elem_of_replicate in Hin as [? _]. }
  exists m.
  destruct sel as [|g gs].
  - exists (EvOpen path :: replicate n EvRead ++ [EvRelease; EvPrint (EmptyVideo path)]).
    split; [done|]. split; [cbn; by rewrite <- app_assoc|]. split.
    + split; [intros _; by apply Hsel|].
      intros _. right. apply elem_of_app. right. right. left.
    + done.
  - assert (Hno : ¬ ∀ i, i ∈ idx → i <= m → i < 0 ∨ Z.of_nat (length fs) <= i).
    { intros Hall. by apply Hsel in Hall. }
    destruct (truncate_and_transform (g :: gs) N nw nh rs) as [t|e].
    + exists (EvOpen path :: replicate n EvRead ++ [EvRelease]).
      split; [done|]. split; [cbn; by rewrite <- app_assoc|].
      assert (Hnot : EvPrint (EmptyVideo path)
                     ∉ EvOpen path :: replicate n EvRead ++ [EvRelease]).
      { rewrite elem_of_cons, elem_of_app, elem_of_cons, elem_of_nil.
        intros [Heq|[Hin|[Heq|[]]]]; [discriminate Heq|done|discriminate Heq]. }
      split; [split; [done|intros Hall; by destruct Hno]|done].
    + exists (EvOpen path :: replicate n EvRead
                ++ [EvRelease; EvPrint (LoadingVideoException path e); EvRelease]).
      split; [done|]. split; [cbn; by rewrite <- app_assoc|].
      assert (Hnot : EvPrint (EmptyVideo path)
                     ∉ EvOpen path :: replicate n EvRead
                         ++ [EvRelease; EvPrint (LoadingVideoException path e); EvRelease]).
      { rewrite elem_of_cons, elem_of_app, !elem_of_cons, elem_of_nil.
        intros [Heq|[Hin|[Heq|[Heq|[Heq|[]]]]]];
          [discriminate Heq|done|discriminate Heq..]. }
      split; [split; [done|intros Hall; by destruct Hno]|done].
Qed.

End EmptyVideoFacts.

Section FailureFacts.
Context `{Backend}.

(** When [get_transform] raises, and what. *)
Lemma get_transform_raises width height nw nh rs :
  get_transform width height nw nh rs =
  if rs then
    match nw, nh with
    | None, _ => Raise TypeError
    | Some a, None => if width =? 0 then Raise ZeroDivisionError else Raise TypeError
    | Some a, Some b =>
        if width =? 0 then Raise ZeroDivisionError
        else if height =? 0 then Raise ZeroDivisionError
        else get_transform width height nw nh rs
    end
  else Ret [Normalize (1 # 2, 1 # 2, 1 # 2)%Q (1 # 2, 1 # 2, 1 # 2)%Q].
Proof.
  unfold get_transform. destruct rs; [|reflexivity].
  destruct nw as [a|]; [|reflexivity]. cbn [bind].
  destruct (width =? 0); [by destruct nh|].
  destruct nh as [b|]; [|reflexivity]. cbn [bind].
  destruct (height =? 0); reflexivity.
Qed.

Lemma stack_and_transform_needs_target frames nw nh t :
  stack_and_transform frames nw nh true = Ret t →
  ∃ a b, nw = Some a ∧ nh = Some b.
Proof.
  unfold stack_and_transform.
  destruct (torch_stack Byte.x00 frames) as [stacked|e]; cbn [bind]; [|done].
  destruct (shape4 (map4 to_unit stacked)) as [[[t0 c] h] w].
  rewrite get_transform_raises.
  destruct nw as [a|]; [|done].
  destruct nh as [b|]; [by eauto|].
  by destruct (Z.of_nat w =? 0).
Qed.

(** X5. With resize requested and a target size left at None,
    [get_transform] raises for every source size: TypeError, or
    ZeroDivisionError when the target width is given and the source width
    is 0. So stacking and transforming raises on every frame list, and
    [load_video_and_transform] returns None on every video and prints one
    message. *)
Theorem resize_without_target_yields_nothing disk path idx N nw nh s :
  nw = None ∨ nh = None →
  (∀ width height, ∃ e,
     get_transform width height nw nh true = Raise e
     ∧ (e = TypeError ∨ e = ZeroDivisionError)
     ∧ (e = ZeroDivisionError → width = 0 ∧ nw ≠ None))
  ∧ (∀ frames, ∃ e, stack_and_transform frames nw nh true = Raise e)
  ∧ (load_video_and_transform disk path idx N nw nh true s).1 = Ret None
  ∧ ∃ msg, messages_of (drop (length (events s))
                          (events (load_video_and_transform disk path idx N nw nh true s).2))
           = [msg].
Proof.
  intros Hmiss.
  assert (Hstack : ∀ frames, ∃ e, stack_and_transform frames nw nh true = Raise e).
  { intros frames.
    destruct (stack_and_transform frames nw nh true) as [t|e] eqn:Hst; [|by eauto].
    apply stack_and_transform_needs_target in Hst as (a & b & -> & ->).
    by destruct Hmiss. }
  split; [|split; [exact Hstack|]].
  - intros width height. rewrite get_transform_raises.
    destruct nw as [a|]; [|exists TypeError; split; [done|split; [by left|done]]].
    destruct nh as [b|]; [by destruct Hmiss|].
    destruct (width =? 0) eqn:Hw.
    + apply Z.eqb_eq in Hw. exists ZeroDivisionError.
      split; [done|split; [by right|done]].
    + exists TypeError. split; [done|split; [by left|done]].
  - rewrite load_unfold. cbn zeta.
    destruct (open_raises _) as [e|].
    { cbn [fst snd events]. split; [done|].
      rewrite drop_app_length. by eexists. }
    destruct (read_loop _ _ _ _ _) as [[r rest] n].
    destruct r as [frames|e].
    2:{ cbn [fst snd events]. split; [done|].
        rewrite <- app_assoc, drop_app_length. cbn [app].
        change (EvOpen path :: ?l) with ([EvOpen path] ++ l).
        rewrite !messages_of_app, messages_of_reads. by eexists. }
    destruct (length frames =? 0)%nat.
    { cbn [fst snd events]. split; [done|].
      rewrite <- app_assoc, drop_app_length. cbn [app].
      change (EvOpen path :: ?l) with ([EvOpen path] ++ l).
      rewrite !messages_of_app, messages_of_reads. by eexists. }
    unfold truncate_and_transform.
    destruct (Hstack (py_take (duration (Z.of_nat (length (py_take N frames))))
                        (py_take N frames))) as [e ->].
    cbn [fst snd events]. split; [done|].
    rewrite <- app_assoc, drop_app_length. cbn [app].
    change (EvOpen path :: ?l) with ([EvOpen path] ++ l).
    rewrite !messages_of_app, messages_of_reads. by eexists.
Qed.

(** X6. One call of [load_video_and_transform] only adds events. It prints
    nothing when it returns a tensor and exactly one message, [Empty video]
    or [Loading video ... exception], when it returns None. The capture is
    not released when opening raised; otherwise it is released once or
    twice, and twice exactly when frames were collected and the truncation,
    stacking or transform raised: the handler then releases a capture the
    body had released already. *)
Theorem load_logs_once_releases_after_open disk path idx N nw nh rs s :
  let file := default missing_file (disk !! path) in
  let out := load_video_and_transform disk path idx N nw nh rs s in
  ∃ new,
    events out.2 = events s ++ new
    ∧ (∀ t, out.1 = Ret (Some t) → messages_of new = [] ∧ releases_of new = 1%nat)
    ∧ (out.1 = Ret None →
       ∃ msg, messages_of new = [msg]
         ∧ (msg = EmptyVideo path ∨ ∃ e, msg = LoadingVideoException path e))
    ∧ (releases_of new = 0%nat ↔ open_raises file ≠ None)
    ∧ (releases_of new <= 2)%nat
    ∧ (releases_of new = 2%nat ↔
       ∃ frames e,
         open_raises file = None
         ∧ (read_loop idx (list_to_set idx) (stream file) 0 []).1.1 = Ret frames
         ∧ frames ≠ []
         ∧ truncate_and_transform frames N nw nh rs = Raise e).
Proof.
  intros file out. subst out. rewrite load_unfold. cbn zeta. fold file.
  destruct (open_raises file) as [e|] eqn:Hopen.
  { exists [EvPrint (LoadingVideoException path e)]. cbn [fst snd events].
    split; [done|]. split; [done|]. split; [by eauto|].
    split; [done|]. split; [cbn; lia|].
    split; [done|]. by intros (? & ? & ? & _). }
  destruct (read_loop idx (list_to_set idx) (stream file) 0 []) as [[r rest] n].
  cbn [fst snd].
  assert (Hrel : ∀ tail, releases_of (EvOpen path :: replicate n EvRead ++ tail)
                         = releases_of tail).
  { intros tail. change (EvOpen path :: ?l) with ([EvOpen path] ++ l).
    by rewrite !releases_of_app, releases_of_reads. }
  assert (Hmsg : ∀ tail, messages_of (EvOpen path :: replicate n EvRead ++ tail)
                         = messages_of tail).
  { intros tail. change (EvOpen path :: ?l) with ([EvOpen path] ++ l).
    by rewrite !messages_of_app, messages_of_reads. }
  destruct r as [frames|e].
  2:{ exists (EvOpen path :: replicate n EvRead
                ++ [EvPrint (LoadingVideoException path e); EvRelease]).
      cbn [fst snd events]. rewrite Hrel, Hmsg.
      split; [cbn; by rewrite <- app_assoc|]. split; [done|]. split; [by eauto|].
      split; [done|]. split; [cbn; lia|].
      split; [done|]. by intros (? & ? & _ & ? & _). }
  destruct frames as [|g gs].
  { exists (EvOpen path :: replicate n EvRead ++ [EvRelease; EvPrint (EmptyVideo path)]).
    cbn [length Nat.eqb fst snd events]. rewrite Hrel, Hmsg.
    split; [cbn; by rewrite <- app_assoc|]. split; [done|]. split; [by eauto|].
    split; [done|]. split; [cbn; lia|].
    split; [done|]. intros (? & ? & _ & [= <-] & ? & _). done. }
  cbn [length Nat.eqb].
  destruct (truncate_and_transform (g :: gs) N nw nh rs) as [t|e] eqn:Htr.
  - exists (EvOpen path :: replicate n EvRead ++ [EvRelease]).
    cbn [fst snd events]. rewrite Hrel, Hmsg.
    split; [cbn; by rewrite <- app_assoc|]. split; [done|]. split; [done|].
    split; [done|]. split; [cbn; lia|].
    split; [done|]. intros (? & ? & _ & [= <-] & _ & Hr). congruence.
  - exists (EvOpen path :: replicate n EvRead
              ++ [EvRelease; EvPrint (LoadingVideoException path e); EvRelease]).
    cbn [fst snd events]. rewrite Hrel, Hmsg.
    split; [cbn; by rewrite <- app_assoc|]. split; [done|]. split; [by eauto|].
    split; [done|]. split; [cbn; lia|].
    split; [|done]. intros _. by exists (g :: gs), e.
Qed.

End FailureFacts.

Section DatasetFacts.
Context `{Backend}.

(** What a call of the sampler returns does not depend on the state it
    starts in; it only adds events, with no message when it returns a
    tensor and one message when it returns None. *)
Lemma load_outcome disk path idx N nw nh rs s :
  ∃ new,
    events (load_video_and_transform disk path idx N nw nh rs s).2 = events s ++ new
    ∧ (load_video_and_transform disk path idx N nw nh rs s).1
      = (load_video_and_transform disk path idx N nw nh rs initial_state).1
    ∧ ((∃ t, (load_video_and_transform disk path idx N nw nh rs s).1 = Ret (Some t)
             ∧ messages_of new = [])
       ∨ ((load_video_and_transform disk path idx N nw nh rs s).1 = Ret None
          ∧ ∃ msg, messages_of new = [msg]
              ∧ (msg = EmptyVideo path ∨ ∃ e, msg = LoadingVideoException path e))).
Proof.
  rewrite !load_unfold. cbn zeta.
  destruct (open_raises _) as [e|].
  { eexists. cbn [fst snd events initial_state app].
    split; [done|]. split; [done|]. right. split; [done|]. by eauto. }
  destruct (read_loop _ _ _ _ _) as [[r rest] n].
  assert (Hmsg : ∀ tail,
            messages_of (EvOpen path :: replicate n EvRead ++ tail) = messages_of tail).
  { intros tail. change (EvOpen path :: ?l) with ([EvOpen path] ++ l).
    by rewrite !messages_of_app, messages_of_reads. }
  destruct r as [frames|e].
  2:{ eexists. cbn [fst snd events initial_state app].
      split; [by rewrite <- app_assoc|]. split; [done|].
      right. split; [done|]. cbn [app]. rewrite Hmsg. by eauto. }
  destruct (length frames =? 0)%nat.
  { eexists. cbn [fst snd events initial_state app].
    split; [by rewrite <- app_assoc|]. split; [done|].
    right. split; [done|]. cbn [app]. rewrite Hmsg. by eauto. }
  destruct (truncate_and_transform frames N nw nh rs) as [t|e].
  - eexists. cbn [fst snd events initial_state app].
    split; [by rewrite <- app_assoc|]. split; [done|].
    left. exists t. cbn [app]. by rewrite Hmsg.
  - eexists. cbn [fst snd events initial_state app].
    split; [by rewrite <- app_assoc|]. split; [done|].
    right. split; [done|]. cbn [app]. rewrite Hmsg. by eauto.
Qed.

Lemma getitem_unfold disk self index s :
  getitem disk self index s =
  match annotation self !! index with
  | Some item => process_one_video disk self item s
  | None =>
      (Ret [], {| video_capture := video_capture s;
                  events := events s ++ [EvPrint (ErrorWith IndexError)] |})
  end.
Proof.
  unfold getitem, mtry, mbind, lift, print, emit, mret.
  destruct (annotation self !! index) as [item|]; [|reflexivity].
  rewrite process_one_video_unfold. reflexivity.
Qed.

Lemma getitem_state_free disk self index s :
  ∃ new,
    (getitem disk self index s).1 = Ret (items_of disk self index)
    ∧ events (getitem disk self index s).2 = events s ++ new
    ∧ (length (items_of disk self index) <= 1)%nat.
Proof.
  unfold items_of. rewrite !getitem_unfold.
  destruct (annotation self !! index) as [item|].
  - rewrite !process_one_video_unfold. cbn zeta. cbn [fst snd].
    destruct (load_outcome disk (item_video item)
                (match item_frames item with
                 | Some l => l
                 | None => seqZ 0 (num_frames self)
                 end) (num_frames self) (Some (width self)) (Some (height self)) true s)
      as (new & Hev & -> & _).
    exists new. split; [done|]. split; [done|].
    destruct (load_video_and_transform _ _ _ _ _ _ _ initial_state).1 as [[t|]|e];
      cbn; lia.
  - eexists. cbn [fst snd events]. split; [done|]. split; [done|]. cbn. lia.
Qed.

End DatasetFacts.

(** The default frame list [list(range(num_frames))] selects the first
    [num_frames] frames. *)
Lemma frames_at_default_offset (N : Z) (fs : list (tensor3 Byte.byte)) (k : nat) :
  omap (keep_requested (seqZ 0 N)) (imap (λ i f, ((k + i)%nat, f)) fs)
  = map (λ f, permute_201 (swap_red_blue f)) (take (Z.to_nat N - k) fs).
Proof.
  revert k. induction fs as [|f fs IH]; intros k.
  - by rewrite take_nil.
  - rewrite imap_cons. cbn [omap list_omap keep_requested]. rewrite Nat.add_0_r.
    assert (Hext : imap ((λ i f0, ((k + i)%nat, f0)) ∘ S) fs
                   = imap (λ i f0, ((S k + i)%nat, f0)) fs).
    { apply imap_ext. intros i x _. simpl. f_equal. lia. }
    rewrite Hext, IH.
    destruct (decide (Z.of_nat k < N)) as [Hk|Hk].
    + rewrite bool_decide_eq_true_2 by (apply elem_of_seqZ; lia).
      replace (Z.to_nat N - k)%nat with (S (Z.to_nat N - S k)) by lia.
      reflexivity.
    + rewrite bool_decide_eq_false_2 by (rewrite elem_of_seqZ; lia).
      replace (Z.to_nat N - k)%nat with 0%nat by lia.
      replace (Z.to_nat N - S k)%nat with 0%nat by lia.
      reflexivity.
Qed.

Lemma frames_at_default (N : Z) (fs : list (tensor3 Byte.byte)) :
  frames_at_requested (seqZ 0 N) fs
  = map (λ f, permute_201 (swap_red_blue f)) (take (Z.to_nat N) fs).
Proof.
  unfold frames_at_requested.
  assert (Himap : imap pair fs = imap (λ i f, ((0 + i)%nat, f)) fs).
  { apply imap_ext. intros i x _. reflexivity. }
  rewrite Himap, frames_at_default_offset. by rewrite Nat.sub_0_r.
Qed.

Lemma py_last_default (N : Z) : 1 <= N → py_last (seqZ 0 N) = Ret (N - 1).
Proof.
  intros HN. unfold py_last. rewrite last_lookup, length_seqZ.
  rewrite lookup_seqZ_lt by lia. f_equal. lia.
Qed.

Section DefaultFrames.
Context `{Backend}.

(** X8. For an entry without a [frames] key, a frame budget N >= 1, target
    sizes >= 1 and a video of L >= 1 frames of one size h x w, h, w >= 1,
    with three channels, [process_one_video] returns exactly one work item.
    Its tensor has shape (3, T, height, width) with
    T = ((min(L,N)-1)//8)*8+1, 1 <= T <= N. The call opens the file, makes
    min(L,N)+1 reads, releases the capture once and prints nothing. The
    float operations may round with any unit roundoff u with
    4*u*width < 1 and 4*u*height < 1. *)
Theorem process_one_video_default_frames u disk self item fs (h w : nat) s :
  faithful u fl64 →
  (4 * u * inject_Z (Z.of_N (width self)) < 1)%Q →
  (4 * u * inject_Z (Z.of_N (height self)) < 1)%Q →
  item_frames item = None → 1 <= num_frames self →
  (1 <= width self)%N → (1 <= height self)%N → (1 <= h)%nat → (1 <= w)%nat →
  fs ≠ [] → Forall (λ f, shape3 f = (h, w, 3)%nat) fs →
  disk !! item_video item = Some {| open_raises := None; stream := map ReadFrame fs |} →
  let T := duration (Z.min (Z.of_nat (length fs)) (num_frames self)) in
  ∃ t s',
    process_one_video disk self item s
    = (Ret [{| wi_video := item_video item;
               wi_input := Unsqueeze0 t;
               wi_output := item_latent item |}], s')
    ∧ shape4 t = (3%nat, Z.to_nat T, N.to_nat (height self), N.to_nat (width self))
    ∧ 1 <= T <= num_frames self ∧ T mod 8 = 1
    ∧ events s'
      = events s ++ EvOpen (item_video item)
          :: replicate (S (Nat.min (length fs) (Z.to_nat (num_frames self)))) EvRead
          ++ [EvRelease].
Proof.
  intros Hfl Hua Hub Hframes HN Ha Hb Hh Hw Hne Hshape Hdisk T.
  set (N := num_frames self) in *.
  assert (Hdec : Forall (λ f, decodable f = true) fs).
  { eapply Forall_impl; [exact Hshape|]. intros f Hf. unfold decodable. by rewrite Hf. }
  assert (Hlen : 1 <= Z.of_nat (length fs)).
  { destruct fs; [done|cbn; lia]. }
  pose proof (duration_bounds (Z.min (Z.of_nat (length fs)) N) ltac:(lia)) as HT.
  fold T in HT.
  assert (Hmod : T mod 8 = 1).
  { subst T. unfold duration. rewrite Z.add_comm, Z.mod_add by lia. reflexivity. }
  set (chw := λ f : tensor3 Byte.byte, permute_201 (swap_red_blue f)).
  set (frames := map chw (take (Z.to_nat N) fs)).
  assert (Hlenf : Z.of_nat (length frames) = Z.min (Z.of_nat (length fs)) N).
  { subst frames. rewrite length_map, length_take. lia. }
  set (kept := take (Z.to_nat T) frames).
  assert (Hkept_len : length kept = Z.to_nat T).
  { subst kept. rewrite length_take. lia. }
  assert (Hkept_shape : Forall (λ g, shape3 g = (3, h, w)%nat) kept).
  { subst kept frames. apply Forall_take, Forall_fmap, Forall_take.
    eapply Forall_impl; [exact Hshape|]. intros f Hf. subst chw. cbn.
    unfold permute_201, swap_red_blue. rewrite Hf. reflexivity. }
  assert (Hkept_ne : kept ≠ []).
  { intros Hnil. rewrite Hnil in Hkept_len. cbn in Hkept_len. lia. }
  destruct (stack_and_transform_resize_ok u kept h w (width self) (height self)
              Hfl Hua Hub Ha Hb Hh Hw Hkept_ne Hkept_shape) as (t & Ht & Hts).
  assert (Hloop : ∃ rest,
            read_loop (seqZ 0 N) (list_to_set (seqZ 0 N)) (map ReadFrame fs) 0 []
            = (Ret frames, rest, S (Nat.min (length fs) (Z.to_nat N)))).
  { destruct (read_loop_decodable (seqZ 0 N) (N - 1) fs 0 [] (py_last_default N HN))
      as [rest Hrest].
    - intros i Hi. apply elem_of_seqZ in Hi. lia.
    - exact Hdec.
    - exists rest. change (Z.of_nat 0) with 0 in Hrest. rewrite Hrest.
      rewrite frames_at_default_offset, Nat.sub_0_r. cbn [app].
      repeat f_equal. lia. }
  destruct Hloop as [rest Hloop].
  assert (Htrunc : truncate_and_transform frames N (Some (width self))
                     (Some (height self)) true = Ret t).
  { rewrite truncate_and_transform_prefix by lia. rewrite Hlenf.
    replace (Z.min (Z.min (Z.of_nat (length fs)) N) N)
      with (Z.min (Z.of_nat (length fs)) N) by lia.
    exact Ht. }
  rewrite process_one_video_unfold. cbn zeta. rewrite Hframes.
  rewrite load_unfold. cbn zeta. rewrite Hdisk.
  cbn [default from_option id open_raises stream]. fold N. rewrite Hloop.
  destruct frames as [|g gs] eqn:Hfr.
  { cbn in Hlenf. lia. }
  cbn [length Nat.eqb]. rewrite Htrunc. cbn [fst snd events].
  eexists t, _. split; [reflexivity|]. split; [by rewrite Hts, Hkept_len|].
  split; [lia|]. split; [done|]. cbn [events]. by rewrite <- app_assoc.
Qed.

End DefaultFrames.

(** The batches are the sampler's indices cut into consecutive pieces. *)
Lemma batch_sampler_concat batch_size sampler batch :
  concat (batch_sampler batch_size sampler batch) = batch ++ sampler.
Proof.
  revert batch. induction sampler as [|idx rest IH]; intros batch; cbn [batch_sampler].
  - destruct (0 <? length batch)%nat eqn:Hlen; cbn; [done|].
    apply Nat.ltb_ge in Hlen. destruct batch; [done|cbn in Hlen; lia].
  - destruct (length (batch ++ [idx]) =? batch_size)%nat; cbn.
    + rewrite IH. cbn. by rewrite <- app_assoc.
    + rewrite IH. by rewrite <- app_assoc.
Qed.

Lemma batch_sampler_sizes batch_size sampler batch :
  (length batch < batch_size)%nat →
  Forall (λ b, (1 <= length b <= batch_size)%nat) (batch_sampler batch_size sampler batch)
  ∧ ∀ i b, batch_sampler batch_size sampler batch !! i = Some b →
      (S i < length (batch_sampler batch_size sampler batch))%nat →
      length b = batch_size.
Proof.
  revert batch. induction sampler as [|idx rest IH]; intros batch Hlen; cbn [batch_sampler].
  - destruct (0 <? length batch)%nat eqn:Hpos.
    + apply Nat.ltb_lt in Hpos. split.
      * constructor; [lia|constructor].
      * intros i b _ Hi. cbn in Hi. lia.
    + split; [constructor|]. intros i b Hb. done.
  - destruct (length (batch ++ [idx]) =? batch_size)%nat eqn:Hfull.
    + apply Nat.eqb_eq in Hfull.
      destruct (IH [] ltac:(cbn; lia)) as [Hall Hfullb]. split.
      * constructor; [lia|done].
      * intros [|i] b Hb Hi; cbn in Hb, Hi.
        -- by injection Hb as <-.
        -- apply (Hfullb i b Hb). lia.
    + apply Nat.eqb_neq in Hfull. rewrite length_app in Hfull. cbn in Hfull.
      apply IH. rewrite length_app. cbn. lia.
Qed.

Lemma pairs_of_cons smp data_loader :
  pairs_of (smp :: data_loader)
  = zip (sample_input smp) (sample_output smp) ++ pairs_of data_loader.
Proof. reflexivity. Qed.

Section DataLoaderFacts.
Context `{Backend}.

Lemma fetch_run disk self batch s :
  ∃ new,
    (fetch disk self batch s).1 = Ret (map (items_of disk self) batch)
    ∧ events (fetch disk self batch s).2 = events s ++ new.
Proof.
  revert s. induction batch as [|index rest IH]; intros s.
  - exists []. cbn. by rewrite app_nil_r.
  - cbn [fetch map]. unfold mbind.
    destruct (getitem_state_free disk self index s) as (new1 & Hr & Hev & _).
    destruct (getitem disk self index s) as [r s1]. cbn [fst snd] in Hr, Hev. subst r.
    destruct (IH s1) as (new2 & Hr2 & Hev2).
    destruct (fetch disk self rest s1) as [r2 s2]. cbn [fst snd] in Hr2, Hev2. subst r2.
    exists (new1 ++ new2). cbn. by rewrite Hev2, Hev, <- app_assoc.
Qed.

Lemma iterate_run disk self batches s :
  ∃ new,
    (iterate disk self batches s).1
    = Ret (map (λ batch, collate_fn (map (items_of disk self) batch)) batches)
    ∧ events (iterate disk self batches s).2 = events s ++ new.
Proof.
  revert s. induction batches as [|batch rest IH]; intros s.
  - exists []. cbn. by rewrite app_nil_r.
  - cbn [iterate map]. unfold mbind.
    destruct (fetch_run disk self batch s) as (new1 & Hr & Hev).
    destruct (fetch disk self batch s) as [r s1]. cbn [fst snd] in Hr, Hev. subst r.
    destruct (IH s1) as (new2 & Hr2 & Hev2).
    destruct (iterate disk self rest s1) as [r2 s2]. cbn [fst snd] in Hr2, Hev2. subst r2.
    exists (new1 ++ new2). cbn. by rewrite Hev2, Hev, <- app_assoc.
Qed.

Lemma pairs_of_collated disk self batches :
  pairs_of (map (λ batch, collate_fn (map (items_of disk self) batch)) batches)
  = concat (map (pairs_at disk self) (concat batches)).
Proof.
  induction batches as [|batch rest IH]; [done|].
  cbn [map]. rewrite pairs_of_cons, IH, collate_fn_zip.
  cbn [concat]. rewrite map_app, concat_app. f_equal.
  unfold pairs_at. clear IH.
  induction batch as [|i l IHl]; [done|].
  cbn [map concat]. by rewrite map_app, IHl.
Qed.

Lemma collated_size disk self batch :
  (length (sample_input (collate_fn (map (items_of disk self) batch))) <= length batch)%nat.
Proof.
  destruct (collate_fn_lists (map (items_of disk self) batch)) as [-> _].
  rewrite length_map.
  induction batch as [|i l IH]; [done|].
  cbn [map concat length]. rewrite length_app.
  destruct (getitem_state_free disk self i initial_state) as (_ & _ & _ & Hone).
  lia.
Qed.

(** X9. For a rank inside the world and a batch size >= 1 the loader
    returns. The (input, output path) pairs of its samples, sample after
    sample, are the work items of the indices of the rank's shard in shard
    order; a sample has at most batch_size pairs, with as many paths as
    inputs; every index of the shard is inside the manifest, and there are
    at most as many pairs as indices. *)
Theorem data_loader_yields_shard_in_order disk self (world_size rank : nat)
    (batch_size : Z) s :
  (rank < world_size)%nat → 1 <= batch_size →
  ∃ indices samples,
    shard (len self) world_size rank = Ret indices
    ∧ (build_data_loader disk self world_size rank batch_size s).1 = Ret samples
    ∧ pairs_of samples = concat (map (pairs_at disk self) indices)
    ∧ Forall (λ smp, (length (sample_input smp) <= Z.to_nat batch_size)%nat
                     ∧ length (sample_output smp) = length (sample_input smp)) samples
    ∧ (∀ i, i ∈ indices → (i < len self)%nat)
    ∧ (length (pairs_of samples) <= length indices)%nat.
Proof.
  intros Hrank Hsize.
  unfold build_data_loader, shard, mbind, lift.
  destruct (DistributedSampler_init (len self) world_size rank) as [sampler|e] eqn:Hinit.
  2:{ unfold DistributedSampler_init in Hinit.
      destruct (world_size <=? rank)%nat eqn:Hle; [|done].
      apply Nat.leb_le in Hle. lia. }
  cbn [bind].
  destruct (batch_size <=? 0) eqn:Hb; [apply Z.leb_le in Hb; lia|].
  set (B := Z.to_nat batch_size).
  set (batches := batch_sampler B (sampler_iter sampler) []).
  destruct (iterate_run disk self batches s) as (new & Hr & _).
  exists (sampler_iter sampler), (map (λ batch, collate_fn (map (items_of disk self) batch)) batches).
  assert (Hconcat : concat batches = sampler_iter sampler)
    by apply batch_sampler_concat.
  assert (Hsizes : Forall (λ b, (1 <= length b <= B)%nat) batches).
  { apply batch_sampler_sizes. cbn. lia. }
  assert (Hpairs : pairs_of (map (λ batch, collate_fn (map (items_of disk self) batch)) batches)
                   = concat (map (pairs_at disk self) (sampler_iter sampler))).
  { by rewrite pairs_of_collated, Hconcat. }
  split; [done|]. split; [exact Hr|]. split; [exact Hpairs|]. split; [|split].
  - apply Forall_fmap. eapply Forall_impl; [exact Hsizes|].
    intros batch [_ Hle]. cbn. split.
    + etrans; [apply collated_size|done].
    + destruct (collate_fn_lists (map (items_of disk self) batch)) as [-> ->].
      by rewrite !length_map.
  - intros i Hi. apply (shard_range (len self) world_size rank (sampler_iter sampler));
      [done| |done].
    unfold shard. by rewrite Hinit.
  - rewrite Hpairs. clear.
    induction (sampler_iter sampler) as [|i l IH]; [done|].
    cbn [map concat length]. rewrite length_app. unfold pairs_at at 1.
    rewrite length_map.
    destruct (getitem_state_free disk self i initial_state) as (_ & _ & _ & Hone).
    lia.
Qed.

End DataLoaderFacts.

Section QueueFacts.
Context `{Runtime}.
Local Open Scope nat_scope.

Lemma encode_items_app items1 items2 s :
  encode_items (items1 ++ items2) s =
  match encode_items items1 s with
  | (Ret _, s') => encode_items items2 s'
  | (Raise e, s') => (Raise e, s')
  end.
Proof.
  revert s. induction items1 as [|[x p] rest IH]; intros s; [done|].
  cbn [app]. rewrite !encode_items_cons.
  destruct (encode_latent (encode_calls s) x); [apply IH|done].
Qed.

Lemma encode_loop_pairs data_loader s :
  encode_loop data_loader s = encode_items (pairs_of data_loader) s.
Proof.
  revert s. induction data_loader as [|smp rest IH]; intros s; [done|].
  change (pairs_of (smp :: rest))
    with (zip (sample_input smp) (sample_output smp) ++ pairs_of rest).
  rewrite encode_items_app. cbn [encode_loop]. unfold mbind.
  destruct (encode_items _ s) as [[[]|e] s']; [apply IH|done].
Qed.

(** One run of the inner loop: the futures it appends, one per item up to
    the first encode that raises. *)
Lemma encode_items_queue items s :
  ∃ new,
    task_queue (encode_items items s).2 = task_queue s ++ new
    ∧ (∀ i f, new !! i = Some f →
         ∃ x l, items !! i = Some (x, fut_path f)
           ∧ encode_latent (encode_calls s + i) x = Ret l
           ∧ fut_tensor f = to_storage l
           ∧ fut_id f = length (task_queue s) + i)
    ∧ match (encode_items items s).1 with
      | Ret _ =>
          length new = length items
          ∧ encode_calls (encode_items items s).2 = encode_calls s + length items
      | Raise e =>
          (∃ x p, items !! length new = Some (x, p)
             ∧ encode_latent (encode_calls s + length new) x = Raise e)
          ∧ encode_calls (encode_items items s).2 = S (encode_calls s + length new)
      end.
Proof.
  revert s. induction items as [|[x p] rest IH]; intros s.
  - exists []. cbn. rewrite app_nil_r. split; [done|]. split; [done|]. split; [done|lia].
  - rewrite encode_items_cons.
    destruct (encode_latent (encode_calls s) x) as [l|e] eqn:Henc.
    + cbn zeta.
      set (f := {| fut_id := length (task_queue s); fut_tensor := to_storage l;
                   fut_path := p |}).
      set (s1 := {| task_queue := task_queue s ++ [f]; files := files s;
                    encode_calls := S (encode_calls s);
                    log := (log s ++ [EvEncoded (to_storage l) p]) ++ [EvSubmitted f] |}).
      destruct (IH s1) as (new & Hq & Hnew & Hres).
      exists (f :: new). split; [|split].
      * rewrite Hq. cbn. by rewrite <- app_assoc.
      * intros [|i] g Hg; cbn in Hg.
        -- injection Hg as <-. exists x, l. rewrite !Nat.add_0_r. done.
        -- destruct (Hnew i g Hg) as (x' & l' & Hit & Hen & Hten & Hid).
           exists x', l'. cbn [lookup list_lookup]. split; [exact Hit|].
           cbn [encode_calls task_queue s1] in Hen, Hid.
           rewrite length_app in Hid. cbn in Hid.
           split; [|split; [done|lia]].
           by replace (encode_calls s + S i) with (S (encode_calls s) + i) by lia.
      * destruct (encode_items rest s1).1 as [[]|e].
        -- destruct Hres as [Hlen Hcalls]. cbn [length encode_calls s1] in *.
           split; lia.
        -- destruct Hres as [(x' & p' & Hit & Hen) Hcalls].
           cbn [length encode_calls s1] in *. split; [|lia].
           exists x', p'. split; [exact Hit|].
           by replace (encode_calls s + S (length new))
             with (S (encode_calls s) + length new) by lia.
    + exists []. cbn [fst snd task_queue encode_calls length].
      rewrite app_nil_r, Nat.add_0_r. split; [done|]. split; [done|].
      split; [|done]. by exists x, p.
Qed.

(** X11. In every run of the driver the i-th future of the task queue has
    id i and carries the path of the i-th pair of the loader (its samples
    flattened in order) and the stored form of the latent of the i-th
    encode call, which was made on that pair's input. The paths of the
    queue are a prefix of the paths of the loader: all of them, with one
    encode call each, when the run returns, and those before the pair whose
    encode raised otherwise, that call being the last one made. *)
Theorem main_encodes_pairs_in_order data_loader fs :
  let out := main data_loader (start fs) in
  let queue := task_queue out.2 in
  let pairs := pairs_of data_loader in
  (∀ i f, queue !! i = Some f →
     ∃ x l, pairs !! i = Some (x, fut_path f)
       ∧ encode_latent i x = Ret l
       ∧ fut_tensor f = to_storage l
       ∧ fut_id f = i)
  ∧ map fut_path queue = take (length queue) (map snd pairs)
  ∧ (out.1 = Ret tt →
     length queue = length pairs ∧ encode_calls out.2 = length pairs)
  ∧ (∀ e, out.1 = Raise e →
     ∃ x p, pairs !! length queue = Some (x, p)
       ∧ encode_latent (length queue) x = Raise e
       ∧ encode_calls out.2 = S (length queue)).
Proof.
  intros out queue pairs. subst out queue pairs.
  rewrite main_unfold. cbn zeta.
  set (s0 := {| task_queue := []; files := fs; encode_calls := 0; log := [EvBarrier] |}).
  rewrite encode_loop_pairs.
  destruct (encode_items_queue (pairs_of data_loader) s0) as (new & Hq & Hnew & Hres).
  cbn [task_queue encode_calls s0 app length Nat.add] in Hq, Hnew, Hres.
  destruct (encode_items (pairs_of data_loader) s0) as [r s1].
  cbn [fst snd] in Hq, Hres.
  assert (Hqueue : ∀ i f, task_queue s1 !! i = Some f →
            ∃ x l, pairs_of data_loader !! i = Some (x, fut_path f)
              ∧ encode_latent i x = Ret l
              ∧ fut_tensor f = to_storage l
              ∧ fut_id f = i).
  { rewrite Hq. exact Hnew. }
  assert (Hpaths : map fut_path (task_queue s1)
                   = take (length (task_queue s1)) (map snd (pairs_of data_loader))).
  { apply list_eq. intros i. rewrite list_lookup_fmap.
    destruct (task_queue s1 !! i) as [f|] eqn:Hf; cbn.
    - destruct (Hqueue i f Hf) as (x & l & Hit & _).
      rewrite lookup_take_lt by (by eapply lookup_lt_Some).
      by rewrite list_lookup_fmap, Hit.
    - apply lookup_ge_None in Hf. symmetry. apply lookup_ge_None.
      rewrite length_take. lia. }
  destruct r as [[]|e]; cbn [fst snd task_queue encode_calls].
  - split; [exact Hqueue|]. split; [exact Hpaths|]. split; [|done].
    intros _. rewrite Hq. done.
  - split; [exact Hqueue|]. split; [exact Hpaths|]. split; [done|].
    intros e' [= <-]. destruct Hres as [(x & p & Hit & Hen) Hcalls].
    exists x, p. by rewrite Hq.
Qed.

End QueueFacts.

Section PipelineFacts.
Context `{Backend} `{Runtime}.

(** A work item of a manifest index carries the paths of that entry. *)
Lemma items_of_entry disk self index it :
  it ∈ items_of disk self index →
  ∃ item, annotation self !! index = Some item
    ∧ wi_video it = item_video item ∧ wi_output it = item_latent item.
Proof.
  unfold items_of. rewrite getitem_unfold.
  destruct (annotation self !! index) as [item|].
  - rewrite process_one_video_unfold. cbn zeta. cbn [fst].
    destruct (load_video_and_transform _ _ _ _ _ _ _ _).1 as [[t|]|e].
    + intros Hin. apply list_elem_of_singleton in Hin as ->. by exists item.
    + intros Hin. by apply elem_of_nil in Hin.
    + intros Hin. by apply elem_of_nil in Hin.
  - cbn. intros Hin. by apply elem_of_nil in Hin.
Qed.

(** X13. The loader and the driver together: for a rank inside the world
    and a batch size >= 1, the paths of the submitted futures are a prefix
    of the latent paths of the shard's work items in shard order, all of
    them when the run returns. There are at most as many futures as indices
    in the shard, and the path of every future is the [latent] of a
    manifest entry of the shard. *)
Theorem pipeline_submits_shard_entries disk self (world_size rank : nat)
    (batch_size : Z) s fs :
  (rank < world_size)%nat → 1 <= batch_size →
  ∃ indices samples,
    shard (len self) world_size rank = Ret indices
    ∧ (build_data_loader disk self world_size rank batch_size s).1 = Ret samples
    ∧ let out := main samples (start fs) in
      let queue := task_queue out.2 in
      let paths := map snd (concat (map (pairs_at disk self) indices)) in
      map fut_path queue = take (length queue) paths
      ∧ (out.1 = Ret tt → map fut_path queue = paths)
      ∧ (length queue <= length indices)%nat
      ∧ ∀ f, f ∈ queue →
          ∃ index item, index ∈ indices
            ∧ annotation self !! index = Some item
            ∧ fut_path f = item_latent item.
Proof.
  intros Hrank Hsize.
  unfold build_data_loader, shard, mbind, lift.
  destruct (DistributedSampler_init (len self) world_size rank) as [sampler|e] eqn:Hinit.
  2:{ unfold DistributedSampler_init in Hinit.
      destruct (world_size <=? rank)%nat eqn:Hle; [|done].
      apply Nat.leb_le in Hle. lia. }
  cbn [bind].
  destruct (batch_size <=? 0) eqn:Hb; [apply Z.leb_le in Hb; lia|].
  set (batches := batch_sampler (Z.to_nat batch_size) (sampler_iter sampler) []).
  destruct (iterate_run disk self batches s) as (new & Hr & _).
  set (samples := map (λ batch, collate_fn (map (items_of disk self) batch)) batches) in *.
  exists (sampler_iter sampler), samples.
  split; [done|]. split; [exact Hr|].
  assert (Hpairs : pairs_of samples
                   = concat (map (pairs_at disk self) (sampler_iter sampler))).
  { subst samples batches. by rewrite pairs_of_collated, batch_sampler_concat. }
  cbn zeta. rewrite <- Hpairs. clear Hr new.
  rewrite main_unfold. cbn zeta.
  set (s0 := {| task_queue := []; files := fs; encode_calls := 0; log := [EvBarrier] |}).
  rewrite encode_loop_pairs.
  destruct (encode_items_queue (pairs_of samples) s0) as (queue & Hq & Hnew & Hres).
  cbn [task_queue encode_calls s0 app length Nat.add] in Hq, Hnew, Hres.
  destruct (encode_items (pairs_of samples) s0) as [r s1].
  cbn [fst snd] in Hq, Hres. subst queue.
  assert (Hentry : ∀ i f, task_queue s1 !! i = Some f →
            ∃ x, pairs_of samples !! i = Some (x, fut_path f)).
  { intros i f Hf. destruct (Hnew i f Hf) as (x & l & Hit & _). by exists x. }
  assert (Hle : (length (task_queue s1) <= length (pairs_of samples))%nat).
  { destruct (task_queue s1) as [|f0 q0] eqn:Hq0 using rev_ind; [cbn; lia|].
    rewrite length_app. cbn.
    assert (Hlast : (q0 ++ [f0]) !! length q0 = Some f0).
    { by rewrite lookup_app_r, Nat.sub_diag by lia. }
    apply Hentry in Hlast as [x Hlast]. apply lookup_lt_Some in Hlast. lia. }
  assert (Hpaths : map fut_path (task_queue s1)
                   = take (length (task_queue s1)) (map snd (pairs_of samples))).
  { apply list_eq. intros i. rewrite list_lookup_fmap.
    destruct (task_queue s1 !! i) as [f|] eqn:Hf; cbn.
    - rewrite lookup_take_lt by (by eapply lookup_lt_Some).
      destruct (Hentry i f Hf) as [x Hx].
      by rewrite list_lookup_fmap, Hx.
    - apply lookup_ge_None in Hf. symmetry. apply lookup_ge_None.
      rewrite length_take. lia. }
  assert (Hshort : (length (pairs_of samples) <= length (sampler_iter sampler))%nat).
  { rewrite Hpairs. clear.
    induction (sampler_iter sampler) as [|i l IH]; [done|].
    cbn [map concat length]. rewrite length_app. unfold pairs_at at 1.
    rewrite length_map.
    destruct (getitem_state_free disk self i initial_state) as (_ & _ & _ & Hone).
    lia. }
  assert (Hmember : ∀ f, f ∈ task_queue s1 →
            ∃ index item, index ∈ sampler_iter sampler
              ∧ annotation self !! index = Some item
              ∧ fut_path f = item_latent item).
  { intros f Hf. apply list_elem_of_lookup in Hf as [i Hf].
    apply Hentry in Hf as [x Hf]. apply list_elem_of_lookup_2 in Hf.
    rewrite Hpairs in Hf.
    apply list_elem_of_In, in_concat in Hf as (ps & Hps & Hin).
    apply list_elem_of_In, list_elem_of_fmap in Hps as (index & -> & Hindex).
    apply list_elem_of_In in Hin.
    unfold pairs_at in Hin.
    apply list_elem_of_fmap in Hin as (it & Heq & Hit).
    injection Heq as _ Hpath.
    destruct (items_of_entry disk self index it Hit) as (item & Hitem & _ & Hout).
    exists index, item. split; [done|]. split; [done|]. congruence. }
  destruct r as [[]|e]; cbn [fst snd task_queue].
  - split; [exact Hpaths|]. split; [|split; [lia|exact Hmember]].
    intros _. rewrite Hpaths. destruct Hres as [Hlen _].
    rewrite Hlen, <- (length_map snd). apply firstn_all.
  - split; [exact Hpaths|]. split; [done|]. split; [lia|exact Hmember].
Qed.

End PipelineFacts.

Section PaddingFacts.
Local Open Scope nat_scope.

(** The positions of the padded index list, rank after rank, are all of
    its positions. *)
Lemma strided_positions W C :
  0 < W →
  (r ← seq 0 W; map (λ j, r + j * W) (seq 0 C)) ≡ₚ seq 0 (C * W).
Proof.
  intros HW. apply list.NoDup_Permutation.
  - apply NoDup_bind; [| |apply NoDup_seq].
    + intros r1 r2 p Hr1 Hr2 Hp1 Hp2.
      apply elem_of_seq in Hr1, Hr2.
      apply list_elem_of_fmap in Hp1 as (j1 & -> & _).
      apply list_elem_of_fmap in Hp2 as (j2 & Heq & _).
      assert (Hm : (r1 + j1 * W) mod W = (r2 + j2 * W) mod W) by (by rewrite Heq).
      rewrite !Nat.Div0.mod_add, !Nat.mod_small in Hm by lia. done.
    + intros r _. apply NoDup_fmap_2; [|apply NoDup_seq].
      intros j1 j2 Hj. nia.
  - apply NoDup_seq.
  - intros p. rewrite list_elem_of_bind, elem_of_seq. split.
    + intros (r & Hp & Hr). apply elem_of_seq in Hr.
      apply list_elem_of_fmap in Hp as (j & -> & Hj). apply elem_of_seq in Hj. nia.
    + intros [_ Hp]. exists (p mod W).
      pose proof (Nat.mod_upper_bound p W ltac:(lia)) as Hm.
      pose proof (Nat.div_mod_eq p W) as Hdm.
      split; [|apply elem_of_seq; lia].
      apply list_elem_of_fmap. exists (p / W). split; [lia|].
      apply elem_of_seq. split; [lia|].
      cbn. apply Nat.Div0.div_lt_upper_bound. lia.
Qed.

Lemma world_indices_positions M W :
  world_indices M W
  = map (λ p, p mod M) (r ← seq 0 W; map (λ j, r + j * W) (seq 0 (ceil_div M W))).
Proof.
  unfold world_indices.
  assert (Hgen : ∀ l, Forall (λ r, r < W) l →
    (r ← l; match shard M W r with Ret indices => indices | Raise _ => [] end)
    = map (λ p, p mod M) (r ← l; map (λ j, r + j * W) (seq 0 (ceil_div M W)))).
  { induction 1 as [|r l Hr Hl IH]; [done|].
    rewrite !bind_cons, map_app, <- IH.
    rewrite (shard_eq M W r Hr). by rewrite map_map. }
  apply Hgen. apply Forall_forall. intros r Hr. apply elem_of_seq in Hr. lia.
Qed.

(** X14. Over the W >= 1 ranks of a world a manifest of M entries is
    visited ceil(M/W)*W = M + pad times, with pad < W: the visited indices
    are, up to order, p mod M for p < M + pad. With W <= M every entry is
    visited once and the first pad entries once more; pad is 0 exactly when
    W divides M. *)
Theorem padding_repeats_first_entries (M W : nat) :
  1 ≤ W →
  let pad := ceil_div M W * W - M in
  length (world_indices M W) = M + pad
  ∧ pad < W
  ∧ world_indices M W ≡ₚ map (λ p, p mod M) (seq 0 (M + pad))
  ∧ (W ≤ M → world_indices M W ≡ₚ seq 0 M ++ seq 0 pad)
  ∧ (pad = 0 ↔ M mod W = 0).
Proof.
  intros HW pad.
  destruct (ceil_div_spec M W ltac:(lia)) as [Hhi Hlo].
  assert (Hsize : ceil_div M W * W = M + pad) by (subst pad; lia).
  assert (Hperm : world_indices M W ≡ₚ map (λ p, p mod M) (seq 0 (M + pad))).
  { rewrite world_indices_positions, <- Hsize.
    apply fmap_Permutation, strided_positions. lia. }
  split; [by rewrite Hperm, length_map, length_seq|].
  split; [lia|]. split; [exact Hperm|]. split.
  - intros HM. rewrite Hperm, seq_app, map_app. cbn [Nat.add].
    apply Permutation_app.
    + assert (Hid : map (λ p, p mod M) (seq 0 M) = seq 0 M); [|by rewrite Hid].
      rewrite <- (map_id (seq 0 M)) at 2. apply map_ext_in.
      intros p Hp. apply in_seq in Hp. apply Nat.mod_small. lia.
    + assert (Hshift : map (λ p, p mod M) (seq M pad) = seq 0 pad); [|by rewrite Hshift].
      apply list_eq. intros i. rewrite list_lookup_fmap.
      destruct (decide (i < pad)) as [Hi|Hi].
      * rewrite !lookup_seq_lt by done. cbn. f_equal.
        replace (M + i) with (i + 1 * M) by lia.
        rewrite Nat.Div0.mod_add. apply Nat.mod_small. lia.
      * by rewrite !lookup_seq_ge by lia.
  - split.
    + intros Hpad. assert (Hm : (ceil_div M W * W) mod W = 0)
        by apply Nat.Div0.mod_mul.
      rewrite Hsize, Hpad, Nat.add_0_r in Hm. exact Hm.
    + intros Hmod. rewrite (ceil_div_exact M W ltac:(lia) Hmod) in Hsize.
      pose proof (Nat.div_mod_eq M W) as Hdm. lia.
Qed.

End PaddingFacts.

(** *** Instances on the sample inputs *)

Lemma duration_idempotent_monotone_witness :
  1 <= 30 ∧ 30 <= 33
  ∧ duration 30 = 25 ∧ duration 33 = 33 ∧ duration (duration 30) = duration 30.
Proof.
  split; [lia|]. split; [lia|]. split; [reflexivity|]. split; [reflexivity|].
  exact (proj1 (duration_idempotent_monotone 30 33 ltac:(lia) ltac:(lia))).
Defined.

Lemma load_collects_up_to_last_index_witness :
  let fs := replicate 4 (solid_frame 2 4 Byte.x80 Byte.x10 Byte.xff) in
  [3; 0; 3; 1] ≠ []
  ∧ (read_loop [3; 0; 3; 1] (list_to_set [3; 0; 3; 1]) (map ReadFrame fs) 0 []).1.1
    = Ret (frames_at_requested [0; 1] fs)
  ∧ (read_loop [3; 0; 3; 1] (list_to_set [3; 0; 3; 1]) (map ReadFrame fs) 0 []).2 = 3%nat
  ∧ length (frames_at_requested [0; 1] fs) = 2%nat.
Proof.
  intros fs. split; [done|].
  destruct (@load_collects_up_to_last_index exact_backend
              {[ "b.mp4"%string := {| open_raises := None; stream := map ReadFrame fs |} ]}
              "b.mp4" [3; 0; 3; 1] fs 121 None None false initial_state
              ltac:(done) ltac:(repeat constructor) eq_refl)
    as (m & rest & Hm & Hrun & Hsame & _).
  injection Hm as <-.
  rewrite Hrun. split; [|split; reflexivity]. cbn [fst].
  rewrite (Hsame [0; 1]); [reflexivity|].
  intros i. rewrite !elem_of_cons, !elem_of_nil. lia.
Defined.

Lemma load_reports_empty_video_witness :
  [0; 1] ≠ []
  ∧ (@load_video_and_transform exact_backend sample_disk "nofile.mp4" [0; 1] 121
       None None false initial_state).1 = Ret None
  ∧ EvPrint (EmptyVideo "nofile.mp4")
    ∈ events (@load_video_and_transform exact_backend sample_disk "nofile.mp4" [0; 1] 121
                None None false initial_state).2.
Proof.
  split; [done|].
  destruct (@load_reports_empty_video exact_backend sample_disk "nofile.mp4" [0; 1] []
              121 None None false initial_state
              ltac:(done) ltac:(constructor) eq_refl)
    as (m & new & Hm & Hev & Hiff & Hthen).
  assert (Hin : EvPrint (EmptyVideo "nofile.mp4") ∈ new).
  { apply Hiff. intros i _ _. cbn. lia. }
  split; [exact (proj1 (Hthen Hin))|].
  rewrite Hev. cbn [events initial_state app]. exact Hin.
Defined.

Lemma resize_without_target_yields_nothing_witness :
  ((None : option N) = None ∨ Some 384%N = None)
  ∧ (@load_video_and_transform exact_backend sample_disk "a.mp4" (seqZ 0 30) 25
       None (Some 384%N) true initial_state).1 = Ret None.
Proof.
  split; [by left|].
  exact (proj1 (proj2 (proj2 (@resize_without_target_yields_nothing exact_backend
           sample_disk "a.mp4" (seqZ 0 30) 25 None (Some 384%N) initial_state
           (or_introl eq_refl))))).
Defined.

Lemma process_one_video_default_frames_witness :
  let self := {| annotation := []; width := 3; height := 3; num_frames := 25 |} in
  let item := {| item_video := "a.mp4"; item_latent := "a.pt"; item_frames := None |} in
  faithful 0 (@fl64 exact_backend)
  ∧ ∃ t s',
      @process_one_video exact_backend sample_disk self item initial_state
      = (Ret [{| wi_video := "a.mp4"; wi_input := Unsqueeze0 t; wi_output := "a.pt" |}], s')
      ∧ shape4 t = (3, 25, 3, 3)%nat
      ∧ length (events s') = 28%nat.
Proof.
  intros self item. split; [exact exact_faithful|].
  destruct (@process_one_video_default_frames exact_backend 0 sample_disk self item
              (replicate 30 (solid_frame 2 4 Byte.x80 Byte.x10 Byte.xff)) 2 4
              initial_state exact_faithful
              ltac:(reflexivity) ltac:(reflexivity) eq_refl ltac:(cbn; lia)
              ltac:(cbn; lia) ltac:(cbn; lia) ltac:(lia) ltac:(lia)
              ltac:(done) ltac:(repeat constructor) ltac:(vm_compute; reflexivity))
    as (t & s' & Hrun & Hshape & _ & _ & Hev).
  exists t, s'. split; [exact Hrun|]. split; [exact Hshape|].
  rewrite Hev. reflexivity.
Defined.

Lemma data_loader_yields_shard_in_order_witness :
  let self := {| annotation :=
                   [ {| item_video := "a.mp4"; item_latent := "a.pt"; item_frames := None |};
                     {| item_video := "nofile.mp4"; item_latent := "b.pt"; item_frames := None |};
                     {| item_video := "a.mp4"; item_latent := "c.pt"; item_frames := None |} ];
                 width := 3; height := 3; num_frames := 25 |} in
  (0 < 2)%nat ∧ 1 <= 4
  ∧ shard (len self) 2 0 = Ret [0; 2]%nat
  ∧ ∃ samples,
      (@build_data_loader exact_backend sample_disk self 2 0 4 initial_state).1
      = Ret samples
      ∧ map snd (pairs_of samples) = ["a.pt"; "c.pt"]%string.
Proof.
  intros self. split; [lia|]. split; [lia|]. split; [reflexivity|].
  destruct (@data_loader_yields_shard_in_order exact_backend sample_disk self 2 0 4
              initial_state ltac:(lia) ltac:(lia))
    as (indices & samples & Hshard & Hrun & Hpairs & _).
  injection Hshard as <-.
  exists samples. split; [exact Hrun|]. rewrite Hpairs. reflexivity.
Defined.

Lemma padding_repeats_first_entries_witness :
  (1 <= 2)%nat
  ∧ world_indices 3 2 = [0; 2; 1; 0]%nat
  ∧ world_indices 3 2 ≡ₚ seq 0 3 ++ seq 0 1.
Proof.
  split; [lia|]. split; [reflexivity|].
  destruct (padding_repeats_first_entries 3 2 ltac:(lia)) as (_ & _ & _ & Hperm & _).
  apply Hperm. lia.
Defined.

Lemma pipeline_submits_shard_entries_witness :
  let self := {| annotation :=
                   [ {| item_video := "a.mp4"; item_latent := "a.pt"; item_frames := None |};
                     {| item_video := "nofile.mp4"; item_latent := "b.pt"; item_frames := None |};
                     {| item_video := "a.mp4"; item_latent := "c.pt"; item_frames := None |} ];
                 width := 3; height := 3; num_frames := 25 |} in
  (0 < 2)%nat ∧ 1 <= 4
  ∧ ∃ samples,
      (@build_data_loader exact_backend sample_disk self 2 0 4 initial_state).1
      = Ret samples
      ∧ (@main sample_runtime samples (@start sample_runtime ∅)).1 = Ret tt
      ∧ map fut_path (task_queue (@main sample_runtime samples (@start sample_runtime ∅)).2)
        = ["a.pt"; "c.pt"]%string.
Proof.
  intros self. split; [lia|]. split; [lia|].
  destruct (@pipeline_submits_shard_entries exact_backend sample_runtime sample_disk self
              2 0 4 initial_state ∅ ltac:(lia) ltac:(lia))
    as (indices & samples & Hshard & Hrun & Hpaths & Hall & _).
  injection Hshard as <-.
  assert (Hret : (@main sample_runtime samples (@start sample_runtime ∅)).1 = Ret tt).
  { rewrite main_unfold. cbn zeta.
    pose proof (@encode_loop_total sample_runtime samples
                  {| task_queue := []; files := ∅; encode_calls := 0;
                     log := [EvBarrier] |}
                  ltac:(intros k x0; by exists x0)) as Htot.
    destruct (encode_loop samples _) as [[[]|e] s1]; [reflexivity|discriminate Htot]. }
  exists samples. split; [exact Hrun|]. split; [exact Hret|].
  rewrite (Hall Hret). reflexivity.
Defined.

(** ** The functions on any manifest value *)

Lemma py_set_ints l : py_set (ints l) = Ret (map (λ z, JNum (inject_Z z)) l).
Proof.
  unfold ints, py_set.
  assert (Hh : forallb hashable (map (λ z, JNum (inject_Z z)) l) = true)
    by (by induction l).
  by rewrite Hh.
Qed.

Lemma int_gt_int i z : int_gt i (JNum (inject_Z z)) = Ret (z <? i).
Proof.
  unfold int_gt. cbn. f_equal.
  destruct (Qle_bool (inject_Z i) (inject_Z z)) eqn:Hle; cbn; symmetry.
  - apply Qle_bool_iff in Hle. rewrite <- Zle_Qle in Hle. apply Z.ltb_ge. lia.
  - apply Z.ltb_lt. apply Z.nle_gt. intros Hzi.
    rewrite Zle_Qle in Hzi. apply Qle_bool_iff in Hzi. congruence.
Qed.

Lemma int_in_ints i l :
  int_in i (map (λ z, JNum (inject_Z z)) l)
  = bool_decide (i ∈ (list_to_set l : gset Z)).
Proof.
  unfold int_in. induction l as [|z l IH].
  - cbn [map existsb]. symmetry. apply bool_decide_eq_false_2.
    rewrite elem_of_list_to_set. apply not_elem_of_nil.
  - cbn [map existsb as_number]. rewrite IH.
    destruct (Qeq_bool (inject_Z i) (inject_Z z)) eqn:Heq; cbn [orb].
    + apply Qeq_bool_iff in Heq. apply (proj1 (inject_Z_injective _ _)) in Heq. subst z.
      symmetry. apply bool_decide_eq_true_2.
      rewrite elem_of_list_to_set. left.
    + assert (Hne : i ≠ z).
      { intros ->. assert (Ht : Qeq_bool (inject_Z z) (inject_Z z) = true)
          by (apply Qeq_bool_iff; reflexivity). congruence. }
      apply bool_decide_ext. rewrite !elem_of_list_to_set, elem_of_cons.
      split; [by right|intros [?|?]; done].
Qed.

Lemma py_last_item_ints l :
  py_last_item (ints l) = (let! m := py_last l in Ret (JNum (inject_Z m))).
Proof.
  unfold ints, py_last_item, py_last.
  change (map (λ z, JNum (inject_Z z)) l) with ((λ z, JNum (inject_Z z)) <$> l).
  rewrite fmap_last. by destruct (last l).
Qed.

(** On a list of ints the loop of [Py] is the loop above. *)
Lemma Py_read_loop_ints l unread k acc :
  Py.read_loop (ints l) (map (λ z, JNum (inject_Z z)) l) unread k acc
  = read_loop l (list_to_set l) unread k acc.
Proof.
  revert k acc. induction unread as [|[frame|e] rest IH]; intros k acc; [done| |done].
  cbn [Py.read_loop read_loop]. rewrite py_last_item_ints.
  destruct (py_last l) as [m|e]; cbn [bind]; [|done].
  rewrite int_gt_int. destruct (m <? k); [done|].
  rewrite int_in_ints.
  destruct (bool_decide _); [destruct (to_chw frame); cbn [bind]|];
    by rewrite ?IH.
Qed.

Section PyFacts.
Context `{Backend}.

Lemma Py_load_unfold disk path frame_indexs N nw nh rs s :
  Py.load_video_and_transform disk path frame_indexs N nw nh rs s =
  match py_set frame_indexs with
  | Raise e => (Raise e, {| video_capture := None; events := events s |})
  | Ret frame_indexes_set =>
      let file := default missing_file (disk !! path) in
      match open_raises file with
      | Some e =>
          (Ret None,
           {| video_capture := None;
              events := events s ++ [EvPrint (LoadingVideoException path e)] |})
      | None =>
          let '(r, rest, n) :=
            Py.read_loop frame_indexs frame_indexes_set (stream file) 0 [] in
          let seen := events s ++ EvOpen path :: replicate n EvRead in
          match r with
          | Raise e =>
              (Ret None,
               {| video_capture := Some rest;
                  events := seen ++ [EvPrint (LoadingVideoException path e); EvRelease] |})
          | Ret frames =>
              if (length frames =? 0)%nat then
                (Ret None,
                 {| video_capture := Some rest;
                    events := seen ++ [EvRelease; EvPrint (EmptyVideo path)] |})
              else
                match truncate_and_transform frames N nw nh rs with
                | Ret t =>
                    (Ret (Some t),
                     {| video_capture := Some rest; events := seen ++ [EvRelease] |})
                | Raise e =>
                    (Ret None,
                     {| video_capture := Some rest;
                        events := seen ++ [EvRelease;
                                           EvPrint (LoadingVideoException path e);
                                           EvRelease] |})
                end
          end
      end
  end.
Proof.
  unfold Py.load_video_and_transform, cv2_VideoCapture, Py.read_frames, release, print,
    emit, set_video_capture, get_video_capture, mtry, mbind, mret, mraise, lift.
  cbn [video_capture events].
  destruct (py_set frame_indexs) as [frame_indexes_set|e]; [|reflexivity].
  destruct (open_raises (default missing_file (disk !! path))) as [e|]; cbn.
  - reflexivity.
  - destruct (Py.read_loop frame_indexs frame_indexes_set
                (stream (default missing_file (disk !! path))) 0 []) as [[r rest] n].
    destruct r as [frames|e]; cbn.
    + destruct (length frames =? 0)%nat; cbn.
      * by rewrite <- !app_assoc.
      * destruct (truncate_and_transform frames N nw nh rs); cbn;
          by rewrite <- !app_assoc.
    + by rewrite <- !app_assoc.
Qed.

(** On a list of ints the function of [Py] is the function above. *)
Lemma Py_load_ints disk path idx N nw nh rs s :
  Py.load_video_and_transform disk path (ints idx) N nw nh rs s
  = load_video_and_transform disk path idx N nw nh rs s.
Proof.
  rewrite Py_load_unfold, load_unfold, py_set_ints. cbn zeta.
  by rewrite Py_read_loop_ints.
Qed.

(** What [set] rejects. *)
Lemma py_set_raises frame_indexs e : py_set frame_indexs = Raise e → e = TypeError.
Proof.
  destruct frame_indexs as [|b|q|str|l|d]; cbn; try (by intros [= <-]); try done.
  destruct (forallb hashable l); [done|by intros [= <-]].
Qed.

(** The outcome of a call and what it printed. *)
Lemma Py_load_outcome disk path frame_indexs N nw nh rs s :
  let out := Py.load_video_and_transform disk path frame_indexs N nw nh rs s in
  match py_set frame_indexs with
  | Raise _ => out.1 = Raise TypeError ∧ events out.2 = events s
  | Ret _ =>
      ∃ new, events out.2 = events s ++ new
        ∧ ((∃ t, out.1 = Ret (Some t) ∧ messages_of new = [])
           ∨ (out.1 = Ret None
              ∧ ∃ msg, messages_of new = [msg]
                  ∧ (msg = EmptyVideo path ∨ ∃ e, msg = LoadingVideoException path e)))
  end.
Proof.
  intros out. subst out. rewrite Py_load_unfold.
  destruct (py_set frame_indexs) as [frame_indexes_set|e] eqn:Hset.
  2:{ apply py_set_raises in Hset as ->. done. }
  cbn zeta.
  destruct (open_raises _) as [e|].
  { eexists. cbn [fst snd events]. split; [done|]. right. split; [done|]. by eauto. }
  destruct (Py.read_loop _ _ _ _ _) as [[r rest] n].
  assert (Hmsg : ∀ tail,
            messages_of (EvOpen path :: replicate n EvRead ++ tail) = messages_of tail).
  { intros tail. change (EvOpen path :: ?l) with ([EvOpen path] ++ l).
    by rewrite !messages_of_app, messages_of_reads. }
  destruct r as [frames|e].
  2:{ eexists. cbn [fst snd events]. split; [by rewrite <- app_assoc|].
      right. split; [done|]. cbn [app]. rewrite Hmsg. by eauto. }
  destruct (length frames =? 0)%nat.
  { eexists. cbn [fst snd events]. split; [by rewrite <- app_assoc|].
    right. split; [done|]. cbn [app]. rewrite Hmsg. by eauto. }
  destruct (truncate_and_transform frames N nw nh rs) as [t|e].
  - eexists. cbn [fst snd events]. split; [by rewrite <- app_assoc|].
    left. exists t. cbn [app]. by rewrite Hmsg.
  - eexists. cbn [fst snd events]. split; [by rewrite <- app_assoc|].
    right. split; [done|]. cbn [app]. rewrite Hmsg. by eauto.
Qed.

(** [process_one_video] on a line with both keys. *)
Lemma Py_process_one_video_unfold disk self item video latent s :
  Py.item_video item = Some video → Py.item_latent item = Some latent →
  let loaded :=
    Py.load_video_and_transform disk video
      (match Py.item_frames item with
       | Some value => value
       | None => ints (seqZ 0 (Py.num_frames self))
       end)
      (Py.num_frames self) (Some (Py.width self)) (Some (Py.height self)) true s in
  Py.process_one_video disk self item s
  = match loaded.1 with
    | Ret (Some t) =>
        (Ret [{| wi_video := video; wi_input := Unsqueeze0 t; wi_output := latent |}],
         loaded.2)
    | Ret None => (Ret [], loaded.2)
    | Raise e =>
        (Ret [], {| video_capture := video_capture loaded.2;
                    events := events loaded.2 ++ [EvPrint (LoadVideoTensorError e)] |})
    end.
Proof.
  intros Hv Hl loaded. subst loaded.
  unfold Py.process_one_video, Py.item_get, mtry, mbind, mret, lift, print, emit.
  rewrite Hv, Hl.
  destruct (Py.load_video_and_transform _ _ _ _ _ _ _ _) as [[[t|]|e] s']; reflexivity.
Qed.

Lemma Py_process_one_video_missing_key disk self item s :
  Py.item_video item = None ∨ Py.item_latent item = None →
  Py.process_one_video disk self item s = (Raise KeyError, s).
Proof.
  unfold Py.process_one_video, Py.item_get, mbind, lift.
  destruct (Py.item_video item), (Py.item_latent item); intros [?|?]; done.
Qed.

Lemma Py_getitem_unfold disk self index s :
  Py.getitem disk self index s =
  match Py.annotation self !! index with
  | None =>
      (Ret [], {| video_capture := video_capture s;
                  events := events s ++ [EvPrint (ErrorWith IndexError)] |})
  | Some item =>
      match Py.process_one_video disk self item s with
      | (Ret items, s') => (Ret items, s')
      | (Raise e, s') =>
          (Ret [], {| video_capture := video_capture s';
                      events := events s' ++ [EvPrint (ErrorWith e)] |})
      end
  end.
Proof.
  unfold Py.getitem, mtry, mbind, lift, print, emit, mret.
  destruct (Py.annotation self !! index) as [item|]; [|reflexivity].
  destruct (Py.process_one_video disk self item s) as [[items|e] s']; reflexivity.
Qed.

(** On a typed line and a typed dataset the functions of [Py] are the
    functions above. *)
Lemma Py_process_one_video_line_of disk self item s :
  Py.process_one_video disk (dataset_of self) (line_of item) s
  = process_one_video disk self item s.
Proof.
  rewrite (Py_process_one_video_unfold disk (dataset_of self) (line_of item)
             (item_video item) (item_latent item) s eq_refl eq_refl).
  rewrite process_one_video_unfold. cbn zeta.
  cbn [line_of dataset_of Py.item_frames Py.num_frames Py.width Py.height].
  assert (Hfr : match option_map ints (item_frames item) with
                | Some value => value
                | None => ints (seqZ 0 (num_frames self))
                end
                = ints (match item_frames item with
                        | Some l => l
                        | None => seqZ 0 (num_frames self)
                        end)) by (by destruct (item_frames item)).
  rewrite Hfr, Py_load_ints.
  match goal with |- context [load_video_and_transform ?d ?p ?i ?n ?a ?b ?c ?st] =>
    destruct (load_returns d p i n a b c st) as [r Hr];
    destruct (load_video_and_transform d p i n a b c st) as [r' s'] end.
  cbn [fst snd] in *. subst r'. by destruct r.
Qed.

Lemma Py_getitem_dataset_of disk self index s :
  Py.getitem disk (dataset_of self) index s = getitem disk self index s.
Proof.
  rewrite Py_getitem_unfold, getitem_unfold.
  cbn [dataset_of Py.annotation]. rewrite list_lookup_fmap.
  destruct (annotation self !! index) as [item|]; cbn [fmap option_fmap option_map]; [|done].
  rewrite Py_process_one_video_line_of, process_one_video_unfold. done.
Qed.

(** C4 (amended). When [set(frame_indexs)] of line 65 rejects the value
    (null, a number, a list holding a list or an object) the TypeError is
    raised before the [try]: [load_video_and_transform] propagates it and
    nothing has been opened or printed. On every other value, every list of
    ints among them, it returns: if opening raises, the capture was never
    assigned and None is returned; if a read, the colour conversion, the
    last-index lookup or the comparison with it raises, if no frame was
    collected, or if stacking or transforming raises, None is returned;
    once the capture is open a release follows the reads. On a line with
    both keys [process_one_video] returns at most one work item, and none
    when the sampler returned None or raised, the TypeError being caught
    and reported by its handler; [__getitem__] returns on every index. *)
Theorem load_raises_only_before_try disk path frame_indexs N nw nh rs s :
  let file := default missing_file (disk !! path) in
  let out := Py.load_video_and_transform disk path frame_indexs N nw nh rs s in
  (∀ e, py_set frame_indexs = Raise e →
     e = TypeError ∧ out.1 = Raise TypeError ∧ events out.2 = events s)
  ∧ (∀ frame_indexes_set, py_set frame_indexs = Ret frame_indexes_set →
     let loop := Py.read_loop frame_indexs frame_indexes_set (stream file) 0 [] in
     (∃ r, out.1 = Ret r)
     ∧ (∀ e, open_raises file = Some e →
          out.1 = Ret None
          ∧ events out.2 = events s ++ [EvPrint (LoadingVideoException path e)])
     ∧ (open_raises file = None →
          (∀ e, loop.1.1 = Raise e → out.1 = Ret None)
          ∧ (∀ frames, loop.1.1 = Ret frames → frames = [] → out.1 = Ret None)
          ∧ (∀ frames e, loop.1.1 = Ret frames →
               truncate_and_transform frames N nw nh rs = Raise e → out.1 = Ret None)
          ∧ ∃ tail,
              events out.2 = events s ++ EvOpen path :: replicate loop.2 EvRead ++ tail
              ∧ EvRelease ∈ tail))
  ∧ (∀ idx : list Z,
       py_set (ints idx) = Ret (map (λ z, JNum (inject_Z z)) idx)
       ∧ Py.load_video_and_transform disk path (ints idx) N nw nh rs s
         = load_video_and_transform disk path idx N nw nh rs s)
  ∧ (∀ self item video latent s0,
       Py.item_video item = Some video → Py.item_latent item = Some latent →
       let loaded :=
         Py.load_video_and_transform disk video
           (match Py.item_frames item with
            | Some value => value
            | None => ints (seqZ 0 (Py.num_frames self))
            end)
           (Py.num_frames self) (Some (Py.width self)) (Some (Py.height self)) true s0 in
       ∃ items s1,
         Py.process_one_video disk self item s0 = (Ret items, s1)
         ∧ (length items <= 1)%nat
         ∧ (loaded.1 = Ret None → items = [])
         ∧ (∀ e, loaded.1 = Raise e →
              items = []
              ∧ events s1 = events s0 ++ [EvPrint (LoadVideoTensorError TypeError)]))
  ∧ (∀ self index s0,
       ∃ items, (Py.getitem disk self index s0).1 = Ret items ∧ (length items <= 1)%nat).
Proof.
  intros file out.
  split; [|split; [|split; [|split]]].
  - intros e He. subst out. rewrite Py_load_unfold, He.
    apply py_set_raises in He as ->. done.
  - intros frame_indexes_set Hset loop. subst out. rewrite Py_load_unfold, Hset.
    cbn zeta. fold file.
    destruct (open_raises file) as [e0|] eqn:Hopen.
    { split; [by eexists|]. split; [by intros e [= <-]|done]. }
    fold loop. destruct loop as [[r rest] n]. cbn [fst snd].
    destruct r as [frames|e].
    + destruct (length frames =? 0)%nat eqn:Hlen.
      * split; [by eexists|]. split; [done|]. intros _.
        repeat split; try done.
        eexists. split; [by rewrite <- app_assoc|]. by repeat constructor.
      * destruct (truncate_and_transform frames N nw nh rs) as [t|e] eqn:Htt.
        -- split; [by eexists|]. split; [done|]. intros _.
           repeat split; try done.
           ++ intros frames' [= <-] ->. done.
           ++ intros frames' e [= <-]. congruence.
           ++ eexists. split; [by rewrite <- app_assoc|]. by repeat constructor.
        -- split; [by eexists|]. split; [done|]. intros _.
           repeat split; try done.
           eexists. split; [by rewrite <- app_assoc|]. by repeat constructor.
    + split; [by eexists|]. split; [done|]. intros _.
      repeat split; try done.
      eexists. split; [by rewrite <- app_assoc|]. by repeat constructor.
  - intros idx. split; [apply py_set_ints|apply Py_load_ints].
  - clear file out. intros self item video latent s0 Hv Hl loaded.
    rewrite (Py_process_one_video_unfold disk self item video latent s0 Hv Hl).
    cbn zeta. fold loaded.
    pose proof (Py_load_outcome disk video
                  (match Py.item_frames item with
                   | Some value => value
                   | None => ints (seqZ 0 (Py.num_frames self))
                   end)
                  (Py.num_frames self) (Some (Py.width self)) (Some (Py.height self))
                  true s0) as Hout.
    cbn zeta in Hout. fold loaded in Hout.
    destruct loaded.1 as [[t|]|e] eqn:Hld.
    + eexists _, _. split; [reflexivity|]. cbn. split; [lia|]. split; [done|done].
    + eexists _, _. split; [reflexivity|]. cbn. split; [lia|]. split; [done|done].
    + eexists _, _. split; [reflexivity|]. cbn [length events]. split; [lia|].
      split; [done|]. intros e' _. split; [done|].
      destruct (py_set _) as [set|e0].
      * destruct Hout as (new & _ & [(t & Ht & _)|[Hn _]]); congruence.
      * destruct Hout as [Hr Hev]. rewrite Hev. congruence.
  - clear file out. intros self index s0. rewrite Py_getitem_unfold.
    destruct (Py.annotation self !! index) as [item|]; [|eexists; split; [done|cbn; lia]].
    destruct (Py.item_video item) as [video|] eqn:Hv.
    2:{ rewrite Py_process_one_video_missing_key by (by left).
        eexists; split; [done|cbn; lia]. }
    destruct (Py.item_latent item) as [latent|] eqn:Hl.
    2:{ rewrite Py_process_one_video_missing_key by (by right).
        eexists; split; [done|cbn; lia]. }
    rewrite (Py_process_one_video_unfold disk self item video latent s0 Hv Hl).
    cbn zeta.
    destruct (Py.load_video_and_transform _ _ _ _ _ _ _ _).1 as [[t|]|e];
      eexists; (split; [done|cbn; lia]).
Qed.

End PyFacts.

Section PyDatasetFacts.
Context `{Backend}.

(** X7. For a manifest whose lines are objects with string paths,
    [__getitem__] returns on every index, with at most one work item and at
    most one message. An index outside the manifest prints
    [Error with IndexError]; a line without [video] or [latent] prints
    [Error with KeyError]; both give the empty list. On a line with both
    keys no [Error with] is printed. If [set] rejects the frames value
    (null, a number, a list holding a list or an object), the handler of
    [process_one_video] prints [Load video tensor Error] for the TypeError
    and the list is empty. Otherwise that handler is not entered, and the
    result is the empty list with one message of the sampler, or one work
    item with the line's paths and no message. *)
Theorem getitem_handlers disk (self : Py.VideoDataset) index s :
  let out := Py.getitem disk self index s in
  ∃ items new,
    out.1 = Ret items
    ∧ events out.2 = events s ++ new
    ∧ (length items <= 1)%nat
    ∧ (length (messages_of new) <= 1)%nat
    ∧ match Py.annotation self !! index with
      | None => items = [] ∧ new = [EvPrint (ErrorWith IndexError)]
      | Some item =>
          match Py.item_video item, Py.item_latent item with
          | Some video, Some latent =>
              (∀ e, ErrorWith e ∉ messages_of new)
              ∧ match py_set (match Py.item_frames item with
                              | Some value => value
                              | None => ints (seqZ 0 (Py.num_frames self))
                              end) with
                | Raise _ =>
                    items = [] ∧ new = [EvPrint (LoadVideoTensorError TypeError)]
                | Ret _ =>
                    (∀ e, LoadVideoTensorError e ∉ messages_of new)
                    ∧ (items = [] ∧ length (messages_of new) = 1%nat
                       ∨ ∃ t, items = [{| wi_video := video;
                                          wi_input := Unsqueeze0 t;
                                          wi_output := latent |}]
                              ∧ messages_of new = [])
                end
          | _, _ => items = [] ∧ new = [EvPrint (ErrorWith KeyError)]
          end
      end.
Proof.
  intros out. subst out. rewrite Py_getitem_unfold.
  destruct (Py.annotation self !! index) as [item|].
  2:{ exists [], [EvPrint (ErrorWith IndexError)].
      cbn [fst snd events messages_of omap list_omap length].
      split; [done|]. split; [done|]. split; [lia|]. split; [lia|done]. }
  destruct (Py.item_video item) as [video|] eqn:Hv.
  2:{ rewrite Py_process_one_video_missing_key by (by left).
      exists [], [EvPrint (ErrorWith KeyError)].
      cbn [fst snd events messages_of omap list_omap length].
      split; [done|]. split; [done|]. split; [lia|]. split; [lia|done]. }
  destruct (Py.item_latent item) as [latent|] eqn:Hl.
  2:{ rewrite Py_process_one_video_missing_key by (by right).
      exists [], [EvPrint (ErrorWith KeyError)].
      cbn [fst snd events messages_of omap list_omap length].
      split; [done|]. split; [done|]. split; [lia|]. split; [lia|done]. }
  rewrite (Py_process_one_video_unfold disk self item video latent s Hv Hl). cbn zeta.
  set (frames := match Py.item_frames item with
                 | Some value => value
                 | None => ints (seqZ 0 (Py.num_frames self))
                 end).
  pose proof (Py_load_outcome disk video frames (Py.num_frames self)
                (Some (Py.width self)) (Some (Py.height self)) true s) as Hout.
  cbn zeta in Hout.
  destruct (py_set frames) as [set|e0].
  - destruct Hout as (new & Hev & [(t & Ht & Hmsg)|(Hn & msg & Hmsg & Hkind)]).
    + rewrite Ht. eexists _, new. split; [done|]. split; [done|].
      rewrite Hmsg. cbn [length]. split; [lia|]. split; [lia|].
      split; [intros e Hin; by apply elem_of_nil in Hin|].
      split; [intros e Hin; by apply elem_of_nil in Hin|].
      right. by exists t.
    + rewrite Hn. eexists _, new. split; [done|]. split; [done|].
      rewrite Hmsg. cbn [length]. split; [lia|]. split; [lia|].
      assert (Hnot : ∀ other, other ∈ [msg] →
                (∀ e, other ≠ LoadVideoTensorError e) ∧ (∀ e, other ≠ ErrorWith e)).
      { intros other Hin. apply list_elem_of_singleton in Hin as ->.
        destruct Hkind as [->|[e ->]]; split; intros e'; discriminate. }
      split; [intros e Hin; by destruct (Hnot _ Hin) as [_ Hne]; apply (Hne e)|].
      split; [intros e Hin; by destruct (Hnot _ Hin) as [Hne _]; apply (Hne e)|].
      by left.
  - destruct Hout as [Hr Hev]. rewrite Hr.
    eexists [], [EvPrint (LoadVideoTensorError TypeError)].
    cbn [fst snd events messages_of omap list_omap length]. rewrite Hev.
    split; [done|]. split; [done|]. split; [lia|]. split; [lia|].
    split; [|done].
    intros e Hin. apply list_elem_of_singleton in Hin. discriminate Hin.
Qed.

(** The loader of [Py] on a dataset that is built. *)
Lemma Py_getitem_returns disk self index s :
  ∃ items new,
    (Py.getitem disk self index s).1 = Ret items
    ∧ events (Py.getitem disk self index s).2 = events s ++ new.
Proof.
  rewrite Py_getitem_unfold.
  destruct (Py.annotation self !! index) as [item|]; [|by eexists _, _].
  destruct (Py.item_video item) as [video|] eqn:Hv.
  2:{ rewrite Py_process_one_video_missing_key by (by left). by eexists _, _. }
  destruct (Py.item_latent item) as [latent|] eqn:Hl.
  2:{ rewrite Py_process_one_video_missing_key by (by right). by eexists _, _. }
  rewrite (Py_process_one_video_unfold disk self item video latent s Hv Hl). cbn zeta.
  pose proof (Py_load_outcome disk video
                (match Py.item_frames item with
                 | Some value => value
                 | None => ints (seqZ 0 (Py.num_frames self))
                 end) (Py.num_frames self)
                (Some (Py.width self)) (Some (Py.height self)) true s) as Hout.
  cbn zeta in Hout.
  destruct (py_set _) as [set|e0].
  - destruct Hout as (new & Hev & [(t & -> & _)|(-> & _)]); by eexists _, new.
  - destruct Hout as [-> Hev]. eexists _, _. cbn [fst snd events]. by rewrite Hev.
Qed.

Lemma Py_fetch_returns disk self batch s :
  ∃ fetched new,
    (Py.fetch disk self batch s).1 = Ret fetched
    ∧ events (Py.fetch disk self batch s).2 = events s ++ new.
Proof.
  revert s. induction batch as [|index rest IH]; intros s.
  - exists [], []. cbn. by rewrite app_nil_r.
  - cbn [Py.fetch]. unfold mbind.
    destruct (Py_getitem_returns disk self index s) as (items & new1 & Hr & Hev).
    destruct (Py.getitem disk self index s) as [r s1]. cbn [fst snd] in Hr, Hev. subst r.
    destruct (IH s1) as (fetched & new2 & Hr2 & Hev2).
    destruct (Py.fetch disk self rest s1) as [r2 s2]. cbn [fst snd] in Hr2, Hev2. subst r2.
    eexists _, (new1 ++ new2). cbn. by rewrite Hev2, Hev, <- app_assoc.
Qed.

Lemma Py_iterate_returns disk self batches s :
  ∃ samples new,
    (Py.iterate disk self batches s).1 = Ret samples
    ∧ events (Py.iterate disk self batches s).2 = events s ++ new.
Proof.
  revert s. induction batches as [|batch rest IH]; intros s.
  - exists [], []. cbn. by rewrite app_nil_r.
  - cbn [Py.iterate]. unfold mbind.
    destruct (Py_fetch_returns disk self batch s) as (fetched & new1 & Hr & Hev).
    destruct (Py.fetch disk self batch s) as [r s1]. cbn [fst snd] in Hr, Hev. subst r.
    destruct (IH s1) as (samples & new2 & Hr2 & Hev2).
    destruct (Py.iterate disk self rest s1) as [r2 s2]. cbn [fst snd] in Hr2, Hev2. subst r2.
    eexists _, (new1 ++ new2). cbn. by rewrite Hev2, Hev, <- app_assoc.
Qed.

Lemma Py_fetch_dataset_of disk self batch s :
  Py.fetch disk (dataset_of self) batch s = fetch disk self batch s.
Proof.
  revert s. induction batch as [|index rest IH]; intros s; [done|].
  cbn [Py.fetch fetch]. unfold mbind. rewrite Py_getitem_dataset_of.
  destruct (getitem disk self index s) as [[items|e] s1]; [|done]. by rewrite IH.
Qed.

Lemma Py_iterate_dataset_of disk self batches s :
  Py.iterate disk (dataset_of self) batches s = iterate disk self batches s.
Proof.
  revert s. induction batches as [|batch rest IH]; intros s; [done|].
  cbn [Py.iterate iterate]. unfold mbind. rewrite Py_fetch_dataset_of.
  destruct (fetch disk self batch s) as [[fetched|e] s1]; [|done]. by rewrite IH.
Qed.

(** X10. [build_data_loader] builds the dataset first. If the manifest
    cannot be read it raises what the reader raised, with nothing printed.
    Once the manifest is read, [Totally N videos] is printed first, and the
    function raises exactly when the rank is outside the world or the batch
    size is below 1: a ValueError, with nothing else printed or opened. On
    a manifest of lines whose frames are lists of ints the samples are
    those of the loader on the loaded dataset. *)
Theorem data_loader_refusals disk anno_file (target_width target_height : N)
    (frame_budget : Z) (world_size rank : nat) (batch_size : Z) s :
  let out := Py.build_data_loader disk anno_file target_width target_height
               frame_budget world_size rank batch_size s in
  (∀ e, anno_file = Raise e → out = (Raise e, s))
  ∧ (∀ lines, anno_file = Ret lines →
       ((∃ e, out.1 = Raise e) ↔ (world_size <= rank)%nat ∨ batch_size <= 0)
       ∧ (∀ e, out.1 = Raise e →
            e = ValueError
            ∧ events out.2 = events s ++ [EvPrint (TotalVideos (length lines))])
       ∧ ∃ new, events out.2
                = events s ++ EvPrint (TotalVideos (length lines)) :: new)
  ∧ (∀ self,
       anno_file = Ret (map line_of (annotation self)) →
       target_width = width self → target_height = height self →
       frame_budget = num_frames self →
       out.1 = (build_data_loader disk self world_size rank batch_size s).1).
Proof.
  intros out. subst out.
  unfold Py.build_data_loader, Py.VideoDataset_init, mbind, lift, mraise, print, emit, mret.
  split; [by intros e ->|]. split.
  - intros lines ->. cbn [Py.len Py.annotation video_capture events].
    unfold DistributedSampler_init.
    destruct (world_size <=? rank)%nat eqn:Hle.
    { apply Nat.leb_le in Hle. cbn [fst snd events].
      split; [split; [by left|by eauto]|]. split; [by intros e [= <-]|].
      exists []. done. }
    apply Nat.leb_gt in Hle.
    destruct (batch_size <=? 0) eqn:Hb.
    { apply Z.leb_le in Hb. cbn [fst snd events].
      split; [split; [by right|by eauto]|]. split; [by intros e [= <-]|].
      exists []. done. }
    apply Z.leb_gt in Hb.
    match goal with |- context [Py.iterate disk ?d ?bs ?st] =>
      destruct (Py_iterate_returns disk d bs st) as (samples & new & Hr & Hev) end.
    rewrite Hr, Hev. cbn [events].
    split; [split; [by intros [e He]|intros [?|?]; lia]|]. split; [done|].
    exists new. by rewrite <- app_assoc.
  - intros self -> -> -> ->.
    unfold build_data_loader, mbind, lift, mraise.
    unfold Py.len, len. cbn [Py.annotation]. rewrite !length_map.
    destruct (DistributedSampler_init (length (annotation self)) world_size rank)
      as [sampler|e]; [|reflexivity].
    destruct (batch_size <=? 0); [reflexivity|].
    change {| Py.annotation := map line_of (annotation self);
              Py.width := width self; Py.height := height self;
              Py.num_frames := num_frames self |}
      with (dataset_of self).
    rewrite Py_iterate_dataset_of.
    set (batches := batch_sampler _ _ _).
    destruct (iterate_run disk self batches s) as (new1 & Hr1 & _).
    destruct (iterate_run disk self batches
                {| video_capture := video_capture s;
                   events := events s
                             ++ [EvPrint (TotalVideos (length (annotation self)))] |})
      as (new2 & Hr2 & _).
    by rewrite Hr1, Hr2.
Qed.

End PyDatasetFacts.

(** C4 (counterexample). A manifest line with [frames: null]:
    [set(None)] raises TypeError on line 65, before the [try], and
    [load_video_and_transform] propagates it. [process_one_video] catches
    it, so [__getitem__] prints [Load video tensor Error] and returns the
    empty list. *)
Lemma load_raises_on_null_frames :
  let out :=
    @Py.load_video_and_transform exact_backend sample_disk "a.mp4" JNull 121
      (Some 640%N) (Some 384%N) true initial_state in
  let self := {| Py.annotation :=
                   [{| Py.item_video := Some "a.mp4"%string;
                       Py.item_latent := Some "a.pt"%string;
                       Py.item_frames := Some JNull |}];
                 Py.width := 640; Py.height := 384; Py.num_frames := 121 |} in
  out.1 = Raise TypeError
  ∧ ¬ (∃ r, out.1 = Ret r)
  ∧ events out.2 = []
  ∧ @Py.getitem exact_backend sample_disk self 0 initial_state
    = (Ret [], {| video_capture := None;
                  events := [EvPrint (LoadVideoTensorError TypeError)] |}).
Proof.
  cbn zeta. split; [reflexivity|]. split; [|split; reflexivity].
  intros [r Hr]. discriminate Hr.
Qed.
